(** * Audit-trail integrity pipeline: a shallow embedding

    The development follows the Python sources of the audit-trail package:
    - [audit_trail.py]   the single-file implementation;
    - [config.py], [log_collector.py], [log_signer.py], [s3_uploader.py]
      the same pipeline split into modules.

    Python functions that touch the file system and the application logger
    are written in a small state-and-exception monad over a [world]; the
    [cryptography] and [hashlib] primitives are an interface ([Crypto]);
    what the operating system decides (random keys, uuids, clocks) is an
    explicit argument of the call that consumes it. *)

From Stdlib Require Import Ascii String ZArith DecimalString DecimalPos.
From stdpp Require Import gmap strings list fin_maps pretty.

Set Warnings "-register-all,-clear-no-such-hyp".

(** ** Exceptions and outcomes *)

(** A Python exception (a subclass of [Exception]): class name and message. *)
Record exn := Exn { exn_type : string; exn_msg : string }.

Inductive outcome (A : Type) :=
  | Ret (a : A)
  | Raise (e : exn).
Arguments Ret {A} a.
Arguments Raise {A} e.

(** ** Paths ([pathlib]); path strings are in pathlib's normal form *)

Definition slash : ascii := "/"%char.

(** [Path.is_absolute()] (POSIX) *)
Definition is_absolute (p : string) : bool :=
  match p with
  | String c _ => bool_decide (c = slash)
  | EmptyString => false
  end.

(** [str(p).count('/')] *)
Fixpoint count_slash (p : string) : nat :=
  match p with
  | EmptyString => 0
  | String c r => (if decide (c = slash) then 1 else 0) + count_slash r
  end.

Fixpoint path_name_go (acc p : string) : string :=
  match p with
  | EmptyString => acc
  | String c r =>
      if decide (c = slash) then path_name_go "" r
      else path_name_go (acc +:+ String c "") r
  end.

(** [Path.name]: the final component *)
Definition path_name (p : string) : string := path_name_go "" p.


(** [dir / name] of pathlib, for a non-empty relative [name] *)
Definition path_join (dir name : string) : string := dir +:+ "/" +:+ name.

(** ** The world: file system and application log *)

Inductive node :=
  | File (content : string)   (* a regular file and its bytes *)
  | Dir.                      (* a directory *)

Inductive level := INFO | WARNING | ERROR.

(** [denied] holds the paths on which [open()] raises [OSError] whatever the
    mode (permissions, a missing parent directory, a full quota). *)
Record world := World {
  fs : gmap string node;
  denied : gset string;
  log : list (level * string)
}.

Definition M (A : Type) : Type := world → outcome A * world.

Global Instance M_ret : MRet M := λ A a w, (Ret a, w).
Global Instance M_bind : MBind M := λ A B f m w,
  match m w with
  | (Ret a, w') => f a w'
  | (Raise e, w') => (Raise e, w')
  end.

Definition raise {A} (e : exn) : M A := λ w, (Raise e, w).

(** [try: body except Exception as e: handler e] *)
Definition try_except {A} (body : M A) (handler : exn → M A) : M A := λ w,
  match body w with
  | (Ret a, w') => (Ret a, w')
  | (Raise e, w') => handler e w'
  end.

(** [try: body except <cls> as e: handler e]: other classes propagate. *)
Definition try_except_cls {A} (cls : string) (body : M A) (handler : exn → M A) : M A :=
  λ w,
  match body w with
  | (Ret a, w') => (Ret a, w')
  | (Raise e, w') =>
      if decide (exn_type e = cls) then handler e w' else (Raise e, w')
  end.

Definition lift {A} (o : outcome A) : M A := λ w, (o, w).

(** [logger.info(msg)], [logger.warning(msg)], [logger.error(msg)]: one
    more record of the ['audit_trail'] logger. What the handlers print for
    a record is modelled where the day's log file is the subject
    ([log_event]). Elsewhere the files that a function reads after it has
    logged are files no handler appends to: [process_daily_logs] copies the
    live log before anything else, and the snapshot is what is hashed,
    signed and verified. *)
Definition logger (lv : level) (msg : string) : M unit := λ w,
  (Ret tt, World (fs w) (denied w) (log w ++ [(lv, msg)])).

(** [Path.exists()], for a test that answers ([Faults.path_exists] has the
    test that raises) *)
Definition path_exists (p : string) : M bool := λ w,
  (Ret (bool_decide (is_Some (fs w !! p))), w).

(** [with open(p, 'rb') as f: f.read()] *)
Definition read_bytes (p : string) : M string := λ w,
  if decide (p ∈ denied w) then (Raise (Exn "PermissionError" p), w)
  else match fs w !! p with
       | Some (File c) => (Ret c, w)
       | Some Dir => (Raise (Exn "IsADirectoryError" p), w)
       | None => (Raise (Exn "FileNotFoundError" p), w)
       end.

(** [with open(p, 'wb') as f: f.write(data)] (and the text mode ['w'] for
    ASCII data), where the only failure is an [open] that is refused
    ([Faults.open_wb] and [Faults.write_close] have the two steps, and the
    write that fails) *)
Definition write_bytes (p : string) (data : string) : M unit := λ w,
  if decide (p ∈ denied w) then (Raise (Exn "PermissionError" p), w)
  else match fs w !! p with
       | Some Dir => (Raise (Exn "IsADirectoryError" p), w)
       | _ => (Ret tt, World (<[p := File data]> (fs w)) (denied w) (log w))
       end.

(** [shutil.copy2(src, dst)]: into [dst], or under the name of [src] when
    [dst] is a directory *)
Definition copy2 (src dst : string) : M unit := λ w,
  match fs w !! dst with
  | Some Dir => (c ← read_bytes src; write_bytes (path_join dst (path_name src)) c) w
  | _ => (c ← read_bytes src; write_bytes dst c) w
  end.

Definition newline : string := String "010"%char "".

(** A [FileHandler] writing one formatted record to its file [p]. *)
Definition append_text (p : string) (text : string) : M unit := λ w,
  match fs w !! p with
  | Some (File c) => (Ret tt, World (<[p := File (c +:+ text)]> (fs w)) (denied w) (log w))
  | _ => (Ret tt, World (<[p := File text]> (fs w)) (denied w) (log w))
  end.

(** ** Configuration ([class Config]) *)

Record Config := {
  LOG_DIR : string;
  SIGNATURES_DIR : string;
  KEYS_DIR : string;
  HASH_FILE_EXTENSION : string;
  SIGNATURE_FILE_EXTENSION : string;
  PRIVATE_KEY_FILENAME : string;
  PUBLIC_KEY_FILENAME : string;
  S3_SIMULATION_MODE : bool;
  S3_BUCKET_NAME : string;
  S3_PREFIX : string;
  S3_STORAGE_CLASS : string
}.

Definition get_private_key_path (cfg : Config) : string :=
  path_join (KEYS_DIR cfg) (PRIVATE_KEY_FILENAME cfg).
Definition get_public_key_path (cfg : Config) : string :=
  path_join (KEYS_DIR cfg) (PUBLIC_KEY_FILENAME cfg).

(** [audit_trail.py]: directories relative to the working directory. *)
Definition audit_trail_Config : Config := {|
  LOG_DIR := "logs";
  SIGNATURES_DIR := "signatures";
  KEYS_DIR := "keys";
  HASH_FILE_EXTENSION := ".sha256";
  SIGNATURE_FILE_EXTENSION := ".sig";
  PRIVATE_KEY_FILENAME := "private_key.pem";
  PUBLIC_KEY_FILENAME := "public_key.pem";
  S3_SIMULATION_MODE := true;
  S3_BUCKET_NAME := "audit-trail-archive";
  S3_PREFIX := "audit-logs/";
  S3_STORAGE_CLASS := "GLACIER"
|}.

(** [config.py]: directories under [BASE_DIR], the directory of the module. *)
Definition config_Config (BASE_DIR : string) : Config := {|
  LOG_DIR := path_join BASE_DIR "logs";
  SIGNATURES_DIR := path_join BASE_DIR "signatures";
  KEYS_DIR := path_join BASE_DIR "keys";
  HASH_FILE_EXTENSION := ".sha256";
  SIGNATURE_FILE_EXTENSION := ".sig";
  PRIVATE_KEY_FILENAME := "private_key.pem";
  PUBLIC_KEY_FILENAME := "public_key.pem";
  S3_SIMULATION_MODE := true;   (* [StorageProcessor(simulate=True)] *)
  S3_BUCKET_NAME := "audit-trail-archive";
  S3_PREFIX := "audit-logs";
  S3_STORAGE_CLASS := "GLACIER"
|}.

(** ** The cryptographic primitives ([cryptography], [hashlib]) *)

Class Crypto := {
  PrivKey : Type;
  PubKey : Type;
  (** [private_key.public_key()] *)
  public_key_of : PrivKey → PubKey;
  (** [private_bytes(PEM, PKCS8, NoEncryption())] *)
  private_bytes : PrivKey → outcome string;
  (** [public_bytes(PEM, SubjectPublicKeyInfo)] *)
  public_bytes : PubKey → outcome string;
  (** [serialization.load_pem_private_key(data, password=None)] *)
  load_pem_private_key : string → outcome PrivKey;
  (** [serialization.load_pem_public_key(data)] *)
  load_pem_public_key : string → outcome PubKey;
  (** [private_key.sign(data, padding.PKCS1v15(), hashes.SHA256())] *)
  rsa_sign : PrivKey → string → outcome string;
  (** [public_key.verify(signature, data, padding.PKCS1v15(), hashes.SHA256())]:
      returns [None], or raises (class [InvalidSignature] on a mismatch) *)
  rsa_verify : PubKey → string → string → outcome unit;
  (** [hashlib.sha256(data).hexdigest()] *)
  sha256_hexdigest : string → string
}.

Definition InvalidSignature : string := "InvalidSignature".

(** ** [CryptographicProcessor]: loading keys, signing, verifying

    [sign_file], [verify_file], [_load_private_key] and [_load_public_key]
    have the same text in [audit_trail.py] and in [log_signer.py]. *)

Section CryptographicProcessor.
Context {C : Crypto}.
Variable cfg : Config.

Definition _load_private_key : M (option PrivKey) :=
  let private_key_path := get_private_key_path cfg in
  b ← path_exists private_key_path;
  if negb b then
    logger ERROR ("Private key not found at " +:+ private_key_path);;
    mret None
  else
    try_except
      (data ← read_bytes private_key_path;
       private_key ← lift (load_pem_private_key data);
       mret (Some private_key))
      (λ e, logger ERROR ("Error loading private key: " +:+ exn_msg e);;
            mret None).

Definition _load_public_key : M (option PubKey) :=
  let public_key_path := get_public_key_path cfg in
  b ← path_exists public_key_path;
  if negb b then
    logger ERROR ("Public key not found at " +:+ public_key_path);;
    mret None
  else
    try_except
      (data ← read_bytes public_key_path;
       public_key ← lift (load_pem_public_key data);
       mret (Some public_key))
      (λ e, logger ERROR ("Error loading public key: " +:+ exn_msg e);;
            mret None).

Definition verify_file (file_path signature_path : string) : M bool :=
  try_except
    (b ← path_exists file_path;
     if negb b then
       logger ERROR ("File not found: " +:+ file_path);; mret false
     else
     b ← path_exists signature_path;
     if negb b then
       logger ERROR ("Signature file not found: " +:+ signature_path);;
       mret false
     else
     file_content ← read_bytes file_path;
     signature ← read_bytes signature_path;
     logger INFO ("File size: " +:+ pretty (String.length file_content) +:+ " bytes");;
     logger INFO ("Signature size: " +:+ pretty (String.length signature) +:+ " bytes");;
     public_key ← _load_public_key;
     match public_key with
     | None => mret false
     | Some public_key =>
         try_except_cls InvalidSignature
           (lift (rsa_verify public_key signature file_content);;
            logger INFO ("Signature verified successfully for " +:+ file_path);;
            mret true)
           (λ e, logger ERROR ("Signature verification FAILED: " +:+ exn_msg e
                               +:+ " for " +:+ file_path);;
                 mret false)
     end)
    (λ e, logger ERROR ("Error verifying file: " +:+ exn_msg e);; mret false).

Definition sign_file (file_path : string) : M (option string) :=
  try_except
    (b ← path_exists file_path;
     if negb b then
       logger ERROR ("File not found: " +:+ file_path);; mret None
     else
     file_content ← read_bytes file_path;
     private_key ← _load_private_key;
     match private_key with
     | None => mret None
     | Some private_key =>
         signature ← lift (rsa_sign private_key file_content);
         let signature_path := file_path +:+ SIGNATURE_FILE_EXTENSION cfg in
         write_bytes signature_path signature;;
         logger INFO ("File signed successfully. Signature saved to: " +:+ signature_path);;
         logger INFO ("File size: " +:+ pretty (String.length file_content) +:+ " bytes");;
         logger INFO ("Signature size: " +:+ pretty (String.length signature) +:+ " bytes");;
         verification_result ← verify_file file_path signature_path;
         (if verification_result : bool then
            logger INFO "Immediate verification after signing: SUCCESS"
          else
            logger WARNING "Immediate verification after signing: FAILED - Check cryptographic implementation");;
         mret (Some signature_path)
     end)
    (λ e, logger ERROR ("Error signing file: " +:+ exn_msg e);; mret None).

End CryptographicProcessor.

(** ** [AuditTrailProcessor] *)

(** The attributes of an [AuditTrailProcessor] instance that the pipeline
    reads: [audit_logger.log_path] and, once [process_daily_logs] has stored
    them, [snapshot_log_path] and [signature_path] ([None] here stands for
    "no such attribute", what [hasattr] tests). *)
Record processor := Processor {
  self_log_path : string;                    (* self.audit_logger.log_path *)
  self_snapshot_log_path : option string;    (* self.snapshot_log_path *)
  self_signature_path : option string        (* self.signature_path *)
}.

(** An argument typed [Path] that a caller may also pass as a [str]. *)
Inductive pathlike :=
  | PStr (s : string)
  | PPath (p : string).

Definition attribute_error {A} (ty attr : string) : M A :=
  raise (Exn "AttributeError"
             ("'" +:+ ty +:+ "' object has no attribute '" +:+ attr +:+ "'")).

Section verify_logs.
Context {C : Crypto}.
Variable cfg : Config.

(** [verify_logs]: the same text in [audit_trail.py] and [log_signer.py]. *)
Definition verify_logs (self : processor)
    (log_path signature_path : option pathlike) : M bool :=
  let log_path :=
    match log_path, self_snapshot_log_path self with
    | None, Some p => Some (PPath p)
    | _, _ => log_path
    end in
  let signature_path :=
    match signature_path, self_signature_path self with
    | None, Some p => Some (PPath p)
    | _, _ => signature_path
    end in
  (* isinstance(log_path, str) *)
  let log_path :=
    match log_path with
    | Some (PStr s) => Some s
    | Some (PPath p) => Some p
    | None => None
    end in
  match log_path with
  | None => attribute_error "NoneType" "is_absolute"
  | Some log_path =>
      let log_path :=
        if negb (is_absolute log_path) && (count_slash log_path =? 0)%nat
        then path_join (LOG_DIR cfg) log_path else log_path in
      b ← path_exists log_path;
      if negb b then
        logger ERROR ("Log file not found: " +:+ log_path);; mret false
      else
        let signature_path :=
          match signature_path with
          | None => Some (PPath (path_join (SIGNATURES_DIR cfg)
                        (path_name log_path +:+ SIGNATURE_FILE_EXTENSION cfg)))
          | Some sp => Some sp
          end in
        match signature_path with
        | None => attribute_error "NoneType" "exists"
        | Some (PStr _) => attribute_error "str" "exists"
        | Some (PPath signature_path) =>
            b ← path_exists signature_path;
            if negb b then
              logger ERROR ("Signature file not found: " +:+ signature_path);;
              mret false
            else
              result ← verify_file cfg log_path signature_path;
              (if result : bool then
                 logger INFO ("Verification successful: The log file "
                   +:+ path_name log_path +:+ " is authentic and unmodified")
               else
                 logger ERROR ("Verification failed: The log file "
                   +:+ path_name log_path +:+ " may have been tampered with"));;
              mret result
        end
  end.
End verify_logs.

(** Truth value of an [Optional[str]] ([if not hash_value]). *)
Definition truthy_opt_str (v : option string) : bool :=
  match v with
  | Some s => negb (bool_decide (s = ""))
  | None => false
  end.

(** ** Strings

    A Python [str] is modelled by a [string] whose characters are the code
    points below 256. *)

(** [str.lower()] on one code point: A-Z and the Latin-1 capitals. *)
Definition lower_char (c : ascii) : ascii :=
  let n := nat_of_ascii c in
  if ((65 <=? n) && (n <=? 90)) || ((192 <=? n) && (n <=? 222) && negb (n =? 215))
  then ascii_of_nat (n + 32) else c.

Fixpoint lower (s : string) : string :=
  match s with
  | EmptyString => EmptyString
  | String c r => String (lower_char c) (lower r)
  end.

(** [needle in hay] *)
Fixpoint contains (needle hay : string) : bool :=
  String.prefix needle hay ||
  match hay with
  | EmptyString => false
  | String _ r => contains needle r
  end.

(** [any(sensitive in k.lower() for sensitive in sensitive_keys)] *)
Definition is_sensitive (sensitive_keys : list string) (k : string) : bool :=
  existsb (λ sensitive, contains sensitive (lower k)) sensitive_keys.

Definition REDACTED : string := "[REDACTED]".

(** ** JSON-like data

    Immutable view of the data handed to the logger: a dict is its items
    in insertion order, with distinct keys. *)

Inductive json :=
  | JNone
  | JBool (b : bool)
  | JInt (n : Z)
  | JStr (s : string)
  | JDict (items : list (string * json))
  | JList (elems : list json).

(** *** [json.dumps] with its defaults ([ensure_ascii=True], separators
    [", "] and [": "]) *)

Definition hex_digit (n : nat) : ascii :=
  match n with
  | 0 => "0" | 1 => "1" | 2 => "2" | 3 => "3" | 4 => "4" | 5 => "5" | 6 => "6"
  | 7 => "7" | 8 => "8" | 9 => "9" | 10 => "a" | 11 => "b" | 12 => "c"
  | 13 => "d" | 14 => "e" | _ => "f"
  end%char.

Definition dquote : ascii := "034"%char.

(** One character inside a JSON string: everything outside [' '..'~'], the
    quote and the backslash are escaped. *)
Definition escape_char (c : ascii) : string :=
  let n := nat_of_ascii c in
  if n =? 34 then String "\" (String dquote "") else
  if n =? 92 then "\\" else
  if n =? 10 then "\n" else
  if n =? 13 then "\r" else
  if n =? 9 then "\t" else
  if n =? 8 then "\b" else
  if n =? 12 then "\f" else
  if (32 <=? n) && (n <=? 126) then String c "" else
  "\u00" +:+ String (hex_digit (n / 16)) (String (hex_digit (n mod 16)) "").

Fixpoint escape (s : string) : string :=
  match s with
  | EmptyString => EmptyString
  | String c r => escape_char c +:+ escape r
  end.

Definition dumps_str (s : string) : string :=
  String dquote (escape s) +:+ String dquote "".

(** [", ".join(parts)] *)
Fixpoint join (parts : list string) : string :=
  match parts with
  | [] => ""
  | [x] => x
  | x :: rest => x +:+ ", " +:+ join rest
  end.

Fixpoint json_dumps (j : json) : string :=
  match j with
  | JNone => "null"
  | JBool true => "true"
  | JBool false => "false"
  | JInt n => NilZero.string_of_int (Z.to_int n)
  | JStr s => dumps_str s
  | JDict items =>
      "{" +:+ join ((fix items_dumps (l : list (string * json)) : list string :=
                       match l with
                       | [] => []
                       | (k, v) :: r => (dumps_str k +:+ ": " +:+ json_dumps v) :: items_dumps r
                       end) items) +:+ "}"
  | JList elems =>
      "[" +:+ join ((fix elems_dumps (l : list json) : list string :=
                       match l with
                       | [] => []
                       | v :: r => json_dumps v :: elems_dumps r
                       end) elems) +:+ "]"
  end.

(** ** Python objects in a store

    Dicts and lists are mutable and shared by reference: a slot holds a
    scalar or the location of an object. *)

Definition loc := nat.

Inductive value :=
  | VNone
  | VBool (b : bool)
  | VInt (n : Z)
  | VStr (s : string)
  | VRef (l : loc).

Inductive object :=
  | ODict (items : list (string * value))
  | OList (elems : list value).

Abbreviation heap := (gmap loc object).

(** [d[k] = v] on the items of a dict: in place when [k] is present. *)
Fixpoint setitem (k : string) (v : value) (items : list (string * value))
    : list (string * value) :=
  match items with
  | [] => [(k, v)]
  | (k', v') :: r => if decide (k' = k) then (k, v) :: r else (k', v') :: setitem k v r
  end.

(** Allocation of a new object. *)
Definition alloc (o : object) (h : heap) : loc * heap :=
  let l := fresh (dom h) in (l, <[l := o]> h).

(** [bool(v)] *)
Definition truthy (h : heap) (v : value) : bool :=
  match v with
  | VNone => false
  | VBool b => b
  | VInt n => negb (n =? 0)%Z
  | VStr s => negb (bool_decide (s = ""))
  | VRef l =>
      match h !! l with
      | Some (ODict items) => negb (bool_decide (items = []))
      | Some (OList elems) => negb (bool_decide (elems = []))
      | None => false
      end
  end.

Definition RecursionError : exn :=
  Exn "RecursionError" "maximum recursion depth exceeded".

(** The store built for a tree: every dict and list gets an object of its
    own, children before their parent. *)
Definition store_items (rec : json → heap → value * heap)
    : list (string * json) → heap → list (string * value) * heap :=
  fix go l h :=
    match l with
    | [] => ([], h)
    | (k, j) :: r =>
        let '(v, h1) := rec j h in
        let '(vs, h2) := go r h1 in
        ((k, v) :: vs, h2)
    end.

Definition store_elems (rec : json → heap → value * heap)
    : list json → heap → list value * heap :=
  fix go l h :=
    match l with
    | [] => ([], h)
    | j :: r =>
        let '(v, h1) := rec j h in
        let '(vs, h2) := go r h1 in
        (v :: vs, h2)
    end.

Fixpoint store_json (j : json) (h : heap) : value * heap :=
  match j with
  | JNone => (VNone, h)
  | JBool b => (VBool b, h)
  | JInt n => (VInt n, h)
  | JStr s => (VStr s, h)
  | JDict items =>
      let '(vs, h1) := store_items store_json items h in
      let '(l, h2) := alloc (ODict vs) h1 in (VRef l, h2)
  | JList elems =>
      let '(vs, h1) := store_elems store_json elems h in
      let '(l, h2) := alloc (OList vs) h1 in (VRef l, h2)
  end.

(** The tree read back from a store, down to depth [fuel]. *)
Fixpoint load_json (fuel : nat) (h : heap) (v : value) : option json :=
  match fuel with
  | 0 => None
  | S fuel =>
      match v with
      | VNone => Some JNone
      | VBool b => Some (JBool b)
      | VInt n => Some (JInt n)
      | VStr s => Some (JStr s)
      | VRef l =>
          match h !! l with
          | Some (ODict items) =>
              JDict <$> mapM (λ '(k, v), pair k <$> load_json fuel h v) items
          | Some (OList elems) =>
              JList <$> mapM (load_json fuel h) elems
          | None => None
          end
      end
  end.

(** ** Key generation, hashing, archiving and the daily pipeline *)

Module AuditTrail.
Section AuditTrail.
Context {C : Crypto}.
Variable cfg : Config.

(** [generate_keys] of [audit_trail.py]. [generated] is what
    [rsa.generate_private_key(public_exponent=65537, key_size=2048)]
    answers in this call. *)
Definition generate_keys (generated : outcome PrivKey) : M (bool * string) :=
  let private_key_path := get_private_key_path cfg in
  let public_key_path := get_public_key_path cfg in
  b1 ← path_exists private_key_path;
  b2 ← path_exists public_key_path;
  if b1 && b2 then mret (true, "Keys already exist")
  else
    try_except
      (private_key ← lift generated;
       private_key_bytes ← lift (private_bytes private_key);
       let public_key := public_key_of private_key in
       public_key_bytes ← lift (public_bytes public_key);
       write_bytes private_key_path private_key_bytes;;
       write_bytes public_key_path public_key_bytes;;
       mret (true, "Keys generated successfully"))
      (λ e, mret (false, "Error generating keys: " +:+ exn_msg e)).

(** [calculate_sha256]: the digest of the 4096-byte blocks fed in order to
    one [hashlib.sha256()] object is the digest of the file's bytes. *)
Definition calculate_sha256 (filepath : string) : M (option string) :=
  b ← path_exists filepath;
  if negb b then
    logger ERROR ("File not found for hashing: " +:+ filepath);; mret None
  else
    try_except
      (data ← read_bytes filepath; mret (Some (sha256_hexdigest data)))
      (λ e, logger ERROR ("Error calculating hash for " +:+ filepath +:+ ": "
                          +:+ exn_msg e);;
            mret None).

Definition save_hash (hash_value hash_filepath : string) : M bool :=
  try_except
    (write_bytes hash_filepath hash_value;;
     logger INFO ("SHA-256 hash saved to: " +:+ hash_filepath);;
     mret true)
    (λ e, logger ERROR ("Error saving hash to " +:+ hash_filepath +:+ ": "
                        +:+ exn_msg e);;
          mret false).

(** [StorageProcessor.upload_to_s3]; [upload_file] is the answer of the
    S3 client ([self.s3_client.upload_file]) for a local path and a key. *)
Variable upload_file : string → string → outcome unit.

Definition upload_to_s3 (local_path key_prefix : string) : M bool :=
  b ← path_exists local_path;
  if negb b then
    logger ERROR ("File not found for upload: " +:+ local_path);; mret false
  else
    try_except
      (let s3_key := S3_PREFIX cfg +:+ key_prefix +:+ path_name local_path in
       if S3_SIMULATION_MODE cfg then
         logger INFO ("SIMULATION: Would upload " +:+ local_path +:+ " to s3://"
                      +:+ S3_BUCKET_NAME cfg +:+ "/" +:+ s3_key);;
         logger INFO ("SIMULATION: Using storage class: " +:+ S3_STORAGE_CLASS cfg);;
         mret true
       else
         lift (upload_file local_path s3_key);;
         logger INFO ("Successfully uploaded " +:+ local_path +:+ " to s3://"
                      +:+ S3_BUCKET_NAME cfg +:+ "/" +:+ s3_key);;
         mret true)
      (λ e, if decide (exn_type e = "ClientError") then
              logger ERROR ("Error uploading to S3: " +:+ exn_msg e);; mret false
            else
              logger ERROR ("Unexpected error during S3 upload: " +:+ exn_msg e);;
              mret false).

(** [AuditTrailProcessor.process_daily_logs] of [audit_trail.py].
    [date_prefix] is [datetime.date.today().strftime("%Y/%m/%d/")]. The
    handlers' [flush()] changes nothing here: [logger] writes through. *)
Definition process_daily_logs (self : processor) (date_prefix : string)
    : M (bool * processor) :=
  let log_path := self_log_path self in
  let snapshot_log_path := log_path +:+ ".snapshot" in
  copy2 log_path snapshot_log_path;;
  logger INFO ("Created snapshot of log file for signing: " +:+ snapshot_log_path);;
  hash_value ← calculate_sha256 snapshot_log_path;
  if negb (truthy_opt_str hash_value) then mret (false, self) else
  let hash_path := snapshot_log_path +:+ HASH_FILE_EXTENSION cfg in
  saved ← save_hash (default "" hash_value) hash_path;
  if negb saved then mret (false, self) else
  signature_path ← sign_file cfg snapshot_log_path;
  match signature_path with
  | None => mret (false, self)
  | Some signature_path =>
      r1 ← upload_to_s3 snapshot_log_path date_prefix;
      r2 ← upload_to_s3 hash_path date_prefix;
      r3 ← upload_to_s3 signature_path date_prefix;
      let upload_results := [r1; r2; r3] in
      let self := Processor log_path (Some snapshot_log_path) (Some signature_path) in
      let success := forallb id upload_results in
      (if success then logger INFO "Log processing succeeded"
       else logger INFO "Log processing failed");;
      mret (success, self)
  end.

End AuditTrail.
(** [AuditTrailProcessor._sanitize_data] of [audit_trail.py], on the
    store. [fuel] bounds the depth of the recursion of
    [_redact_sensitive], as the interpreter's recursion limit does. *)
Definition sensitive_keys : list string :=
  ["password"; "token"; "secret"; "key"; "authorization";
   "credit_card"; "ssn"; "social_security"].

(** [obj[k] = v] for the dict at [l] *)
Definition setitem_at (l : loc) (k : string) (v : value) (h : heap) : heap :=
  match h !! l with
  | Some (ODict items) => <[l := ODict (setitem k v items)]> h
  | _ => h
  end.

(** The two loops of [_redact_sensitive]; [rec] is the recursive call. *)
Definition redact_items (rec : value → heap → outcome heap) (l : loc)
    : list (string * value) → heap → outcome heap :=
  (* for k, v in list(obj.items()) *)
  fix loop its h :=
    match its with
    | [] => Ret h
    | (k, v) :: r =>
        if is_sensitive sensitive_keys k then
          loop r (setitem_at l k (VStr REDACTED) h)
        else
          match rec v h with
          | Ret h' => loop r h'
          | Raise e => Raise e
          end
    end.

Definition redact_elems (rec : value → heap → outcome heap)
    : list value → heap → outcome heap :=
  (* for item in obj *)
  fix loop its h :=
    match its with
    | [] => Ret h
    | item :: r =>
        match rec item h with
        | Ret h' => loop r h'
        | Raise e => Raise e
        end
    end.

Fixpoint _redact_sensitive (fuel : nat) (obj : value) (h : heap) : outcome heap :=
  match fuel with
  | 0 => Raise RecursionError
  | S fuel =>
      match obj with
      | VRef l =>
          match h !! l with
          | Some (ODict items) => redact_items (_redact_sensitive fuel) l items h
          | Some (OList elems) => redact_elems (_redact_sensitive fuel) elems h
          | None => Ret h
          end
      | _ => Ret h
      end
  end.

(** [data.copy()]: a new object with the same slots (a shallow copy) *)
Definition copy (data : value) (h : heap) : outcome (loc * heap) :=
  match data with
  | VRef l =>
      match h !! l with
      | Some o => Ret (alloc o h)
      | None => Raise (Exn "ReferenceError" "dangling reference")
      end
  | VNone => Raise (Exn "AttributeError" "'NoneType' object has no attribute 'copy'")
  | VBool _ => Raise (Exn "AttributeError" "'bool' object has no attribute 'copy'")
  | VInt _ => Raise (Exn "AttributeError" "'int' object has no attribute 'copy'")
  | VStr _ => Raise (Exn "AttributeError" "'str' object has no attribute 'copy'")
  end.

Definition _sanitize_data (fuel : nat) (data : value) (h : heap)
    : outcome (value * heap) :=
  (* sanitized = data.copy() if data else {} *)
  match (if truthy h data then copy data h else Ret (alloc (ODict []) h)) with
  | Raise e => Raise e
  | Ret (sanitized, h) =>
      match _redact_sensitive fuel (VRef sanitized) h with
      | Ret h => Ret (VRef sanitized, h)
      | Raise e => Raise e
      end
  end.

(** What [_sanitize_data] computes, read as a tree: the result, and the
    argument as the call leaves it. *)
Fixpoint redacted (j : json) : json :=
  match j with
  | JDict items =>
      JDict (map (λ '(k, v), (k, if is_sensitive sensitive_keys k then JStr REDACTED
                                 else redacted v)) items)
  | JList elems => JList (map redacted elems)
  | _ => j
  end.

(** The argument after the call: its own slots are untouched, but the
    objects below its non-sensitive keys are the ones the copy shares, and
    those have been redacted in place. *)
Definition after_items (jitems : list (string * json)) : list (string * json) :=
  map (λ '(k, v), (k, if is_sensitive sensitive_keys k then v else redacted v)) jitems.

Definition argument_after (j : json) : json :=
  match j with
  | JDict items => JDict (after_items items)
  | JList elems => JList (map redacted elems)
  | _ => j
  end.

(** The slots of a dict once its own loop has run. *)
Definition redact_slots (items : list (string * value)) : list (string * value) :=
  map (λ '(k, v), (k, if is_sensitive sensitive_keys k then VStr REDACTED else v)) items.

(** [AuditLogger.__init__] with [_setup_file_handler]: every
    [FileHandler] is taken off the root logger, a new one for [log_path]
    is put on. The argument and the result are the files of the
    [FileHandler]s that records of the ['audit_trail'] logger reach. *)
Definition _setup_file_handler (log_path : string) (handlers : list string)
    : list string :=
  [log_path].

(** [finalize_log] *)
Definition finalize_log (log_path : string) (handlers : list string) : list string :=
  filter (λ p, p ≠ log_path) handlers.

(** ['%(asctime)s - %(levelname)s - %(message)s'] for an INFO record *)
Definition format_record (asctime message : string) : string :=
  asctime +:+ " - " +:+ "INFO" +:+ " - " +:+ message.

(** [log_event]. [event_id] is [str(uuid.uuid4())], [timestamp] is
    [datetime.now(timezone.utc).isoformat()] and [asctime] the time the
    formatter prints, all three as this call obtains them. *)
Definition event_data (event_id timestamp event_type : string) (details : json)
    (user_id : option string) : json :=
  let event_data :=
    [("event_id", JStr event_id); ("timestamp", JStr timestamp);
     ("event_type", JStr event_type); ("details", details)] in
  match user_id with
  | Some u => if bool_decide (u = "") then JDict event_data
              else JDict (event_data ++ [("user_id", JStr u)])
  | None => JDict event_data
  end.

Definition log_event (handlers : list string)
    (event_id timestamp asctime : string)
    (event_type : string) (details : json) (user_id : option string) : M string :=
  let message :=
    "AUDIT: " +:+ json_dumps (event_data event_id timestamp event_type details user_id) in
  logger INFO message;;
  mapM (λ p, append_text p (format_record asctime message +:+ newline)) handlers;;
  mret event_id.

End AuditTrail.

Module LogCollector.

Definition sensitive_fields : list string :=
  ["password"; "token"; "api_key"; "secret"; "credential"].

(** [AuditLogger._sanitize_data] of [log_collector.py]: reads [data],
    builds new dicts and writes to nothing it was given. *)
Fixpoint _sanitize_data (data : json) : json :=
  match data with
  | JDict items =>
      JDict (map (λ '(key, value),
                    (key, match value with
                          | JDict _ => _sanitize_data value
                          | _ => if is_sensitive sensitive_fields key
                                 then JStr REDACTED else value
                          end)) items)
  | _ => data
  end.

(** [AuditLogger.__init__] with [_setup_file_handler]: one more
    [FileHandler] on the ['audit_trail'] logger. *)
Definition _setup_file_handler (log_path : string) (handlers : list string)
    : list string :=
  handlers ++ [log_path].

(** [LOG_FORMAT] for an INFO record of the ['audit_trail'] logger *)
Definition format_record (asctime message : string) : string :=
  asctime +:+ " - " +:+ "audit_trail" +:+ " - " +:+ "INFO" +:+ " - " +:+ message.

Definition log_entry (event_id timestamp event_type : string) (details : json)
    (user_id : option string) : json :=
  JDict [("event_id", JStr event_id); ("timestamp", JStr timestamp);
         ("event_type", JStr event_type); ("details", details);
         ("user_id", match user_id with Some u => JStr u | None => JNone end)].

Definition log_event (handlers : list string)
    (event_id timestamp asctime : string)
    (event_type : string) (details : json) (user_id : option string) : M string :=
  let message :=
    "AUDIT: " +:+ json_dumps (log_entry event_id timestamp event_type details user_id) in
  logger INFO message;;
  mapM (λ p, append_text p (format_record asctime message +:+ newline)) handlers;;
  mret event_id.

End LogCollector.

Module LogSigner.
Section LogSigner.
Context {C : Crypto}.
Variable cfg : Config.

(** [generate_keys] of [log_signer.py]: no test for existing key files. *)
Definition generate_keys (generated : outcome PrivKey) : M (bool * string) :=
  try_except
    (private_key ← lift generated;
     let public_key := public_key_of private_key in
     private_pem ← lift (private_bytes private_key);
     public_pem ← lift (public_bytes public_key);
     write_bytes (get_private_key_path cfg) private_pem;;
     write_bytes (get_public_key_path cfg) public_pem;;
     mret (true, "Keys generated successfully."))
    (λ e, mret (false, "Error generating keys: " +:+ exn_msg e)).

Definition calculate_sha256 (file_path : string) : M (option string) :=
  try_except
    (b ← path_exists file_path;
     if negb b then
       logger ERROR ("File not found for hashing: " +:+ file_path);; mret None
     else
       data ← read_bytes file_path; mret (Some (sha256_hexdigest data)))
    (λ e, logger ERROR ("Error calculating hash: " +:+ exn_msg e);; mret None).

Definition save_hash (hash_value hash_path : string) : M bool :=
  try_except
    (write_bytes hash_path hash_value;;
     logger INFO ("SHA-256 hash saved to: " +:+ hash_path);;
     mret true)
    (λ e, logger ERROR ("Error saving hash: " +:+ exn_msg e);; mret false).

(** [AuditTrailProcessor.process_daily_logs] of [log_signer.py]: the
    pipeline ends after signing; nothing is uploaded. *)
Definition process_daily_logs (self : processor) : M (bool * processor) :=
  let log_path := self_log_path self in
  let snapshot_log_path := log_path +:+ ".snapshot" in
  copy2 log_path snapshot_log_path;;
  logger INFO ("Created snapshot of log file for signing: " +:+ snapshot_log_path);;
  hash_value ← calculate_sha256 snapshot_log_path;
  if negb (truthy_opt_str hash_value) then mret (false, self) else
  let hash_path := snapshot_log_path +:+ HASH_FILE_EXTENSION cfg in
  saved ← save_hash (default "" hash_value) hash_path;
  if negb saved then mret (false, self) else
  signature_path ← sign_file cfg snapshot_log_path;
  match signature_path with
  | None => mret (false, self)
  | Some signature_path =>
      let self := Processor log_path (Some snapshot_log_path) (Some signature_path) in
      let success := true in
      (if success then logger INFO "Log processing succeeded"
       else logger INFO "Log processing failed");;
      mret (success, self)
  end.

End LogSigner.

(** [AuditTrailProcessor.log_api_event] of [log_signer.py]; [handlers],
    [event_id], [timestamp] and [asctime] as for [log_event]. *)
Definition log_api_event (handlers : list string)
    (event_id timestamp asctime : string)
    (api_endpoint user_id : string) (request_data response_data : json)
    (status_code : Z) : M string :=
  let details :=
    JDict [("api_endpoint", JStr api_endpoint);
           ("request_data", LogCollector._sanitize_data request_data);
           ("response_status", JInt status_code);
           ("response_data", LogCollector._sanitize_data response_data)] in
  LogCollector.log_event handlers event_id timestamp asctime
    "api_request" details (Some user_id).

End LogSigner.

(** ** What the pipeline expects of the primitives *)

(** The signature primitive seen as an ideal one (PKCS#1 v1.5 is
    deterministic: one valid signature per key and message; the digest is
    taken to be collision-free). *)
Class IdealSignature (C : Crypto) : Prop := {
  verify_sign : ∀ sk m s,
    rsa_sign sk m = Ret s → rsa_verify (public_key_of sk) s m = Ret tt;
  verify_signed : ∀ sk m s,
    rsa_verify (public_key_of sk) s m = Ret tt → rsa_sign sk m = Ret s;
  sign_inj : ∀ sk m m' s,
    rsa_sign sk m = Ret s → rsa_sign sk m' = Ret s → m = m'
}.

(** A symbolic instance of the primitives: a key is its name, the signature
    of [m] under [sk] is the pair of both, a PEM file holds the name. *)
Definition symbolic_sign (sk m : string) : string := sk +:+ ":" +:+ m.

Definition symbolic_crypto : Crypto := {|
  PrivKey := string;
  PubKey := string;
  public_key_of := λ sk, sk;
  private_bytes := λ sk, Ret sk;
  public_bytes := λ pk, Ret pk;
  load_pem_private_key := λ data, Ret data;
  load_pem_public_key := λ data, Ret data;
  rsa_sign := λ sk m, Ret (symbolic_sign sk m);
  rsa_verify := λ pk s m,
    if decide (s = symbolic_sign pk m) then Ret tt
    else Raise (Exn InvalidSignature "");
  sha256_hexdigest := λ _,
    "e3b0c44298fc1c149afbf4c8996fb92427ae41e4649b934ca495991b7852b855"
|}.

(** The same primitives with a verifier that rejects every signature: what
    a defect in the crypto layer looks like to [sign_file]. *)
Definition rejecting_crypto : Crypto := {|
  PrivKey := string;
  PubKey := string;
  public_key_of := λ sk, sk;
  private_bytes := λ sk, Ret sk;
  public_bytes := λ pk, Ret pk;
  load_pem_private_key := λ data, Ret data;
  load_pem_public_key := λ data, Ret data;
  rsa_sign := λ sk m, Ret (symbolic_sign sk m);
  rsa_verify := λ pk s m, Raise (Exn InvalidSignature "Signature did not match digest.");
  sha256_hexdigest := λ _,
    "e3b0c44298fc1c149afbf4c8996fb92427ae41e4649b934ca495991b7852b855"
|}.

(** The log record that closes [sign_file]'s immediate verification. *)
Definition self_verification_record (verification_result : bool) : level * string :=
  if verification_result then
    (INFO, "Immediate verification after signing: SUCCESS")
  else
    (WARNING, "Immediate verification after signing: FAILED - Check cryptographic implementation").

(** A world for examples: one snapshot and the two key files. *)
Definition example_world : world := {|
  fs := {[ "logs/api_log_2024-05-01.log.snapshot" := File "AUDIT: {}";
           "keys/private_key.pem" := File "k1";
           "keys/public_key.pem" := File "k1" ]};
  denied := ∅;
  log := []
|}.

(** The modular package installed under [/opt/audit_trail_integrity], with
    both key files already in place. *)
Definition package_Config : Config := config_Config "/opt/audit_trail_integrity".

Definition package_world : world := {|
  fs := {[ "/opt/audit_trail_integrity/logs/api_log_2024-05-01.log" := File "AUDIT: {}";
           "/opt/audit_trail_integrity/keys/private_key.pem" := File "k1";
           "/opt/audit_trail_integrity/keys/public_key.pem" := File "k1" ]};
  denied := ∅;
  log := []
|}.

(** [upload_to_s3] answers [True] for a file in this state of the world. *)
Definition uploaded (cfg : Config) (upload_file : string → string → outcome unit)
    (w : world) (key_prefix local_path : string) : Prop :=
  is_Some (fs w !! local_path) ∧
  (S3_SIMULATION_MODE cfg = true ∨
   upload_file local_path (S3_PREFIX cfg +:+ key_prefix +:+ path_name local_path) = Ret tt).


Definition refusing_store (local_path s3_key : string) : outcome unit :=
  Raise (Exn "ClientError" "An error occurred (AccessDenied) when calling the PutObject operation").

Definition live_world : world := {|
  fs := {[ "logs/api_log_2024-05-01.log" := File "AUDIT: {}";
           "keys/private_key.pem" := File "k1";
           "keys/public_key.pem" := File "k1" ]};
  denied := ∅;
  log := []
|}.

(** Last character of a string, to tell paths apart by their extension. *)
Fixpoint string_last (s : string) : option ascii :=
  match s with
  | EmptyString => None
  | String c EmptyString => Some c
  | String _ r => string_last r
  end.

(** Structural induction on [json], through the lists of children. *)
Section json_induction.
Variable P : json → Prop.
Hypothesis HNone : P JNone.
Hypothesis HBool : ∀ b, P (JBool b).
Hypothesis HInt : ∀ n, P (JInt n).
Hypothesis HStr : ∀ s, P (JStr s).
Hypothesis HDict : ∀ items, Forall (λ kv, P kv.2) items → P (JDict items).
Hypothesis HList : ∀ elems, Forall P elems → P (JList elems).

Fixpoint json_induction (j : json) : P j :=
  match j with
  | JNone => HNone
  | JBool b => HBool b
  | JInt n => HInt n
  | JStr s => HStr s
  | JDict items =>
      HDict items
        ((fix go (l : list (string * json)) : Forall (λ kv, P kv.2) l :=
            match l with
            | [] => List.Forall_nil _
            | kv :: r => List.Forall_cons _ kv r (json_induction kv.2) (go r)
            end) items)
  | JList elems =>
      HList elems
        ((fix go (l : list json) : Forall P l :=
            match l with
            | [] => List.Forall_nil _
            | v :: r => List.Forall_cons _ v r (json_induction v) (go r)
            end) elems)
  end.
End json_induction.

(** Every character of [s] satisfies [p]. *)
Fixpoint all_chars (p : ascii → bool) (s : string) : bool :=
  match s with
  | EmptyString => true
  | String c r => p c && all_chars p r
  end.


(** The content of a file, empty when there is none. *)
Definition file_text (w : world) (p : string) : string :=
  match fs w !! p with
  | Some (File c) => c
  | _ => ""
  end.

(** A day's log file, still empty, with its one [FileHandler]. *)
Definition daily_log : string := "logs/api_log_2024-05-01.log".

Definition daily_world : world := {|
  fs := {[ daily_log := File "" ]};
  denied := ∅;
  log := []
|}.

(** ** Trees in the store *)

(** Nesting depth: what [_redact_sensitive] needs as recursion depth. *)
Fixpoint json_depth (j : json) : nat :=
  match j with
  | JDict items => S (foldr (λ '(_, v) d, json_depth v `max` d) 0 items)
  | JList elems => S (foldr (λ v d, json_depth v `max` d) 0 elems)
  | _ => 1
  end.

(** The keys of every dict are distinct. *)
Fixpoint distinct_keys (j : json) : Prop :=
  match j with
  | JDict items =>
      NoDup items.*1 ∧ foldr (λ '(_, v) P, distinct_keys v ∧ P) True items
  | JList elems => foldr (λ v P, distinct_keys v ∧ P) True elems
  | _ => True
  end.

(** [owns h v j fp]: in the store [h] the value [v] is the root of the tree
    [j], laid out without sharing inside the locations [fp]. *)
Inductive owns (h : heap) : value → json → gset loc → Prop :=
  | owns_none fp : owns h VNone JNone fp
  | owns_bool b fp : owns h (VBool b) (JBool b) fp
  | owns_int n fp : owns h (VInt n) (JInt n) fp
  | owns_str s fp : owns h (VStr s) (JStr s) fp
  | owns_dict l items jitems fp' fp :
      h !! l = Some (ODict items) →
      NoDup items.*1 →
      owns_items h items jitems fp' →
      l ∉ fp' → {[l]} ∪ fp' ⊆ fp →
      owns h (VRef l) (JDict jitems) fp
  | owns_list l elems jelems fp' fp :
      h !! l = Some (OList elems) →
      owns_elems h elems jelems fp' →
      l ∉ fp' → {[l]} ∪ fp' ⊆ fp →
      owns h (VRef l) (JList jelems) fp
with owns_items (h : heap)
    : list (string * value) → list (string * json) → gset loc → Prop :=
  | owns_items_nil fp : owns_items h [] [] fp
  | owns_items_cons k v j items jitems fp1 fp2 fp :
      owns h v j fp1 → owns_items h items jitems fp2 →
      fp1 ## fp2 → fp1 ∪ fp2 ⊆ fp →
      owns_items h ((k, v) :: items) ((k, j) :: jitems) fp
with owns_elems (h : heap) : list value → list json → gset loc → Prop :=
  | owns_elems_nil fp : owns_elems h [] [] fp
  | owns_elems_cons v j elems jelems fp1 fp2 fp :
      owns h v j fp1 → owns_elems h elems jelems fp2 →
      fp1 ## fp2 → fp1 ∪ fp2 ⊆ fp →
      owns_elems h (v :: elems) (j :: jelems) fp.

Scheme owns_mut := Minimality for owns Sort Prop
  with owns_items_mut := Minimality for owns_items Sort Prop
  with owns_elems_mut := Minimality for owns_elems Sort Prop.
Combined Scheme owns_mutind from owns_mut, owns_items_mut, owns_elems_mut.

Definition is_dict (j : json) : bool :=
  match j with JDict _ => true | _ => false end.

Definition is_list (j : json) : bool :=
  match j with JList _ => true | _ => false end.

(** The sensitive substrings as the specification lists them. *)
Definition spec_sensitive_substrings : list string :=
  ["password"; "token"; "secret"; "key"; "authorization"; "credit_card";
   "ssn"; "social_security"; "api_key"; "credential"].

(** ** Reading the file system *)

(** What [open(p, 'rb').read()] yields in a world. *)
Definition readable (w : world) (p content : string) : Prop :=
  (p ∉ denied w) ∧ (fs w !! p = Some (File content)).

(** The key files parse as [pk], [sk]. *)
Definition public_key_loads {C : Crypto} (cfg : Config) (w : world) (pk : PubKey) : Prop :=
  ∃ data, readable w (get_public_key_path cfg) data ∧
          load_pem_public_key data = Ret pk.

Definition private_key_loads {C : Crypto} (cfg : Config) (w : world) (sk : PrivKey) : Prop :=
  ∃ data, readable w (get_private_key_path cfg) data ∧
          load_pem_private_key data = Ret sk.

(** ** The paths [verify_logs] works with *)

(** [str(log_path)], [Path(log_path)] *)
Definition pathlike_str (p : pathlike) : string :=
  match p with PStr s => s | PPath p => p end.

(** A bare file name is looked up in [LOG_DIR]. *)
Definition resolved_log_path (cfg : Config) (log_path : string) : string :=
  if negb (is_absolute log_path) && (count_slash log_path =? 0)%nat
  then path_join (LOG_DIR cfg) log_path else log_path.

(** Where [verify_logs] looks for a signature it was not given. *)
Definition default_signature_path (cfg : Config) (log_path : string) : string :=
  path_join (SIGNATURES_DIR cfg) (path_name log_path +:+ SIGNATURE_FILE_EXTENSION cfg).

(** The three files of a sealed log. *)
Definition snapshot_of (self : processor) : string :=
  self_log_path self +:+ ".snapshot".
Definition hash_of (cfg : Config) (self : processor) : string :=
  snapshot_of self +:+ HASH_FILE_EXTENSION cfg.
Definition signature_of (cfg : Config) (self : processor) : string :=
  snapshot_of self +:+ SIGNATURE_FILE_EXTENSION cfg.
Definition sealed_processor (cfg : Config) (self : processor) : processor :=
  Processor (self_log_path self) (Some (snapshot_of self)) (Some (signature_of cfg self)).

(** [Path.is_dir()] *)
Definition is_dir (w : world) (p : string) : bool :=
  match fs w !! p with Some Dir => true | _ => false end.

(** What a successful run of the pipeline leaves behind: the snapshot holds
    the bytes [B] of the live log, the hash file their digest and the
    signature file the signature [S] of [B] under the stored key [sk]. *)
Definition seals `{C : Crypto} (cfg : Config) (self : processor) (w w' : world)
    (B : string) (sk : PrivKey) (S : string) : Prop :=
  readable w (self_log_path self) B ∧
  denied w' = denied w ∧
  (snapshot_of self ∉ denied w) ∧
  (signature_of cfg self ∉ denied w) ∧
  fs w' = <[signature_of cfg self := File S]>
            (<[hash_of cfg self := File (sha256_hexdigest B)]>
               (<[snapshot_of self := File B]> (fs w))) ∧
  sha256_hexdigest B ≠ "" ∧
  rsa_sign sk B = Ret S ∧
  private_key_loads cfg
    (World (<[hash_of cfg self := File (sha256_hexdigest B)]>
              (<[snapshot_of self := File B]> (fs w))) (denied w) []) sk.

(** ** Reading a file block by block *)

(** [f.read(n)] on what is left of an open binary file: the next [n]
    bytes, fewer at the end of the file, and what is left after them. *)
Fixpoint read (n : nat) (rest : string) : string * string :=
  match n, rest with
  | S n, String c r => let '(block, rest) := read n r in (String c block, rest)
  | _, _ => ("", rest)
  end.

(** [for byte_block in iter(lambda: f.read(size), b""):
         sha256_hash.update(byte_block)]:
    what the hash object has been fed when the loop ends (a [hashlib]
    object digests the concatenation of its updates). [fuel] bounds the
    number of reads. *)
Fixpoint update_blocks (size fuel : nat) (rest fed : string) : option string :=
  match fuel with
  | 0 => None
  | S fuel =>
      let '(byte_block, rest) := read size rest in
      if bool_decide (byte_block = "") then Some fed
      else update_blocks size fuel rest (fed +:+ byte_block)
  end.

(** The digest [calculate_sha256] returns for a file that holds [content]. *)
Definition hexdigest_of_blocks `{C : Crypto} (fuel : nat) (content : string)
    : option string :=
  sha256_hexdigest <$> update_blocks 4096 fuel content "".

(** ** Integers and dates of the interpreter *)

(** [str(n)] *)
Definition str_int (n : Z) : string := NilZero.string_of_int (Z.to_int n).

(** The blanks that [int] skips around a literal: ASCII white space and,
    above it, the characters that are spaces for [str.isspace] *)
Definition int_blank (c : ascii) : bool :=
  let n := nat_of_ascii c in
  ((9 <=? n) && (n <=? 13)) || (n =? 32) || (n =? 133) || (n =? 160).

Fixpoint lstrip (s : string) : string :=
  match s with
  | String c r => if int_blank c then lstrip r else s
  | EmptyString => EmptyString
  end.

Fixpoint rstrip (s : string) : string :=
  match s with
  | String c r =>
      match rstrip r with
      | EmptyString => if int_blank c then EmptyString else String c EmptyString
      | r => String c r
      end
  | EmptyString => EmptyString
  end.

Definition strip (s : string) : string := rstrip (lstrip s).

(** The characters ['0'] to ['9'] *)
Definition is_digit (c : ascii) : bool :=
  (48 <=? nat_of_ascii c) && (nat_of_ascii c <=? 57).

Definition digit_value (c : ascii) : option Z :=
  let n := nat_of_ascii c in
  if (48 <=? n) && (n <=? 57) then Some (Z.of_nat (n - 48)) else None.

(** Decimal digits, single underscores allowed between two digits. *)
Fixpoint digits_value (acc : Z) (after_digit : bool) (s : string) : option Z :=
  match s with
  | EmptyString => if after_digit then Some acc else None
  | String c r =>
      match digit_value c with
      | Some d => digits_value (10 * acc + d) true r
      | None =>
          if bool_decide (c = "_"%char) && after_digit
          then digits_value acc false r else None
      end
  end.

(** [int(s)] for a [str] (of at most 4300 digits): blanks around, an
    optional sign, decimal digits. *)
Definition py_int (s : string) : outcome Z :=
  let literal := strip s in
  let value :=
    match literal with
    | String "+" r => digits_value 0 false r
    | String "-" r => Z.opp <$> digits_value 0 false r
    | _ => digits_value 0 false literal
    end in
  match value with
  | Some n => Ret n
  | None => Raise (Exn "ValueError" ("invalid literal for int() with base 10: " +:+ s))
  end.

(** A [datetime.date] *)
Record date := Date { year : Z; month : Z; day : Z }.

Definition is_leap (y : Z) : bool :=
  ((y mod 4 =? 0) && negb (y mod 100 =? 0) || (y mod 400 =? 0))%Z.

Definition days_in_month (y m : Z) : Z :=
  if (m =? 2)%Z then (if is_leap y then 29 else 28)
  else if (m =? 4)%Z || (m =? 6)%Z || (m =? 9)%Z || (m =? 11)%Z then 30
  else 31.

(** An argument that CPython converts to a C [int] *)
Definition as_c_int (n : Z) : outcome Z :=
  if ((n <? - 2 ^ 63) || (2 ^ 63 - 1 <? n))%Z then
    Raise (Exn "OverflowError" "Python int too large to convert to C long")
  else if (2 ^ 31 - 1 <? n)%Z then
    Raise (Exn "OverflowError" "signed integer is greater than maximum")
  else if (n <? - 2 ^ 31)%Z then
    Raise (Exn "OverflowError" "signed integer is less than minimum")
  else Ret n.

(** [datetime.date(year, month, day)] (CPython) *)
Definition date_new (y m d : Z) : outcome date :=
  match as_c_int y with Raise e => Raise e | Ret y =>
  match as_c_int m with Raise e => Raise e | Ret m =>
  match as_c_int d with Raise e => Raise e | Ret d =>
  if ((y <? 1) || (9999 <? y))%Z then
    Raise (Exn "ValueError" ("year " +:+ str_int y +:+ " is out of range"))
  else if ((m <? 1) || (12 <? m))%Z then
    Raise (Exn "ValueError" "month must be in 1..12")
  else if ((d <? 1) || (days_in_month y m <? d))%Z then
    Raise (Exn "ValueError" "day is out of range for month")
  else Ret (Date y m d)
  end end end.

(** The dates that [datetime.date] accepts *)
Definition valid_date (d : date) : bool :=
  ((1 <=? year d) && (year d <=? 9999) && (1 <=? month d) && (month d <=? 12) &&
   (1 <=? day d) && (day d <=? days_in_month (year d) (month d)))%Z.

(** [a <= b] on dates *)
Definition date_le (a b : date) : bool :=
  ((year a <? year b) ||
   ((year a =? year b) &&
    ((month a <? month b) || ((month a =? month b) && (day a <=? day b)))))%Z.

(** Zero padding of ["%02d"], ["%04d"] for a number that is not negative *)
Definition zfill (width : nat) (n : Z) : string :=
  let digits := str_int n in
  String.concat "" (replicate (width - String.length digits) "0") +:+ digits.

(** [str(d)], [d.isoformat()] *)
Definition isoformat (d : date) : string :=
  zfill 4 (year d) +:+ "-" +:+ zfill 2 (month d) +:+ "-" +:+ zfill 2 (day d).

(** [d.strftime("%Y/%m/%d/")], the key prefix of [process_daily_logs]
    ([%Y] has four digits from the year 1000 on) *)
Definition date_prefix (d : date) : string :=
  str_int (year d) +:+ "/" +:+ zfill 2 (month d) +:+ "/" +:+ zfill 2 (day d) +:+ "/".

(** [s.split(sep)] for a separator of one character *)
Fixpoint split_go (sep : ascii) (cur s : string) : list string :=
  match s with
  | EmptyString => [cur]
  | String c r =>
      if decide (c = sep) then cur :: split_go sep "" r
      else split_go sep (cur +:+ String c "") r
  end.

Definition split (sep : ascii) (s : string) : list string := split_go sep "" s.

(** ** [s3_uploader.py] *)

Module S3Uploader.

(** What the calls on a [boto3] S3 client answer in this state of the
    bucket. *)
Record S3Client := {
  (** [upload_file(Filename, Bucket, Key, ExtraArgs)] *)
  upload_file : string → string → string → outcome unit;
  (** [list_objects_v2(Bucket, Prefix)]: the ['Key'] of every entry of
      ['Contents'] *)
  list_objects_v2 : string → string → outcome (list string)
}.

(** The attributes of a [StorageProcessor]; [s3_client] is [None] when
    [boto3.client('s3')] raised. *)
Record StorageProcessor := {
  simulate : bool;
  s3_client : option S3Client
}.

Section S3Uploader.
Variable cfg : Config.

Definition _get_s3_client (created : outcome S3Client) : M (option S3Client) :=
  try_except
    (client ← lift created; mret (Some client))
    (λ e, logger ERROR ("Error creating S3 client: " +:+ exn_msg e);; mret None).

(** [StorageProcessor(simulate)]; [created] is what [boto3.client('s3')]
    answers. *)
Definition __init__ (simulate : bool) (created : outcome S3Client)
    : M StorageProcessor :=
  client ← _get_s3_client created;
  mret {| simulate := simulate; s3_client := client |}.

(** [f"{Config.S3_PREFIX}/{date_prefix}{file_path.name}"] *)
Definition s3_key (date_prefix file_name : string) : string :=
  S3_PREFIX cfg +:+ "/" +:+ date_prefix +:+ file_name.

Definition upload_to_s3 (self : StorageProcessor) (file_path : pathlike)
    (date_prefix : string) : M bool :=
  let file_path := pathlike_str file_path in
  b ← path_exists file_path;
  if negb b then
    logger ERROR ("File not found for upload: " +:+ file_path);; mret false
  else
    let s3_key := s3_key date_prefix (path_name file_path) in
    if simulate self then
      logger INFO ("SIMULATION: Would upload " +:+ file_path +:+ " to s3://"
                   +:+ S3_BUCKET_NAME cfg +:+ "/" +:+ s3_key);;
      logger INFO ("SIMULATION: Using storage class: " +:+ S3_STORAGE_CLASS cfg);;
      mret true
    else
      try_except_cls "ClientError"
        (match s3_client self with
         | None => attribute_error "NoneType" "upload_file"
         | Some client => lift (upload_file client file_path (S3_BUCKET_NAME cfg) s3_key)
         end;;
         logger INFO ("Uploaded " +:+ file_path +:+ " to s3://"
                      +:+ S3_BUCKET_NAME cfg +:+ "/" +:+ s3_key);;
         mret true)
        (λ e, logger ERROR ("Error uploading to S3: " +:+ exn_msg e);; mret false).

(** The body of the loop of [list_logs_for_date_range] for one key:
    whether the key is appended to [matching_keys]. *)
Definition key_matches (start_date end_date : date) (key : string) : outcome bool :=
  let key_parts := split "/" key in
  if (4 <=? length key_parts)%nat then
    let caught (e : exn) : outcome bool :=
      (* except (ValueError, IndexError): continue *)
      if bool_decide (exn_type e = "ValueError") || bool_decide (exn_type e = "IndexError")
      then Ret false else Raise e in
    match py_int (key_parts !!! 1%nat) with Raise e => caught e | Ret year =>
    match py_int (key_parts !!! 2%nat) with Raise e => caught e | Ret month =>
    match py_int (key_parts !!! 3%nat) with Raise e => caught e | Ret day =>
    match date_new year month day with Raise e => caught e | Ret log_date =>
    Ret (date_le start_date log_date && date_le log_date end_date)
    end end end end
  else Ret false.

(** [for obj in response.get('Contents', [])] *)
Fixpoint matching_keys (start_date end_date : date) (keys : list string)
    : outcome (list string) :=
  match keys with
  | [] => Ret []
  | key :: keys =>
      match key_matches start_date end_date key with
      | Raise e => Raise e
      | Ret matches =>
          match matching_keys start_date end_date keys with
          | Raise e => Raise e
          | Ret found => Ret (if matches then key :: found else found)
          end
      end
  end.

Definition list_logs_for_date_range (self : StorageProcessor)
    (start_date end_date : date) : M (list string) :=
  if simulate self then
    logger INFO ("SIMULATION: Would list logs from " +:+ isoformat start_date
                 +:+ " to " +:+ isoformat end_date);;
    mret []
  else
    try_except_cls "ClientError"
      (let prefix := S3_PREFIX cfg +:+ "/" in
       contents ←
         match s3_client self with
         | None => attribute_error "NoneType" "list_objects_v2"
         | Some client => lift (list_objects_v2 client (S3_BUCKET_NAME cfg) prefix)
         end;
       lift (matching_keys start_date end_date contents))
      (λ e, logger ERROR ("Error listing logs from S3: " +:+ exn_msg e);; mret []).

End S3Uploader.
End S3Uploader.

(** A key that does not carry a date where [list_logs_for_date_range]
    reads one: fewer than four segments, or a segment that [int] refuses. *)
Definition foreign_key (key : string) : Prop :=
  let key_parts := split "/" key in
  length key_parts < 4 ∨
  ∃ i e, 1 ≤ i ≤ 3 ∧ py_int (key_parts !!! i) = Raise e.

(** A bucket that holds two sealed snapshots. *)
Definition example_client : S3Uploader.S3Client := {|
  S3Uploader.upload_file := λ _ _ _, Ret tt;
  S3Uploader.list_objects_v2 := λ _ _,
    Ret ["audit-logs/2024/05/01/api_log_2024-05-01.log.snapshot";
         "audit-logs/2024/06/15/api_log_2024-06-15.log.snapshot"]
|}.

(** The same bucket with a key that another tool has put there. *)
Definition example_client_with_readme : S3Uploader.S3Client := {|
  S3Uploader.upload_file := λ _ _ _, Ret tt;
  S3Uploader.list_objects_v2 := λ _ _,
    Ret ["audit-logs/2024/05/01/api_log_2024-05-01.log.snapshot";
         "audit-logs/README.txt";
         "audit-logs/2024/06/15/api_log_2024-06-15.log.snapshot"]
|}.

(** A key whose second to fourth segments read as the date [log_date]. *)
Definition key_date (key : string) (log_date : date) : Prop :=
  ∃ p y m d rest,
    split "/" key = p :: y :: m :: d :: rest ∧
    py_int y = Ret (year log_date) ∧
    py_int m = Ret (month log_date) ∧
    py_int d = Ret (day log_date) ∧
    valid_date log_date = true.

(** ** Data that differ in their secrets only *)

(** Two trees that are the same but for what they hold under sensitive
    keys, as [_sanitize_data] of [audit_trail.py] tells them. *)
Fixpoint same_but_secrets (j1 j2 : json) : Prop :=
  match j1, j2 with
  | JDict items1, JDict items2 =>
      (fix go (l1 l2 : list (string * json)) : Prop :=
         match l1, l2 with
         | [], [] => True
         | (k1, v1) :: r1, (k2, v2) :: r2 =>
             k1 = k2 ∧
             (is_sensitive AuditTrail.sensitive_keys k1 = true ∨ same_but_secrets v1 v2) ∧
             go r1 r2
         | _, _ => False
         end) items1 items2
  | JList elems1, JList elems2 =>
      (fix go (l1 l2 : list json) : Prop :=
         match l1, l2 with
         | [], [] => True
         | v1 :: r1, v2 :: r2 => same_but_secrets v1 v2 ∧ go r1 r2
         | _, _ => False
         end) elems1 elems2
  | _, _ => j1 = j2
  end.

(** The same for [_sanitize_data] of [log_collector.py]: the secrets are
    the values under sensitive keys that are not dicts, in dicts that are
    not inside a list. *)
Fixpoint same_but_scalar_secrets (j1 j2 : json) : Prop :=
  match j1, j2 with
  | JDict items1, JDict items2 =>
      (fix go (l1 l2 : list (string * json)) : Prop :=
         match l1, l2 with
         | [], [] => True
         | (k1, v1) :: r1, (k2, v2) :: r2 =>
             k1 = k2 ∧
             (is_sensitive LogCollector.sensitive_fields k1 = true ∧
              is_dict v1 = false ∧ is_dict v2 = false ∨
              same_but_scalar_secrets v1 v2) ∧
             go r1 r2
         | _, _ => False
         end) items1 items2
  | _, _ => j1 = j2
  end.

(** ** States of the world with the same files *)

(** Two states that differ at most in the records of the application
    logger. *)
Definition same_files (w1 w2 : world) : Prop :=
  fs w1 = fs w2 ∧ denied w1 = denied w2.

(** Two computations that, from states with the same files, give the same
    outcome and leave the same files: what one logs the other need not. *)
Definition agree {A} (m1 m2 : M A) : Prop :=
  ∀ w1 w2, same_files w1 w2 →
    (m1 w1).1 = (m2 w2).1 ∧ same_files (m1 w1).2 (m2 w2).2.

(** ** The file of the day *)

(** [date.strftime("api_log_%Y-%m-%d.log")], the value of
    [f"{LOG_FILENAME_BASE}_{today}{LOG_FILE_EXTENSION}"] as well ([%Y] has
    four digits from the year 1000 on) *)
Definition log_filename (d : date) : string :=
  "api_log_" +:+ str_int (year d) +:+ "-" +:+ zfill 2 (month d) +:+ "-"
  +:+ zfill 2 (day d) +:+ ".log".

(** [Config.get_log_path_for_date] of [config.py]; with [today] for the
    date, [AuditLogger._get_log_path] of both files. [LOG_DIR] is a
    directory other than ["."], which pathlib drops from the path. *)
Definition get_log_path_for_date (cfg : Config) (d : date) : string :=
  path_join (LOG_DIR cfg) (log_filename d).


(** ** Key generation, step by step

    [generate_keys] once more, with the steps of the file system told
    apart: [Path.exists()] can raise, [open(p, 'wb')] creates or empties
    the file before a byte is written, and the write (or the close that
    flushes it at the end of the [with] block) can fail and leave a part of
    the data in the file. *)

Module Faults.

(** What the file system refuses during a call. *)
Record faults := {
  (** the [OSError] that [Path(p).exists()] raises, if any (one that is
      not "no such file": [PermissionError], a name too long) *)
  exists_error : string → option exn;
  (** the [OSError] that [open(p, 'wb')] raises, if any *)
  open_error : string → option exn;
  (** the [OSError] that [f.write(data)] or the close of [f] raises, if
      any, and the number of bytes that have reached the file by then *)
  write_error : string → option (nat * exn)
}.

Section steps.
Variable ft : faults.

(** [Path.exists()] *)
Definition path_exists (p : string) : M bool := λ w,
  match exists_error ft p with
  | Some e => (Raise e, w)
  | None => (Ret (bool_decide (is_Some (fs w !! p))), w)
  end.

(** [open(p, 'wb')]: the file is there and empty once it is open. *)
Definition open_wb (p : string) : M unit := λ w,
  match open_error ft p with
  | Some e => (Raise e, w)
  | None =>
      match fs w !! p with
      | Some Dir =>
          (Raise (Exn "IsADirectoryError" ("[Errno 21] Is a directory: '" +:+ p +:+ "'")), w)
      | _ => (Ret tt, World (<[p := File ""]> (fs w)) (denied w) (log w))
      end
  end.

(** [f.write(data)] and the end of the [with] block, for the file opened
    on [p] *)
Definition write_close (p data : string) : M unit := λ w,
  match write_error ft p with
  | Some (n, e) =>
      (Raise e, World (<[p := File (substring 0 n data)]> (fs w)) (denied w) (log w))
  | None => (Ret tt, World (<[p := File data]> (fs w)) (denied w) (log w))
  end.

End steps.

Module AuditTrail.
Section AuditTrail.
Context {C : Crypto}.
Variable ft : faults.
Variable cfg : Config.

(** [generate_keys] of [audit_trail.py]: the test for the key files comes
    before the [try]; [and] asks for the public key file only when the
    private one is there. *)
Definition generate_keys (generated : outcome PrivKey) : M (bool * string) :=
  let private_key_path := get_private_key_path cfg in
  let public_key_path := get_public_key_path cfg in
  b1 ← path_exists ft private_key_path;
  b2 ← (if b1 : bool then path_exists ft public_key_path else mret false);
  if b2 : bool then mret (true, "Keys already exist")
  else
    try_except
      (private_key ← lift generated;
       private_key_bytes ← lift (private_bytes private_key);
       let public_key := public_key_of private_key in
       public_key_bytes ← lift (public_bytes public_key);
       open_wb ft private_key_path;;
       write_close ft private_key_path private_key_bytes;;
       open_wb ft public_key_path;;
       write_close ft public_key_path public_key_bytes;;
       mret (true, "Keys generated successfully"))
      (λ e, mret (false, "Error generating keys: " +:+ exn_msg e)).

End AuditTrail.
End AuditTrail.

Module LogSigner.
Section LogSigner.
Context {C : Crypto}.
Variable ft : faults.
Variable cfg : Config.

(** [generate_keys] of [log_signer.py]: the whole body is in the [try]. *)
Definition generate_keys (generated : outcome PrivKey) : M (bool * string) :=
  try_except
    (private_key ← lift generated;
     let public_key := public_key_of private_key in
     private_pem ← lift (private_bytes private_key);
     public_pem ← lift (public_bytes public_key);
     open_wb ft (get_private_key_path cfg);;
     write_close ft (get_private_key_path cfg) private_pem;;
     open_wb ft (get_public_key_path cfg);;
     write_close ft (get_public_key_path cfg) public_pem;;
     mret (true, "Keys generated successfully."))
    (λ e, mret (false, "Error generating keys: " +:+ exn_msg e)).

End LogSigner.
End LogSigner.

End Faults.

(** The faults of the coarser steps [path_exists] and [write_bytes]: an
    [open] is refused on the paths of [denied], nothing else fails. *)
Definition refused_opens (w : world) : Faults.faults := {|
  Faults.exists_error := λ _, None;
  Faults.open_error := λ p,
    if decide (p ∈ denied w) then Some (Exn "PermissionError" p) else None;
  Faults.write_error := λ _, None
|}.


(** The disk is full when the public key is written: the file has been
    created and stays empty ([ENOSPC]). *)
Definition public_key_disk_full : Faults.faults := {|
  Faults.exists_error := λ _, None;
  Faults.open_error := λ _, None;
  Faults.write_error := λ p,
    if decide (p = "keys/public_key.pem")
    then Some (0, Exn "OSError" "[Errno 28] No space left on device")
    else None
|}.

(** ** What redaction in place may do to a store *)

(** A slot of a dict after a call: the key is the same, and the value is
    the same or, under a sensitive key, ["[REDACTED]"]. *)
Definition slot_kept (slot slot' : string * value) : Prop :=
  slot'.1 = slot.1 ∧
  (slot'.2 = slot.2 ∨
   is_sensitive AuditTrail.sensitive_keys slot.1 = true ∧ slot'.2 = VStr REDACTED).

(** An object after a call: a list is as it was, a dict has the same keys
    in the same order and kept slots. *)
Definition object_kept (o o' : object) : Prop :=
  match o, o' with
  | OList elems, OList elems' => elems' = elems
  | ODict items, ODict items' => Forall2 slot_kept items items'
  | _, _ => False
  end.

(** A store after a call: the same objects, each of them kept. *)
Definition redacted_in_place (h h' : heap) : Prop :=
  dom h' = dom h ∧
  ∀ l o, h !! l = Some o → ∃ o', h' !! l = Some o' ∧ object_kept o o'.

(** A store with sharing: the dict at [0] is a value of the dict at [1]
    and an element of the list at [2], which the dict at [1] holds too. *)
Definition shared_heap : heap :=
  {[ 0 := ODict [("token", VStr "y"); ("ok", VStr "z")];
     2 := OList [VRef 0; VStr "password"];
     1 := ODict [("nested", VRef 0); ("list", VRef 2); ("password", VStr "x")] ]}.

(** * Properties *)

(** ** Running the monad *)

Ltac unfold_M :=
  cbv [mbind mret M_bind M_ret try_except try_except_cls lift raise logger
       path_exists read_bytes write_bytes attribute_error] in *.

Lemma not_is_Some_None {A} (o : option A) : ¬ is_Some o → o = None.
Proof. destruct o; [intros []; eauto | done]. Qed.

Ltac exists_facts :=
  repeat match goal with
  | H : negb (bool_decide (is_Some ?o)) = true |- _ =>
      apply negb_true_iff, bool_decide_eq_false_1, not_is_Some_None in H
  | H : negb (bool_decide (is_Some ?o)) = false |- _ =>
      apply negb_false_iff, bool_decide_eq_true_1 in H; destruct H as [? H]
  end.

Ltac run :=
  unfold_M; simpl in *;
  repeat (case_match; simplify_eq/=; exists_facts; try done; try congruence);
  repeat match goal with H : decide _ = _ |- _ => clear H end.

Section verification.
Context {C : Crypto}.
Variable cfg : Config.

Lemma _load_public_key_spec w :
  ∃ r w', _load_public_key cfg w = (Ret r, w') ∧
          fs w' = fs w ∧ denied w' = denied w ∧
          ∀ pk, r = Some pk ↔ public_key_loads cfg w pk.
Proof.
  destruct (_load_public_key cfg w) as [r w'] eqn:E.
  unfold _load_public_key, public_key_loads, readable in *.
  run.
  all: eexists _, _; split; [reflexivity|]; repeat split; try done.
  all: try (intros (? & [? ?] & ?); simplify_eq/=; congruence).
  all: try (intros [= <-]; eauto).
Qed.

Lemma public_key_loads_frame w w' pk :
  fs w' = fs w → denied w' = denied w →
  public_key_loads cfg w' pk ↔ public_key_loads cfg w pk.
Proof. unfold public_key_loads, readable. by intros -> ->. Qed.

Ltac use_load_public_key :=
  match goal with
  | H : _load_public_key cfg ?w0 = (?o, ?w1) |- _ =>
      let r := fresh "r" in let w2 := fresh "w" in
      let Hfs := fresh "Hfs" in let Hden := fresh "Hden" in
      let Hpk := fresh "Hpk" in
      let Heq := fresh "Heq" in
      destruct (_load_public_key_spec w0) as (r & w2 & Heq & Hfs & Hden & Hpk);
      rewrite H in Heq; clear H; simplify_eq/=;
      unfold public_key_loads, readable in Hpk; simpl in Hpk
  end.

(** [verify_file] always returns a boolean, leaves the files alone, and
    answers [True] exactly when both files can be read, the public key
    loads and the primitive accepts. *)
Lemma verify_file_spec file_path signature_path w :
  ∃ b w', verify_file cfg file_path signature_path w = (Ret b, w') ∧
    fs w' = fs w ∧ denied w' = denied w ∧
    (b = true ↔ ∃ content signature pk,
        readable w file_path content ∧
        readable w signature_path signature ∧
        public_key_loads cfg w pk ∧
        rsa_verify pk signature content = Ret tt).
Proof.
  destruct (verify_file cfg file_path signature_path w) as [r w'] eqn:E.
  unfold verify_file, readable in *.
  run.
  all: try use_load_public_key.
  all: eexists _, _; (split; [reflexivity|]); simpl;
    (split; [congruence|]); (split; [congruence|]).
  all: unfold public_key_loads, readable.
  all: try (split; [done|]; intros (c & s & pk & [? ?] & [? ?] & Hl & Hv);
            exfalso; simplify_eq/=; try congruence).
  all: try (apply Hpk in Hl; simplify_eq/=; congruence).
  split; [intros _|done]. destruct a2.
  exists a0, a1, p. repeat split; try done. by apply Hpk.
Qed.

Lemma verify_file_frame file_path signature_path w1 w2 :
  fs w1 = fs w2 → denied w1 = denied w2 →
  (verify_file cfg file_path signature_path w1).1 =
  (verify_file cfg file_path signature_path w2).1.
Proof.
  intros Hfs Hden.
  destruct (verify_file_spec file_path signature_path w1) as (b1 & ? & -> & _ & _ & H1).
  destruct (verify_file_spec file_path signature_path w2) as (b2 & ? & -> & _ & _ & H2).
  simpl. f_equal.
  assert (b1 = true ↔ b2 = true) as Hiff.
  { rewrite H1, H2. unfold public_key_loads, readable. by rewrite Hfs, Hden. }
  destruct b1, b2; try done; [symmetry|]; apply Hiff; done.
Qed.

Lemma _load_private_key_spec w :
  ∃ r w', _load_private_key cfg w = (Ret r, w') ∧
          fs w' = fs w ∧ denied w' = denied w ∧
          ∀ sk, r = Some sk ↔ private_key_loads cfg w sk.
Proof.
  destruct (_load_private_key cfg w) as [r w'] eqn:E.
  unfold _load_private_key, private_key_loads, readable in *.
  run.
  all: eexists _, _; split; [reflexivity|]; repeat split; try done.
  all: try (intros (? & [? ?] & ?); simplify_eq/=; congruence).
  all: try (intros [= <-]; eauto).
Qed.

Ltac use_load_private_key :=
  match goal with
  | H : _load_private_key cfg ?w0 = (?o, ?w1) |- _ =>
      let r := fresh "r" in let w2 := fresh "w" in
      let Hfs := fresh "Hfs" in let Hden := fresh "Hden" in
      let Hsk := fresh "Hsk" in
      let Heq := fresh "Heq" in
      destruct (_load_private_key_spec w0) as (r & w2 & Heq & Hfs & Hden & Hsk);
      rewrite H in Heq; clear H; simplify_eq/=;
      unfold private_key_loads, readable in Hsk; simpl in Hsk
  end.

Ltac use_verify_file :=
  match goal with
  | H : verify_file cfg ?f ?s ?w0 = (?o, ?w1) |- _ =>
      let b := fresh "b" in let w2 := fresh "w" in
      let Hfs := fresh "Hfs" in let Hden := fresh "Hden" in
      let Heq := fresh "Heq" in
      destruct (verify_file_spec f s w0) as (b & w2 & Heq & Hfs & Hden & _);
      rewrite H in Heq; simplify_eq/=
  end.

(** [sign_file] never raises. *)
Lemma sign_file_returns file_path w :
  ∃ r w', sign_file cfg file_path w = (Ret r, w').
Proof.
  destruct (sign_file cfg file_path w) as [r w'] eqn:E.
  unfold sign_file in E. run; eauto.
Qed.

(** When [sign_file] returns a path, that path is [file_path + ".sig"]
    and now holds the signature of the file's bytes under the stored
    private key; nothing else has changed on disk. *)
Lemma sign_file_inv file_path w sp w' :
  sign_file cfg file_path w = (Ret (Some sp), w') →
  ∃ content sk signature,
    readable w file_path content ∧
    private_key_loads cfg w sk ∧
    rsa_sign sk content = Ret signature ∧
    sp = file_path +:+ SIGNATURE_FILE_EXTENSION cfg ∧
    (sp ∉ denied w) ∧
    fs w' = <[sp := File signature]> (fs w) ∧
    denied w' = denied w.
Proof.
  intros E. unfold sign_file in E. run.
  all: use_load_private_key; use_verify_file.
  all: eexists _, _, _; unfold private_key_loads, readable;
    repeat split; try done; try (by apply Hsk); try congruence.
Qed.

End verification.

(** C6. [verify_file] fails closed: it always returns a boolean (no
    exception reaches the caller); the boolean is [False] when the target
    file is missing, when the signature file is missing, when
    [_load_public_key] yields [None], and when the primitive raises
    (an [InvalidSignature] included); it is [True] only when both files were
    read, the key loaded and the primitive returned normally. *)
Theorem verify_file_fails_closed `{C : Crypto} (cfg : Config)
    (file_path signature_path : string) (w : world) :
  ∃ b w', verify_file cfg file_path signature_path w = (Ret b, w') ∧
    (fs w !! file_path = None → b = false) ∧
    (fs w !! signature_path = None → b = false) ∧
    ((_load_public_key cfg w).1 = Ret None → b = false) ∧
    (∀ content signature pk e,
        readable w file_path content →
        readable w signature_path signature →
        public_key_loads cfg w pk →
        rsa_verify pk signature content = Raise e → b = false) ∧
    (b = true → ∃ content signature pk,
        readable w file_path content ∧
        readable w signature_path signature ∧
        public_key_loads cfg w pk ∧
        rsa_verify pk signature content = Ret tt).
Proof.
  destruct (verify_file_spec cfg file_path signature_path w)
    as (b & w' & E & _ & _ & Hb).
  exists b, w'. split; [done|].
  assert (∀ P : Prop, (P → b ≠ true) → P → b = false) as closed.
  { intros P HP HPs. destruct b; [by destruct (HP HPs)|done]. }
  repeat split.
  - apply closed. intros Hnone (c & _ & _ & [_ Hc] & _)%Hb. congruence.
  - apply closed. intros Hnone (_ & s & _ & _ & [_ Hs] & _)%Hb. congruence.
  - apply closed. intros Hload (_ & _ & pk & _ & _ & Hpk & _)%Hb.
    destruct (_load_public_key_spec cfg w) as (r & w1 & E1 & _ & _ & Hr).
    rewrite E1 in Hload. simpl in Hload. apply Hr in Hpk. congruence.
  - intros content signature pk e [_ Hc] [_ Hs] (d & [_ Hd] & Hl) Hv.
    destruct b; [|done]. exfalso.
    destruct Hb as [Hb _]. destruct (Hb eq_refl)
      as (c' & s' & pk' & [_ Hc'] & [_ Hs'] & (d' & [_ Hd'] & Hl') & Hv').
    congruence.
  - intros ->. by apply Hb.
Qed.

Lemma verify_file_fails_closed_witness :
  (@verify_file symbolic_crypto audit_trail_Config
     "logs/api_log_2024-05-01.log.snapshot"
     "logs/api_log_2024-05-01.log.snapshot.sig" example_world).1 = Ret false.
Proof.
  destruct (@verify_file_fails_closed symbolic_crypto audit_trail_Config
              "logs/api_log_2024-05-01.log.snapshot"
              "logs/api_log_2024-05-01.log.snapshot.sig" example_world)
    as (b & w' & E & _ & Hsignature & _).
  rewrite E. simpl. f_equal. apply Hsignature. reflexivity.
Defined.

(** C8. Once the signature has been written, [sign_file] runs [verify_file]
    on the same file and the fresh signature, records the outcome in the
    log and returns the signature path whatever that outcome is: a failed
    self-verification leaves a WARNING record and nothing else. *)
Theorem sign_file_self_verification_is_diagnostic `{C : Crypto} (cfg : Config)
    (file_path content signature : string) (sk : PrivKey) (w : world) :
  let signature_path := file_path +:+ SIGNATURE_FILE_EXTENSION cfg in
  readable w file_path content →
  private_key_loads cfg w sk →
  rsa_sign sk content = Ret signature →
  signature_path ∉ denied w →
  fs w !! signature_path ≠ Some Dir →
  ∃ w' verification_result,
    sign_file cfg file_path w = (Ret (Some signature_path), w') ∧
    fs w' = <[signature_path := File signature]> (fs w) ∧
    (verify_file cfg file_path signature_path w').1 = Ret verification_result ∧
    last (log w') = Some (self_verification_record verification_result).
Proof.
  intros signature_path [Hden Hfile] (data & [Hkden Hkey] & Hload) Hsign Hsden Hsdir.
  destruct (sign_file cfg file_path w) as [r w'] eqn:E.
  pose proof E as E0. unfold sign_file in E. fold signature_path in E.
  unfold _load_private_key in E. run.
  all: try match goal with
       | H : verify_file _ ?f ?s ?w0 = (Raise _, _) |- _ =>
           destruct (verify_file_spec cfg f s w0) as (? & ? & Heq & _);
           congruence
       end.
  all: match goal with
       | H : verify_file _ ?f ?s ?w0 = (Ret ?b, ?w1) |- _ =>
           destruct (verify_file_spec cfg f s w0) as (b' & w2 & Heq & Hfs & Hd & _);
           rewrite H in Heq; injection Heq as <- <-;
           pose proof (verify_file_frame cfg f s w0
             {| fs := fs w1; denied := denied w1; log := log w1 ++
                [self_verification_record b] |} (eq_sym Hfs) (eq_sym Hd)) as Hframe;
           rewrite H in Hframe; simpl in Hframe, Hfs
       end.
  all: eexists _, _; split; [reflexivity|]; simpl.
  all: split; [congruence|]; split; [symmetry; exact Hframe|].
  all: by rewrite last_snoc.
Qed.

(** The theorem at a world whose verifier rejects the fresh signature:
    [sign_file] still hands back the signature path. *)
Lemma sign_file_self_verification_is_diagnostic_witness :
  ∃ w', @sign_file rejecting_crypto audit_trail_Config
          "logs/api_log_2024-05-01.log.snapshot" example_world
        = (Ret (Some "logs/api_log_2024-05-01.log.snapshot.sig"), w') ∧
        last (log w') = Some (self_verification_record false).
Proof.
  destruct (@sign_file_self_verification_is_diagnostic rejecting_crypto
              audit_trail_Config "logs/api_log_2024-05-01.log.snapshot"
              "AUDIT: {}" (symbolic_sign "k1" "AUDIT: {}") "k1" example_world)
    as (w' & vr & E & _ & Hv & Hlog).
  - split; [vm_compute; set_solver | reflexivity].
  - exists "k1". split; [split; [vm_compute; set_solver | reflexivity] | reflexivity].
  - reflexivity.
  - vm_compute; set_solver.
  - vm_compute. discriminate.
  - exists w'. split; [exact E|].
    destruct (verify_file_spec (C:=rejecting_crypto) audit_trail_Config
      "logs/api_log_2024-05-01.log.snapshot"
      ("logs/api_log_2024-05-01.log.snapshot"
         +:+ SIGNATURE_FILE_EXTENSION audit_trail_Config) w')
      as (b & w2 & E2 & _ & _ & Htrue).
    rewrite E2 in Hv. simpl in Hv. injection Hv as <-.
    destruct b; [|exact Hlog].
    destruct Htrue as [Htrue _].
    destruct (Htrue eq_refl) as (? & ? & ? & _ & _ & _ & Hrej). discriminate Hrej.
Defined.

(** C10. On a processor that has not stored a snapshot path, [verify_logs()]
    with no argument leaves [log_path] at [None] and the call
    [log_path.is_absolute()] raises [AttributeError]: the caller gets an
    exception, not [False]. *)
Theorem verify_logs_without_seal_raises `{C : Crypto} (cfg : Config)
    (live_log : string) (w : world) :
  verify_logs cfg (Processor live_log None None) None None w =
    (Raise (Exn "AttributeError" "'NoneType' object has no attribute 'is_absolute'"), w)
  ∧ ∀ b w', verify_logs cfg (Processor live_log None None) None None w ≠ (Ret b, w').
Proof. split; [reflexivity | intros b w'; discriminate]. Qed.

(** ** Paths told apart *)

Lemma string_last_app (a b : string) (c : ascii) :
  string_last (a +:+ String c b) = string_last (String c b).
Proof.
  induction a as [|x a IH]; [reflexivity|].
  change (String x a +:+ String c b) with (String x (a +:+ String c b)).
  simpl. rewrite IH. destruct (a +:+ String c b) eqn:E; [|done].
  destruct a; discriminate.
Qed.

Lemma app_nonempty_ne (a b : string) : b ≠ "" → a +:+ b ≠ a.
Proof.
  intros Hb E. induction a as [|x a IH]; [done|].
  injection E as E. auto.
Qed.

(** A signature path ends in [g], a key path in [m]. *)
Lemma signature_path_not_key (cfg : Config) (file_path : string) :
  SIGNATURE_FILE_EXTENSION cfg = ".sig" →
  PUBLIC_KEY_FILENAME cfg = "public_key.pem" →
  file_path +:+ SIGNATURE_FILE_EXTENSION cfg ≠ get_public_key_path cfg.
Proof.
  intros Hs Hp E. apply (f_equal string_last) in E.
  unfold get_public_key_path, path_join in E. rewrite Hs, Hp in E.
  change (KEYS_DIR cfg +:+ "/" +:+ "public_key.pem")
    with (KEYS_DIR cfg +:+ "/public_key.pem") in E.
  rewrite !string_last_app in E. discriminate.
Qed.

(** ** Signing and verifying with an ideal primitive *)

Section ideal_signature.
Context `{C : Crypto} `{!IdealSignature C}.
Variable cfg : Config.

(** With the public half of [sk] on disk, [verify_file] accepts exactly
    the signature that the holder of [sk] produces for the file's bytes. *)
Lemma verify_file_ideal file_path signature_path (sk : PrivKey) B' S' w :
  readable w file_path B' →
  readable w signature_path S' →
  public_key_loads cfg w (public_key_of sk) →
  (verify_file cfg file_path signature_path w).1 = Ret true ↔
  rsa_sign sk B' = Ret S'.
Proof.
  intros HB HS Hpk.
  destruct (verify_file_spec cfg file_path signature_path w)
    as (b & w1 & -> & _ & _ & Hb). simpl.
  split.
  - intros [= ->]. destruct Hb as [Hb _].
    destruct (Hb eq_refl) as (c & s & pk & [_ Hc] & [_ Hs] & Hpk' & Hv).
    destruct HB as [_ HB], HS as [_ HS].
    destruct Hpk as (d & [_ Hd] & Hl), Hpk' as (d' & [_ Hd'] & Hl').
    assert (pk = public_key_of sk) as -> by congruence.
    assert (c = B') as -> by congruence.
    assert (s = S') as -> by congruence.
    by apply verify_signed.
  - intros Hsign. f_equal. apply Hb.
    exists B', S', (public_key_of sk). repeat split; try apply HB; try apply HS; try done.
    by apply verify_sign.
Qed.

End ideal_signature.

(** C1. With an ideal signature primitive and a matching key pair on disk
    (and a file that is neither the public key file nor written to by a
    logging handler):
    the signature that [sign_file] writes for a file holding [B] verifies
    against that file; [verify_file] answers [True] exactly when the
    signature file holds what the private key's holder produces for the
    bytes now in the file; and with the signature of [B] in place, any
    other content [B'] of the file makes [verify_file] answer [False]. *)
Theorem sign_file_then_verify_file `{C : Crypto} `{!IdealSignature C}
    (cfg : Config) (file_path B signature_path : string) (sk : PrivKey)
    (w w' : world) :
  SIGNATURE_FILE_EXTENSION cfg = ".sig" →
  PUBLIC_KEY_FILENAME cfg = "public_key.pem" →
  file_path ≠ get_public_key_path cfg →
  readable w file_path B →
  private_key_loads cfg w sk →
  public_key_loads cfg w (public_key_of sk) →
  sign_file cfg file_path w = (Ret (Some signature_path), w') →
  (verify_file cfg file_path signature_path w').1 = Ret true ∧
  (∀ w'' B' S',
      readable w'' file_path B' →
      readable w'' signature_path S' →
      public_key_loads cfg w'' (public_key_of sk) →
      (verify_file cfg file_path signature_path w'').1 = Ret true ↔
      rsa_sign sk B' = Ret S') ∧
  (∀ w'' B',
      B' ≠ B →
      fs w'' = <[file_path := File B']> (fs w') →
      denied w'' = denied w' →
      (verify_file cfg file_path signature_path w'').1 = Ret false).
Proof.
  intros Hext Hpub Hfk [HBd HB] Hsk Hpk Hsign.
  destruct (sign_file_inv cfg _ _ _ _ Hsign)
    as (content & sk' & signature & [_ Hc] & Hsk' & Hs & -> & Hsd & Hfs & Hden).
  assert (content = B) as -> by congruence.
  assert (sk' = sk) as ->.
  { destruct Hsk as (d & [_ Hd] & Hl), Hsk' as (d' & [_ Hd'] & Hl'). congruence. }
  set (signature_path := file_path +:+ SIGNATURE_FILE_EXTENSION cfg) in *.
  assert (signature_path ≠ file_path) as Hsf.
  { apply app_nonempty_ne. by rewrite Hext. }
  assert (signature_path ≠ get_public_key_path cfg) as Hskey
    by by apply signature_path_not_key.
  assert (public_key_loads cfg w' (public_key_of sk)) as Hpk'.
  { destruct Hpk as (d & [Hdd Hd] & Hl). exists d. split; [|done].
    split; [by rewrite Hden|]. rewrite Hfs. by rewrite lookup_insert_ne. }
  split; [|split].
  - eapply verify_file_ideal; [| |exact Hpk'|exact Hs].
    + split; [by rewrite Hden|]. rewrite Hfs. by rewrite lookup_insert_ne.
    + split; [by rewrite Hden|]. rewrite Hfs. by rewrite lookup_insert_eq.
  - intros w'' B' S' HB' HS' Hpk''. by apply verify_file_ideal.
  - intros w'' B' Hne Hfs'' Hden''.
    destruct (verify_file_spec cfg file_path signature_path w'')
      as (b & w2 & E2 & _). 
    assert ((verify_file cfg file_path signature_path w'').1 = Ret true ↔
            rsa_sign sk B' = Ret signature) as Hiff.
    { apply verify_file_ideal.
      - split; [by rewrite Hden'', Hden|]. rewrite Hfs''. by rewrite lookup_insert_eq.
      - split; [by rewrite Hden'', Hden|]. rewrite Hfs'', Hfs.
        rewrite lookup_insert_ne by done. by rewrite lookup_insert_eq.
      - destruct Hpk as (d & [Hdd Hd] & Hl). exists d. split; [|done].
        split; [by rewrite Hden'', Hden|]. rewrite Hfs'', Hfs.
        rewrite lookup_insert_ne by done. by rewrite lookup_insert_ne. }
    rewrite E2 in *. simpl in *. destruct b; [|done].
    exfalso. apply Hne. destruct Hiff as [Hiff _].
    eapply sign_inj; [apply Hiff; reflexivity | exact Hs].
Qed.

(** The symbolic primitives are ideal. *)
Lemma symbolic_crypto_ideal : IdealSignature symbolic_crypto.
Proof.
  split; simpl.
  - intros sk m s [= <-]. by rewrite decide_True.
  - intros sk m s. case_decide; [by subst|discriminate].
  - intros sk m m' s [= <-] [= E]. unfold symbolic_sign in E.
    by do 2 apply (inj (String.app _)) in E.
Qed.

Lemma sign_file_then_verify_file_witness :
  let snapshot := "logs/api_log_2024-05-01.log.snapshot" in
  let signed := (@sign_file symbolic_crypto audit_trail_Config snapshot example_world).2 in
  (@verify_file symbolic_crypto audit_trail_Config snapshot (snapshot +:+ ".sig") signed).1
    = Ret true ∧
  (@verify_file symbolic_crypto audit_trail_Config snapshot (snapshot +:+ ".sig")
     (World (<[snapshot := File "AUDIT: {tampered}"]> (fs signed)) (denied signed) [])).1
    = Ret false.
Proof.
  intros snapshot signed.
  destruct (@sign_file_then_verify_file symbolic_crypto symbolic_crypto_ideal
              audit_trail_Config snapshot "AUDIT: {}" (snapshot +:+ ".sig") "k1"
              example_world signed) as (Hround & _ & Htamper).
  - reflexivity.
  - reflexivity.
  - discriminate.
  - split; [vm_compute; set_solver | reflexivity].
  - exists "k1". split; [split; [vm_compute; set_solver | reflexivity] | reflexivity].
  - exists "k1". split; [split; [vm_compute; set_solver | reflexivity] | reflexivity].
  - vm_compute. reflexivity.
  - split; [exact Hround|].
    apply (Htamper _ "AUDIT: {tampered}"); [discriminate | reflexivity | reflexivity].
Defined.

(** ** Key generation *)

(** C3, as stated, fails on [log_signer.py]: with both key files in place
    its [generate_keys] reports success and replaces their contents by the
    new pair. *)
Lemma log_signer_generate_keys_overwrites :
  let r := @LogSigner.generate_keys symbolic_crypto package_Config (Ret "k2") package_world in
  fs package_world !! get_private_key_path package_Config = Some (File "k1") ∧
  fs package_world !! get_public_key_path package_Config = Some (File "k1") ∧
  r.1 = Ret (true, "Keys generated successfully.") ∧
  fs r.2 !! get_private_key_path package_Config = Some (File "k2") ∧
  fs r.2 !! get_public_key_path package_Config = Some (File "k2").
Proof. vm_compute. repeat split. Qed.

(** C3, amended. [generate_keys] of [audit_trail.py] is idempotent: with
    both key files in place it answers [(True, "Keys already exist")] and
    leaves the world as it is, so a call that follows a successful call
    succeeds and changes nothing. [generate_keys] of [log_signer.py] has no
    such test: whenever it succeeds the key files hold the serialisations
    of the pair generated in that very call. *)
Theorem generate_keys_idempotence `{C : Crypto} (cfg : Config) (w : world) :
  (∀ generated,
      is_Some (fs w !! get_private_key_path cfg) →
      is_Some (fs w !! get_public_key_path cfg) →
      AuditTrail.generate_keys cfg generated w = (Ret (true, "Keys already exist"), w)) ∧
  (∀ generated1 generated2 message w1,
      AuditTrail.generate_keys cfg generated1 w = (Ret (true, message), w1) →
      AuditTrail.generate_keys cfg generated2 w1 = (Ret (true, "Keys already exist"), w1)) ∧
  (∀ generated message w1,
      LogSigner.generate_keys cfg generated w = (Ret (true, message), w1) →
      ∃ sk private_pem public_pem,
        generated = Ret sk ∧
        private_bytes sk = Ret private_pem ∧
        public_bytes (public_key_of sk) = Ret public_pem ∧
        fs w1 = <[get_public_key_path cfg := File public_pem]>
                  (<[get_private_key_path cfg := File private_pem]> (fs w))).
Proof.
  assert (∀ generated w0,
      is_Some (fs w0 !! get_private_key_path cfg) →
      is_Some (fs w0 !! get_public_key_path cfg) →
      AuditTrail.generate_keys cfg generated w0 = (Ret (true, "Keys already exist"), w0))
    as Hexist.
  { intros generated w0 H1 H2. unfold AuditTrail.generate_keys. unfold_M.
    by rewrite !bool_decide_eq_true_2. }
  split; [intros; by apply Hexist|]. split.
  - intros generated1 generated2 message w1 E. apply Hexist.
    + unfold AuditTrail.generate_keys in E. run; simpl.
      all: try (apply andb_true_iff in H as [H1 H2];
                by apply bool_decide_eq_true_1 in H1).
      all: rewrite !lookup_insert; repeat case_decide; eauto; done.
    + unfold AuditTrail.generate_keys in E. run; simpl.
      all: try (apply andb_true_iff in H as [H1 H2];
                by apply bool_decide_eq_true_1 in H2).
      all: rewrite !lookup_insert; repeat case_decide; eauto; done.
  - intros generated message w1 E. unfold LogSigner.generate_keys in E. run.
    all: eexists _, _, _; repeat split; eauto.
Qed.

Lemma generate_keys_idempotence_witness :
  @AuditTrail.generate_keys symbolic_crypto audit_trail_Config (Ret "k2") example_world
  = (Ret (true, "Keys already exist"), example_world).
Proof.
  destruct (@generate_keys_idempotence symbolic_crypto audit_trail_Config example_world)
    as (Hexist & _ & _).
  apply Hexist; eexists; reflexivity.
Defined.

Ltac unfold_steps :=
  cbv [Faults.path_exists Faults.open_wb Faults.write_close
       Faults.exists_error Faults.open_error Faults.write_error] in *.

(** Opening and writing, when nothing fails but a refused [open], is
    [write_bytes] up to the exception that is raised. *)
Lemma open_write_refused (w0 : world) (p data : string) (w : world) :
  denied w = denied w0 →
  (∃ w', Faults.open_wb (refused_opens w0) p w = (Ret tt, w') ∧
         Faults.write_close (refused_opens w0) p data w' = (Ret tt, (write_bytes p data w).2) ∧
         (write_bytes p data w).1 = Ret tt ∧
         denied (write_bytes p data w).2 = denied w0) ∨
  (∃ e e', Faults.open_wb (refused_opens w0) p w = (Raise e, w) ∧
           write_bytes p data w = (Raise e', w)).
Proof.
  intros Hd. unfold refused_opens. unfold_steps. unfold_M. rewrite Hd.
  destruct (decide (p ∈ denied w0)); [right; eauto|].
  destruct (fs w !! p) as [[c|]|] eqn:E; [left|right; eauto|left].
  all: eexists; split; [reflexivity|]; simpl; by rewrite insert_insert_eq.
Qed.

(** Without a fault but a refused [open], the steps give what
    [path_exists] and [write_bytes] give: the same answer, up to the text
    of the message, and the same files. *)
Lemma generate_keys_refused_opens `{C : Crypto} (cfg : Config)
    (generated : outcome PrivKey) (w : world) :
  (∃ ok message message' w',
     Faults.AuditTrail.generate_keys (refused_opens w) cfg generated w
       = (Ret (ok, message), w') ∧
     AuditTrail.generate_keys cfg generated w = (Ret (ok, message'), w')) ∧
  (∃ ok message message' w',
     Faults.LogSigner.generate_keys (refused_opens w) cfg generated w
       = (Ret (ok, message), w') ∧
     LogSigner.generate_keys cfg generated w = (Ret (ok, message'), w')).
Proof.
  assert (∀ (sk_bytes pk_bytes : string) (done : string),
    ∃ ok message message' w',
      try_except
        (Faults.open_wb (refused_opens w) (get_private_key_path cfg);;
         Faults.write_close (refused_opens w) (get_private_key_path cfg) sk_bytes;;
         Faults.open_wb (refused_opens w) (get_public_key_path cfg);;
         Faults.write_close (refused_opens w) (get_public_key_path cfg) pk_bytes;;
         mret (true, done))
        (λ e, mret (false, "Error generating keys: " +:+ exn_msg e)) w
      = (Ret (ok, message), w') ∧
      try_except
        (write_bytes (get_private_key_path cfg) sk_bytes;;
         write_bytes (get_public_key_path cfg) pk_bytes;;
         mret (true, done))
        (λ e, mret (false, "Error generating keys: " +:+ exn_msg e)) w
      = (Ret (ok, message'), w')) as Hwrite.
  { intros sk_bytes pk_bytes done.
    unfold try_except, mbind, M_bind, mret, M_ret.
    destruct (open_write_refused w (get_private_key_path cfg) sk_bytes w eq_refl)
      as [(w1 & E1 & E1' & H1 & Hd1)|(e & e' & -> & ->)]; [|by eexists _, _, _, _].
    rewrite E1. cbv beta iota. rewrite E1'. cbv beta iota.
    destruct (write_bytes (get_private_key_path cfg) sk_bytes w) as [o1 w1'].
    cbn [fst snd] in *. subst o1.
    destruct (open_write_refused w (get_public_key_path cfg) pk_bytes w1' Hd1)
      as [(w2 & E2 & E2' & H2 & Hd2)|(e & e' & -> & ->)]; [|by eexists _, _, _, _].
    rewrite E2. cbv beta iota. rewrite E2'. cbv beta iota.
    destruct (write_bytes (get_public_key_path cfg) pk_bytes w1') as [o2 w2'].
    cbn [fst snd] in *. subst o2. by eexists _, _, _, _. }
  split.
  - unfold Faults.AuditTrail.generate_keys, AuditTrail.generate_keys.
    cbv [mbind M_bind Faults.path_exists path_exists refused_opens
         Faults.exists_error mret M_ret lift].
    destruct (bool_decide (is_Some (fs w !! get_private_key_path cfg)));
      destruct (bool_decide (is_Some (fs w !! get_public_key_path cfg)));
      cbv beta iota delta [andb].
    1: by eexists _, _, _, _.
    all: destruct generated as [sk|e]; [|by eexists _, _, _, _].
    all: cbv [try_except]; cbv beta iota.
    all: destruct (private_bytes sk) as [sk_bytes|e] eqn:Esk;
      [|by eexists _, _, _, _].
    all: destruct (public_bytes (public_key_of sk)) as [pk_bytes|e] eqn:Epk;
      [|by eexists _, _, _, _].
    all: exact (Hwrite sk_bytes pk_bytes "Keys generated successfully").
  - unfold Faults.LogSigner.generate_keys, LogSigner.generate_keys.
    cbv [mbind M_bind mret M_ret lift try_except].
    destruct generated as [sk|e]; [|by eexists _, _, _, _].
    cbv beta iota.
    destruct (private_bytes sk) as [sk_bytes|e] eqn:Esk;
      [|by eexists _, _, _, _].
    destruct (public_bytes (public_key_of sk)) as [pk_bytes|e] eqn:Epk;
      [|by eexists _, _, _, _].
    exact (Hwrite sk_bytes pk_bytes "Keys generated successfully.").
Qed.


(** A write that fails after the file has been opened leaves the file
    behind: with the disk full at the public key, a failed call leaves the
    private key file whole and the public key file empty. *)
Lemma generate_keys_disk_full :
  let w := World ∅ ∅ [] in
  let r := @Faults.AuditTrail.generate_keys symbolic_crypto public_key_disk_full
             audit_trail_Config (Ret "k2") w in
  let r' := @Faults.LogSigner.generate_keys symbolic_crypto public_key_disk_full
              audit_trail_Config (Ret "k2") w in
  r.1 = Ret (false, "Error generating keys: [Errno 28] No space left on device") ∧
  fs r.2 !! "keys/private_key.pem" = Some (File "k2") ∧
  fs r.2 !! "keys/public_key.pem" = Some (File "") ∧
  r'.1 = r.1 ∧ fs r'.2 = fs r.2.
Proof. vm_compute. repeat split. Qed.


(** ** The daily pipeline *)

Section pipeline.
Context `{C : Crypto}.
Variable cfg : Config.

Lemma audit_trail_calculate_sha256_spec p w :
  ∃ r w', AuditTrail.calculate_sha256 p w = (Ret r, w') ∧
          fs w' = fs w ∧ denied w' = denied w.
Proof.
  destruct (AuditTrail.calculate_sha256 p w) as [o w'] eqn:E.
  unfold AuditTrail.calculate_sha256 in E. run; eauto.
Qed.

Lemma log_signer_calculate_sha256_spec p w :
  ∃ r w', LogSigner.calculate_sha256 p w = (Ret r, w') ∧
          fs w' = fs w ∧ denied w' = denied w.
Proof.
  destruct (LogSigner.calculate_sha256 p w) as [o w'] eqn:E.
  unfold LogSigner.calculate_sha256 in E. run; eauto.
Qed.

Lemma audit_trail_save_hash_spec h p w :
  ∃ b w', AuditTrail.save_hash h p w = (Ret b, w') ∧ denied w' = denied w ∧
          fs w' = if b then <[p := File h]> (fs w) else fs w.
Proof.
  destruct (AuditTrail.save_hash h p w) as [o w'] eqn:E.
  unfold AuditTrail.save_hash in E. run; eauto.
Qed.

Lemma log_signer_save_hash_spec h p w :
  ∃ b w', LogSigner.save_hash h p w = (Ret b, w') ∧ denied w' = denied w ∧
          fs w' = if b then <[p := File h]> (fs w) else fs w.
Proof.
  destruct (LogSigner.save_hash h p w) as [o w'] eqn:E.
  unfold LogSigner.save_hash in E. run; eauto.
Qed.

Variable upload_file : string → string → outcome unit.

(** [upload_to_s3] never raises, writes no file, and answers [True]
    exactly when the file exists and, outside simulation, the client
    accepted it. *)
Lemma upload_to_s3_spec local_path key_prefix w :
  ∃ b w', AuditTrail.upload_to_s3 cfg upload_file local_path key_prefix w = (Ret b, w') ∧
          fs w' = fs w ∧ denied w' = denied w ∧
          (b = true ↔ uploaded cfg upload_file w key_prefix local_path).
Proof.
  destruct (AuditTrail.upload_to_s3 cfg upload_file local_path key_prefix w)
    as [o w'] eqn:E.
  unfold AuditTrail.upload_to_s3, uploaded in E |- *. run.
  all: eexists _, _; split; [reflexivity|]; simpl; repeat split; try done; eauto.
  all: try (intros [[? ?] ?]; congruence).
  all: try (intros [_ [?|?]]; congruence).
  right. by destruct a0.
Qed.

End pipeline.


Lemma is_Some_insert (m : gmap string node) p q v :
  is_Some (m !! p) → is_Some (<[q := v]> m !! p).
Proof.
  intros H. rewrite lookup_insert. case_decide; eauto.
Qed.

(** After a copy that returned, the destination exists and no file has
    disappeared. *)
Lemma copy2_spec src dst w u w' :
  copy2 src dst w = (Ret u, w') →
  is_Some (fs w' !! dst) ∧ ∀ p, is_Some (fs w !! p) → is_Some (fs w' !! p).
Proof.
  unfold copy2. intros E.
  destruct (fs w !! dst) as [[c|]|] eqn:Hdst; run.
  all: split; [|by intros; apply is_Some_insert].
  all: rewrite lookup_insert; case_decide; eauto; try done.
  all: rewrite Hdst; eauto.
Qed.





(** ** The audit log line *)













(** Why one [FileHandler] per file: two [AuditLogger]s of
    [log_collector.py] leave two handlers on the logger and every record is
    written twice; after [finalize_log] of [audit_trail.py] no handler is
    left and nothing is written. *)
Lemma log_event_handlers_examples :
  let twice := LogCollector._setup_file_handler daily_log
                 (LogCollector._setup_file_handler daily_log []) in
  let none := AuditTrail.finalize_log daily_log
                (AuditTrail._setup_file_handler daily_log []) in
  let line := LogCollector.format_record "2024-05-01 12:00:00,000"
                ("AUDIT: " +:+ json_dumps (LogCollector.log_entry "id" "t" "login"
                                            (JDict []) None)) +:+ newline in
  file_text (LogCollector.log_event twice "id" "t" "2024-05-01 12:00:00,000"
               "login" (JDict []) None daily_world).2 daily_log = line +:+ line ∧
  file_text (AuditTrail.log_event none "id" "t" "2024-05-01 12:00:00,000"
               "login" (JDict []) None daily_world).2 daily_log = "".
Proof. vm_compute. split; reflexivity. Qed.





(** * Sanitizing

    [_sanitize_data] of [audit_trail.py] runs on the store; the lemmas below
    relate what it does there to the tree functions [redacted] and
    [argument_after]. *)

(** ** Trees in the store: frame and weakening *)

Lemma owns_weaken_frame h :
  (∀ v j fp, owns h v j fp →
     ∀ h' fp', fp ⊆ fp' → (∀ l, l ∈ fp → h' !! l = h !! l) → owns h' v j fp') ∧
  (∀ items jitems fp, owns_items h items jitems fp →
     ∀ h' fp', fp ⊆ fp' → (∀ l, l ∈ fp → h' !! l = h !! l) →
     owns_items h' items jitems fp') ∧
  (∀ elems jelems fp, owns_elems h elems jelems fp →
     ∀ h' fp', fp ⊆ fp' → (∀ l, l ∈ fp → h' !! l = h !! l) →
     owns_elems h' elems jelems fp').
Proof.
  apply owns_mutind.
  - intros; constructor.
  - intros; constructor.
  - intros; constructor.
  - intros; constructor.
  - intros l items jitems fp1 fp Hl Hnd _ IH Hnot Hsub h' fp' Hfp Hagree.
    apply owns_dict with items fp1; try done.
    + rewrite Hagree; [done|set_solver].
    + apply IH; [done|]. intros l' Hl'. apply Hagree. set_solver.
    + set_solver.
  - intros l elems jelems fp1 fp Hl _ IH Hnot Hsub h' fp' Hfp Hagree.
    apply owns_list with elems fp1; try done.
    + rewrite Hagree; [done|set_solver].
    + apply IH; [done|]. intros l' Hl'. apply Hagree. set_solver.
    + set_solver.
  - intros; constructor.
  - intros k v j items jitems fp1 fp2 fp _ IH1 _ IH2 Hdisj Hsub h' fp' Hfp Hagree.
    apply owns_items_cons with fp1 fp2; try done.
    + apply IH1; [done|]. intros l' Hl'. apply Hagree. set_solver.
    + apply IH2; [done|]. intros l' Hl'. apply Hagree. set_solver.
    + set_solver.
  - intros; constructor.
  - intros v j elems jelems fp1 fp2 fp _ IH1 _ IH2 Hdisj Hsub h' fp' Hfp Hagree.
    apply owns_elems_cons with fp1 fp2; try done.
    + apply IH1; [done|]. intros l' Hl'. apply Hagree. set_solver.
    + apply IH2; [done|]. intros l' Hl'. apply Hagree. set_solver.
    + set_solver.
Qed.

Lemma owns_weaken h v j fp h' fp' :
  owns h v j fp → fp ⊆ fp' → (∀ l, l ∈ fp → h' !! l = h !! l) → owns h' v j fp'.
Proof. intros H. by apply (proj1 (owns_weaken_frame h)). Qed.

Lemma owns_items_weaken h items jitems fp h' fp' :
  owns_items h items jitems fp → fp ⊆ fp' →
  (∀ l, l ∈ fp → h' !! l = h !! l) → owns_items h' items jitems fp'.
Proof. intros H. by apply (proj1 (proj2 (owns_weaken_frame h))). Qed.

Lemma owns_elems_weaken h elems jelems fp h' fp' :
  owns_elems h elems jelems fp → fp ⊆ fp' →
  (∀ l, l ∈ fp → h' !! l = h !! l) → owns_elems h' elems jelems fp'.
Proof. intros H. by apply (proj2 (proj2 (owns_weaken_frame h))). Qed.

Import AuditTrail.

Arguments is_sensitive : simpl never.
Arguments redact_slots : simpl never.
Arguments after_items : simpl never.

Lemma redact_slots_cons k v r :
  redact_slots ((k, v) :: r) =
  (k, if is_sensitive sensitive_keys k then VStr REDACTED else v) :: redact_slots r.
Proof. reflexivity. Qed.

Lemma after_items_cons k j r :
  after_items ((k, j) :: r) =
  (k, if is_sensitive sensitive_keys k then j else redacted j) :: after_items r.
Proof. reflexivity. Qed.

Lemma redact_items_cons rec l k v r h :
  redact_items rec l ((k, v) :: r) h =
  if is_sensitive sensitive_keys k then
    redact_items rec l r (setitem_at l k (VStr REDACTED) h)
  else match rec v h with
       | Ret h' => redact_items rec l r h'
       | Raise e => Raise e
       end.
Proof. reflexivity. Qed.

Lemma setitem_app_notin k v v0 (done r : list (string * value)) :
  k ∉ done.*1 →
  setitem k v (done ++ (k, v0) :: r) = done ++ (k, v) :: r.
Proof.
  induction done as [|[k' v'] done IH]; simpl; intros Hk.
  - by rewrite decide_True.
  - rewrite decide_False by set_solver. f_equal. apply IH. set_solver.
Qed.

Section loops.
Variable n : nat.
Variable rec : value → heap → outcome heap.
Hypothesis Hrec : ∀ v j fp h,
  owns h v j fp → json_depth j ≤ n →
  ∃ h', rec v h = Ret h' ∧ owns h' v (redacted j) fp ∧
        ∀ l, l ∉ fp → h' !! l = h !! l.

Lemma redact_items_owns l its : ∀ jits fp done h,
  owns_items h its jits fp → l ∉ fp →
  h !! l = Some (ODict (done ++ its)) → NoDup (done ++ its).*1 →
  Forall (λ kj, json_depth kj.2 ≤ n) jits →
  ∃ h', redact_items rec l its h = Ret h' ∧
    h' !! l = Some (ODict (done ++ redact_slots its)) ∧
    owns_items h' its (after_items jits) fp ∧
    (∀ l', l' ≠ l → l' ∉ fp → h' !! l' = h !! l').
Proof.
  induction its as [|[k v] r IH]; intros jits fp done h Hown Hl Hh Hnd Hdepth.
  - inversion Hown; subst. exists h. repeat split; try done; try constructor.
  - inversion Hown as [|k' v' j r' jr fp1 fp2 fp' Hv Hr Hdisj Hsub]; subst.
    apply Forall_cons in Hdepth as [Hdj Hdr]. simpl in Hdj.
    assert (k ∉ done.*1) as Hk.
    { rewrite fmap_app in Hnd. apply NoDup_app in Hnd as (_ & Hnd & _).
      intros Hin. apply (Hnd _ Hin). simpl. set_solver. }
    rewrite redact_items_cons. destruct (is_sensitive sensitive_keys k) eqn:Hsens.
    + set (h1 := setitem_at l k (VStr REDACTED) h).
      assert (h1 = <[l := ODict ((done ++ [(k, VStr REDACTED)]) ++ r)]> h) as Hh1.
      { unfold h1, setitem_at. rewrite Hh. rewrite setitem_app_notin by done.
        by rewrite <- app_assoc. }
      destruct (IH jr fp2 (done ++ [(k, VStr REDACTED)]) h1) as (h' & E & Hl' & Hown' & Hframe).
      * eapply owns_items_weaken; [exact Hr|done|].
        intros l' Hl'. rewrite Hh1. rewrite lookup_insert_ne; [done|]. set_solver.
      * set_solver.
      * rewrite Hh1. apply lookup_insert_eq.
      * rewrite <- app_assoc. simpl. by rewrite !fmap_app in *.
      * done.
      * exists h'. split; [exact E|]. split; [|split].
        -- by rewrite Hl', <- app_assoc, redact_slots_cons, Hsens.
        -- rewrite after_items_cons, Hsens. apply owns_items_cons with fp1 fp2; try done.
           eapply owns_weaken; [exact Hv|done|].
           intros l' Hl1. rewrite Hframe; [|set_solver|set_solver].
           rewrite Hh1. rewrite lookup_insert_ne; [done|]. set_solver.
        -- intros l' Hne Hnot. rewrite Hframe; [|done|set_solver].
           rewrite Hh1. by rewrite lookup_insert_ne.
    + destruct (Hrec v j fp1 h Hv Hdj) as (h1 & E1 & Hv1 & Hframe1).
      rewrite E1.
      destruct (IH jr fp2 (done ++ [(k, v)]) h1) as (h' & E & Hl' & Hown' & Hframe).
      * eapply owns_items_weaken; [exact Hr|done|].
        intros l' Hl'. apply Hframe1. set_solver.
      * set_solver.
      * rewrite Hframe1 by set_solver. by rewrite <- app_assoc.
      * by rewrite <- app_assoc.
      * done.
      * exists h'. split; [exact E|]. split; [|split].
        -- by rewrite Hl', <- app_assoc, redact_slots_cons, Hsens.
        -- rewrite after_items_cons, Hsens. apply owns_items_cons with fp1 fp2; try done.
           eapply owns_weaken; [exact Hv1|done|].
           intros l' Hl1. apply Hframe; set_solver.
        -- intros l' Hne Hnot. rewrite Hframe; [|done|set_solver].
           apply Hframe1. set_solver.
Qed.

Lemma redact_elems_owns its : ∀ jits fp h,
  owns_elems h its jits fp →
  Forall (λ j, json_depth j ≤ n) jits →
  ∃ h', redact_elems rec its h = Ret h' ∧
    owns_elems h' its (map redacted jits) fp ∧
    (∀ l', l' ∉ fp → h' !! l' = h !! l').
Proof.
  induction its as [|v r IH]; intros jits fp h Hown Hdepth.
  - inversion Hown; subst. exists h. repeat split; try done; try constructor.
  - inversion Hown as [|v' j r' jr fp1 fp2 fp' Hv Hr Hdisj Hsub]; subst.
    apply Forall_cons in Hdepth as [Hdj Hdr].
    destruct (Hrec v j fp1 h Hv Hdj) as (h1 & E1 & Hv1 & Hframe1).
    simpl. rewrite E1.
    destruct (IH jr fp2 h1) as (h' & E & Hown' & Hframe).
    + eapply owns_elems_weaken; [exact Hr|done|].
      intros l' Hl'. apply Hframe1. set_solver.
    + done.
    + exists h'. split; [exact E|]. split.
      * simpl. apply owns_elems_cons with fp1 fp2; try done.
        eapply owns_weaken; [exact Hv1|done|].
        intros l' Hl1. apply Hframe; set_solver.
      * intros l' Hnot. rewrite Hframe by set_solver. apply Hframe1. set_solver.
Qed.
End loops.

Lemma redact_slots_keys items : (redact_slots items).*1 = items.*1.
Proof.
  induction items as [|[k v] r IH]; [done|].
  by rewrite redact_slots_cons, !fmap_cons, IH.
Qed.

Lemma owns_items_redacted h its : ∀ jits fp,
  owns_items h its (after_items jits) fp →
  owns_items h (redact_slots its)
    (map (λ '(k, v), (k, if is_sensitive sensitive_keys k then JStr REDACTED
                         else redacted v)) jits) fp.
Proof.
  induction its as [|[k v] r IH]; intros [|[k' j] jr] fp Hown;
    inversion Hown as [|? ? ? ? ? fp1 fp2 ? Hv Hr Hdisj Hsub]; subst.
  - constructor.
  - rewrite redact_slots_cons. simpl.
    apply owns_items_cons with fp1 fp2; try done; [|by apply IH].
    destruct (is_sensitive sensitive_keys _); [constructor|done].
Qed.

Lemma json_depth_dict items n :
  json_depth (JDict items) ≤ S n → Forall (λ kj, json_depth kj.2 ≤ n) items.
Proof.
  simpl. intros H. apply le_S_n in H.
  induction items as [|[k v] r IH]; constructor; simpl in *; [lia|apply IH; lia].
Qed.

Lemma json_depth_list elems n :
  json_depth (JList elems) ≤ S n → Forall (λ j, json_depth j ≤ n) elems.
Proof.
  simpl. intros H. apply le_S_n in H.
  induction elems as [|v r IH]; constructor; simpl in *; [lia|apply IH; lia].
Qed.

Lemma json_depth_pos j : 1 ≤ json_depth j.
Proof. destruct j; simpl; lia. Qed.

(** [_redact_sensitive] on a tree laid out without sharing: it returns,
    turns the tree into its redacted form in place, and touches nothing
    outside the tree. *)
Lemma redact_owns fuel : ∀ v j fp h,
  owns h v j fp → json_depth j ≤ fuel →
  ∃ h', _redact_sensitive fuel v h = Ret h' ∧
        owns h' v (redacted j) fp ∧
        ∀ l, l ∉ fp → h' !! l = h !! l.
Proof.
  induction fuel as [|fuel IH]; intros v j fp h Hown Hdepth.
  { pose proof (json_depth_pos j). lia. }
  inversion Hown as [| | | |l items jitems fp1 ? Hl Hnd Hitems Hnot Hsub
                     |l elems jelems fp1 ? Hl Helems Hnot Hsub]; subst.
  - exists h. repeat split; try done; constructor.
  - exists h. repeat split; try done; constructor.
  - exists h. repeat split; try done; constructor.
  - exists h. repeat split; try done; constructor.
  - destruct (redact_items_owns fuel (_redact_sensitive fuel) IH l items
                jitems fp1 [] h Hitems Hnot Hl Hnd (json_depth_dict _ _ Hdepth))
      as (h' & E & Hl' & Hown' & Hframe).
    exists h'. split; [simpl; by rewrite Hl|]. split.
    + simpl. apply owns_dict with (redact_slots items) fp1; try done.
      * by rewrite redact_slots_keys.
      * by apply owns_items_redacted.
    + intros l' Hl1. apply Hframe; set_solver.
  - destruct (redact_elems_owns fuel (_redact_sensitive fuel) IH elems
                jelems fp1 h Helems (json_depth_list _ _ Hdepth))
      as (h' & E & Hown' & Hframe).
    exists h'. split; [simpl; by rewrite Hl|]. split.
    + simpl. apply owns_list with elems fp1; try done.
      rewrite Hframe; done.
    + intros l' Hl1. apply Hframe; set_solver.
Qed.

(** ** Laying a tree out in the store *)

Lemma distinct_keys_dict items :
  distinct_keys (JDict items) →
  NoDup items.*1 ∧ Forall (λ kj, distinct_keys kj.2) items.
Proof.
  simpl. intros [Hnd H]. split; [done|]. clear Hnd.
  induction items as [|[k v] r IH]; constructor; simpl in *; [tauto|apply IH; tauto].
Qed.

Lemma distinct_keys_list elems :
  distinct_keys (JList elems) → Forall distinct_keys elems.
Proof.
  simpl. induction elems as [|v r IH]; constructor; simpl in *; [tauto|apply IH; tauto].
Qed.

Lemma alloc_fresh o h l h' :
  alloc o h = (l, h') → h !! l = None ∧ h' = <[l := o]> h.
Proof.
  unfold alloc. intros [= <- <-]. split; [|done].
  apply not_elem_of_dom. apply is_fresh.
Qed.

Lemma store_json_owns j : ∀ h v h',
  distinct_keys j → store_json j h = (v, h') →
  owns h' v j (dom h' ∖ dom h) ∧ h ⊆ h'.
Proof.
  induction j as [|b|n|s|items IH|elems IH] using json_induction;
    intros h v h' Hdk E.
  1-4: injection E as <- <-; split; [constructor|done].
  - apply distinct_keys_dict in Hdk as [Hnd Hdk].
    simpl in E. unfold alloc in E.
    destruct (store_items store_json items h) as [vs h1] eqn:Eitems.
    injection E as <- <-.
    assert (owns_items h1 vs items (dom h1 ∖ dom h) ∧ h ⊆ h1 ∧ vs.*1 = items.*1)
      as (Hown & Hsub & Hkeys).
    { clear Hnd. revert h vs h1 Eitems.
      induction items as [|[k j] r IHr]; intros h vs h1 Eitems.
      - injection Eitems as <- <-. split; [constructor|done].
      - simpl in Eitems.
        destruct (store_json j h) as [v ha] eqn:Ej.
        destruct (store_items store_json r ha) as [vs' hb] eqn:Er.
        injection Eitems as <- <-.
        apply Forall_cons in IH as [IHj IHr'], Hdk as [Hdj Hdr].
        destruct (IHj h v ha Hdj Ej) as [Hv Hsub1].
        destruct (IHr IHr' Hdr ha vs' hb Er) as (Hr & Hsub2 & Hk).
        simpl in Hv.
        pose proof (subseteq_dom _ _ Hsub1) as Hd1.
        pose proof (subseteq_dom _ _ Hsub2) as Hd2.
        split; [|split].
        + apply owns_items_cons with (fp1 := (dom ha ∖ dom h : gset loc)) (fp2 := (dom hb ∖ dom ha : gset loc));
            [|done|set_solver|set_solver].
          eapply owns_weaken; [exact Hv|done|].
          intros l' [Hl' _]%elem_of_difference.
          apply elem_of_dom in Hl' as [o Ho].
          rewrite Ho. by eapply lookup_weaken.
        + by etrans.
        + rewrite !fmap_cons. by rewrite Hk. }
    pose proof (subseteq_dom _ _ Hsub) as Hd.
    set (l := fresh (dom h1)).
    assert (l ∉ dom h1) as Hl by apply is_fresh.
    split.
    + apply owns_dict with (items := vs) (fp' := (dom h1 ∖ dom h : gset loc)).
      * apply lookup_insert_eq.
      * by rewrite Hkeys.
      * eapply owns_items_weaken; [exact Hown|done|].
        intros l' [Hl' _]%elem_of_difference.
        rewrite lookup_insert_ne; [done|]. intros <-. done.
      * set_solver.
      * rewrite dom_insert_L. set_solver.
    + etrans; [exact Hsub|]. apply insert_subseteq. by apply not_elem_of_dom.
  - apply distinct_keys_list in Hdk.
    simpl in E. unfold alloc in E.
    destruct (store_elems store_json elems h) as [vs h1] eqn:Eelems.
    injection E as <- <-.
    assert (owns_elems h1 vs elems (dom h1 ∖ dom h) ∧ h ⊆ h1) as (Hown & Hsub).
    { revert h vs h1 Eelems.
      induction elems as [|j r IHr]; intros h vs h1 Eelems.
      - injection Eelems as <- <-. split; [constructor|done].
      - simpl in Eelems.
        destruct (store_json j h) as [v ha] eqn:Ej.
        destruct (store_elems store_json r ha) as [vs' hb] eqn:Er.
        injection Eelems as <- <-.
        apply Forall_cons in IH as [IHj IHr'], Hdk as [Hdj Hdr].
        destruct (IHj h v ha Hdj Ej) as [Hv Hsub1].
        destruct (IHr IHr' Hdr ha vs' hb Er) as (Hr & Hsub2).
        pose proof (subseteq_dom _ _ Hsub1) as Hd1.
        pose proof (subseteq_dom _ _ Hsub2) as Hd2.
        split.
        + apply owns_elems_cons with (fp1 := (dom ha ∖ dom h : gset loc)) (fp2 := (dom hb ∖ dom ha : gset loc));
            [|done|set_solver|set_solver].
          eapply owns_weaken; [exact Hv|done|].
          intros l' [Hl' _]%elem_of_difference.
          apply elem_of_dom in Hl' as [o Ho].
          rewrite Ho. by eapply lookup_weaken.
        + by etrans. }
    pose proof (subseteq_dom _ _ Hsub) as Hd.
    set (l := fresh (dom h1)).
    assert (l ∉ dom h1) as Hl by apply is_fresh.
    split.
    + apply owns_list with (elems := vs) (fp' := (dom h1 ∖ dom h : gset loc)).
      * apply lookup_insert_eq.
      * eapply owns_elems_weaken; [exact Hown|done|].
        intros l' [Hl' _]%elem_of_difference.
        rewrite lookup_insert_ne; [done|]. intros <-. done.
      * set_solver.
      * rewrite dom_insert_L. set_solver.
    + etrans; [exact Hsub|]. apply insert_subseteq. by apply not_elem_of_dom.
Qed.

(** ** Reading a tree back *)

Lemma owns_load_json fuel : ∀ v j fp h,
  owns h v j fp → json_depth j ≤ fuel → load_json fuel h v = Some j.
Proof.
  induction fuel as [|fuel IH]; intros v j fp h Hown Hdepth.
  { pose proof (json_depth_pos j). lia. }
  inversion Hown as [| | | |l items jitems fp1 ? Hl Hnd Hitems Hnot Hsub
                     |l elems jelems fp1 ? Hl Helems Hnot Hsub]; subst;
    try reflexivity.
  - simpl. rewrite Hl.
    apply json_depth_dict in Hdepth.
    cut (mapM (λ '(k, v), pair k <$> load_json fuel h v) items = Some jitems).
    { intros ->. reflexivity. }
    clear Hl Hnd Hnot Hsub Hown.
    revert jitems fp1 Hitems Hdepth.
    induction items as [|[k v] r IHr]; intros jitems fp1 Hitems Hdepth;
      inversion Hitems as [|? ? j ? jr fpa fpb ? Hv Hr Hdisj Hsub]; subst.
    + reflexivity.
    + apply Forall_cons in Hdepth as [Hdj Hdr]. simpl in Hdj.
      simpl. rewrite (IH v j fpa h Hv Hdj). simpl.
      rewrite (IHr jr fpb Hr Hdr). reflexivity.
  - simpl. rewrite Hl.
    apply json_depth_list in Hdepth.
    cut (mapM (load_json fuel h) elems = Some jelems).
    { intros ->. reflexivity. }
    clear Hl Hnot Hsub Hown.
    revert jelems fp1 Helems Hdepth.
    induction elems as [|v r IHr]; intros jelems fp1 Helems Hdepth;
      inversion Helems as [|? j ? jr fpa fpb ? Hv Hr Hdisj Hsub]; subst.
    + reflexivity.
    + apply Forall_cons in Hdepth as [Hdj Hdr].
      simpl. rewrite (IH v j fpa h Hv Hdj). simpl.
      rewrite (IHr jr fpb Hr Hdr). reflexivity.
Qed.

Lemma redacted_depth j : json_depth (redacted j) ≤ json_depth j.
Proof.
  induction j as [| | | |items IH|elems IH] using json_induction; try done.
  - simpl. apply le_n_S.
    induction IH as [|[k v] r Hv Hr IHr]; [done|]. simpl in *.
    destruct (is_sensitive sensitive_keys k); simpl.
    + pose proof (json_depth_pos v). lia.
    + lia.
  - simpl. apply le_n_S.
    induction IH as [|v r Hv Hr IHr]; [done|]. simpl in *. lia.
Qed.

Lemma argument_after_depth j : json_depth (argument_after j) ≤ json_depth j.
Proof.
  destruct j as [| | | |items|elems]; try done.
  - simpl. apply le_n_S.
    induction items as [|[k v] r IHr]; [done|].
    rewrite after_items_cons. simpl.
    pose proof (redacted_depth v).
    destruct (is_sensitive sensitive_keys k); lia.
  - apply (redacted_depth (JList elems)).
Qed.

(** ** [_sanitize_data] on a dict laid out without sharing *)

Lemma _sanitize_data_owns fuel l0 items jitems fp h :
  h !! l0 = Some (ODict items) → NoDup items.*1 →
  owns_items h items jitems fp → l0 ∉ fp → fp ⊆ dom h →
  json_depth (JDict jitems) ≤ fuel →
  ∃ l1 h',
    _sanitize_data fuel (VRef l0) h = Ret (VRef l1, h') ∧
    h !! l1 = None ∧
    owns h' (VRef l1) (redacted (JDict jitems)) ({[l1]} ∪ fp) ∧
    owns h' (VRef l0) (argument_after (JDict jitems)) ({[l0]} ∪ fp).
Proof.
  intros Hl0 Hnd Hitems Hnot Hdom Hdepth.
  set (l1 := fresh (dom h)).
  assert (l1 ∉ dom h) as Hl1 by apply is_fresh.
  assert (l1 ≠ l0) as Hne.
  { intros ->. apply Hl1. apply elem_of_dom. eauto. }
  set (h1 := <[l1 := ODict items]> h).
  assert ((if truthy h (VRef l0) then copy (VRef l0) h
           else Ret (alloc (ODict []) h)) = Ret (l1, h1)) as Ecopy.
  { simpl. rewrite Hl0. case_bool_decide as Hempty; simpl.
    - by subst items.
    - done. }
  destruct fuel as [|fuel]; [simpl in Hdepth; lia|].
  destruct (redact_items_owns fuel (_redact_sensitive fuel) (redact_owns fuel)
              l1 items jitems fp [] h1) as (h' & E & Hl' & Hown' & Hframe).
  { eapply owns_items_weaken; [exact Hitems|done|].
    intros l Hl. unfold h1. rewrite lookup_insert_ne; [done|]. set_solver. }
  { set_solver. }
  { unfold h1. apply lookup_insert_eq. }
  { done. }
  { by apply json_depth_dict. }
  exists l1, h'. split; [|split; [|split]].
  - unfold _sanitize_data. rewrite Ecopy. simpl.
    unfold h1 at 1. rewrite lookup_insert_eq. fold h1. by rewrite E.
  - by apply not_elem_of_dom.
  - simpl. apply owns_dict with (items := redact_slots items) (fp' := fp); try done.
    + by rewrite redact_slots_keys.
    + by apply owns_items_redacted.
    + set_solver.
  - simpl. apply owns_dict with (items := items) (fp' := fp); try done.
    rewrite Hframe; [|done|done]. unfold h1. by rewrite lookup_insert_ne.
Qed.

(** [_sanitize_data] of [audit_trail.py] on a dict freshly laid out in the
    store: it returns a new dict that reads as [redacted], and leaves its
    argument reading as [argument_after]. *)
Lemma _sanitize_data_refines items h fuel data h1 :
  distinct_keys (JDict items) →
  json_depth (JDict items) ≤ fuel →
  store_json (JDict items) h = (data, h1) →
  ∃ sanitized h2,
    _sanitize_data fuel data h1 = Ret (VRef sanitized, h2) ∧
    h1 !! sanitized = None ∧
    load_json fuel h2 (VRef sanitized) = Some (redacted (JDict items)) ∧
    load_json fuel h2 data = Some (argument_after (JDict items)).
Proof.
  intros Hdk Hdepth Estore.
  destruct (store_json_owns _ _ _ _ Hdk Estore) as [Hown _].
  inversion Hown as [| | | |l0 slots jitems fp' ? Hl0 Hnd Hitems Hnot Hsub|]; subst.
  destruct (_sanitize_data_owns fuel l0 slots items fp' h1)
    as (l1 & h2 & E & Hfresh & Hres & Harg); try done.
  { set_solver. }
  exists l1, h2. split; [exact E|]. split; [exact Hfresh|]. split.
  - eapply owns_load_json; [exact Hres|].
    etrans; [apply redacted_depth|done].
  - eapply owns_load_json; [exact Harg|].
    etrans; [apply argument_after_depth|done].
Qed.

Lemma redacted_lookup items i k v :
  items !! i = Some (k, v) →
  ∃ items', redacted (JDict items) = JDict items' ∧
            length items' = length items ∧
            items' !! i = Some (k, if is_sensitive sensitive_keys k
                                   then JStr REDACTED else redacted v).
Proof.
  intros Hi. eexists. split; [reflexivity|]. split; [by rewrite length_map|].
  rewrite list_lookup_fmap, Hi. reflexivity.
Qed.

Lemma log_collector_lookup items i k v :
  items !! i = Some (k, v) →
  ∃ items', LogCollector._sanitize_data (JDict items) = JDict items' ∧
            length items' = length items ∧
            items' !! i = Some (k, if is_dict v then LogCollector._sanitize_data v
                                   else if is_sensitive LogCollector.sensitive_fields k
                                        then JStr REDACTED else v).
Proof.
  intros Hi. eexists. split; [reflexivity|]. split; [by rewrite length_map|].
  rewrite list_lookup_fmap, Hi. simpl. by destruct v.
Qed.

(** ** Substrings *)

Lemma prefix_spec p s : String.prefix p s = true ↔ ∃ b, s = p +:+ b.
Proof.
  revert s. induction p as [|c p IH]; intros s.
  - destruct s; simpl; (split; [intros _; eexists; reflexivity | done]).
  - destruct s as [|c' s]; simpl.
    { split; [done|intros [b Hb]; discriminate Hb]. }
    destruct (ascii_dec c c') as [->|Hne].
    + rewrite IH. split; intros [b Hb]; exists b.
      * change (String c' p +:+ b) with (String c' (p +:+ b)). by rewrite Hb.
      * by injection Hb.
    + split; [done|]. intros [b Hb]. injection Hb as -> _. done.
Qed.

(** [contains needle hay]: [hay] is [a + needle + b] for some [a], [b]. *)
Lemma contains_spec needle hay :
  contains needle hay = true ↔ ∃ a b, hay = a +:+ needle +:+ b.
Proof.
  induction hay as [|c hay IH].
  - change (contains needle "") with (String.prefix needle "" || false).
    rewrite orb_false_r, prefix_spec. split.
    + intros [b Hb]. exists "", b. exact Hb.
    + intros (a & b & Hab). destruct a; [by exists b|discriminate Hab].
  - change (contains needle (String c hay))
      with (String.prefix needle (String c hay) || contains needle hay).
    rewrite orb_true_iff, prefix_spec, IH. split.
    + intros [[b Hb]|(a & b & Hab)].
      * exists "", b. exact Hb.
      * exists (String c a), b. by rewrite Hab.
    + intros (a & b & Hab). destruct a as [|c' a].
      * left. by exists b.
      * right. injection Hab as -> Hab. by exists a, b.
Qed.

Lemma is_sensitive_spec keys k :
  is_sensitive keys k = true ↔
  ∃ s a b, s ∈ keys ∧ lower k = a +:+ s +:+ b.
Proof.
  unfold is_sensitive. rewrite existsb_exists. split.
  - intros (s & Hin & Hc). apply contains_spec in Hc as (a & b & Hab).
    exists s, a, b. split; [by apply list_elem_of_In|done].
  - intros (s & a & b & Hin & Hab). exists s. split; [by apply list_elem_of_In|].
    apply contains_spec. by exists a, b.
Qed.

(** C4, as stated, fails: neither sanitizer uses the list of ten
    substrings, and the one of [log_collector.py] does not look into
    sequences. [log_collector.py] keeps an [ssn] and a password inside a
    list; [audit_trail.py] keeps a [credential]. *)
Lemma sanitize_data_misses_listed_keys :
  is_sensitive spec_sensitive_substrings "ssn" = true ∧
  is_sensitive spec_sensitive_substrings "password" = true ∧
  is_sensitive spec_sensitive_substrings "credential" = true ∧
  LogCollector._sanitize_data (JDict [("ssn", JStr "078-05-1120")])
    = JDict [("ssn", JStr "078-05-1120")] ∧
  LogCollector._sanitize_data
      (JDict [("users", JList [JDict [("password", JStr "hunter2")]])])
    = JDict [("users", JList [JDict [("password", JStr "hunter2")]])] ∧
  (let stored := store_json (JDict [("credential", JStr "hunter2")]) ∅ in
   match AuditTrail._sanitize_data 2 stored.1 stored.2 with
   | Ret (sanitized, h) => load_json 2 h sanitized
   | Raise _ => None
   end) = Some (JDict [("credential", JStr "hunter2")]).
Proof. vm_compute. repeat split. Qed.

(** C4, amended. [_sanitize_data] of [audit_trail.py] returns a new dict
    that reads as [redacted] of its argument: the value of every key whose
    lowercase form contains one of its eight substrings is ["[REDACTED]"],
    every other value is redacted in turn when it is a dict or a list
    (element by element) and kept otherwise. [_sanitize_data] of
    [log_collector.py] returns a dict with the same keys in which a value
    that is no dict is ["[REDACTED]"] under a key whose lowercase form
    contains one of its five substrings and kept under any other key
    (lists included), and a dict under any other key is sanitized in turn;
    what is no dict is returned as it is. *)
Theorem sanitize_data_redacts :
  (AuditTrail.sensitive_keys =
     ["password"; "token"; "secret"; "key"; "authorization";
      "credit_card"; "ssn"; "social_security"] ∧
   LogCollector.sensitive_fields =
     ["password"; "token"; "api_key"; "secret"; "credential"] ∧
   ∀ keys k, is_sensitive keys k = true ↔
             ∃ s a b, s ∈ keys ∧ lower k = a +:+ s +:+ b) ∧
  (∀ items h fuel,
      distinct_keys (JDict items) →
      json_depth (JDict items) ≤ fuel →
      ∃ sanitized h2,
        AuditTrail._sanitize_data fuel (store_json (JDict items) h).1
          (store_json (JDict items) h).2 = Ret (VRef sanitized, h2) ∧
        (store_json (JDict items) h).2 !! sanitized = None ∧
        load_json fuel h2 (VRef sanitized) = Some (AuditTrail.redacted (JDict items))) ∧
  (∀ items i k v,
      items !! i = Some (k, v) →
      ∃ items', AuditTrail.redacted (JDict items) = JDict items' ∧
                length items' = length items ∧
                items' !! i = Some (k, if is_sensitive AuditTrail.sensitive_keys k
                                       then JStr REDACTED else AuditTrail.redacted v)) ∧
  (∀ elems, AuditTrail.redacted (JList elems) = JList (AuditTrail.redacted <$> elems)) ∧
  (∀ j, is_dict j = false → is_list j = false → AuditTrail.redacted j = j) ∧
  (∀ items i k v,
      items !! i = Some (k, v) →
      ∃ items', LogCollector._sanitize_data (JDict items) = JDict items' ∧
                length items' = length items ∧
                (is_dict v = false →
                 is_sensitive LogCollector.sensitive_fields k = true →
                 items' !! i = Some (k, JStr REDACTED)) ∧
                (is_dict v = false →
                 is_sensitive LogCollector.sensitive_fields k = false →
                 items' !! i = Some (k, v)) ∧
                (is_dict v = true →
                 is_sensitive LogCollector.sensitive_fields k = false →
                 items' !! i = Some (k, LogCollector._sanitize_data v))) ∧
  (∀ j, is_dict j = false → LogCollector._sanitize_data j = j).
Proof.
  split; [split; [reflexivity|split; [reflexivity|apply is_sensitive_spec]]|].
  split.
  { intros items h fuel Hdk Hdepth.
    destruct (store_json (JDict items) h) as [data h1] eqn:Estore.
    destruct (_sanitize_data_refines items h fuel data h1 Hdk Hdepth Estore)
      as (sanitized & h2 & E & Hfresh & Hres & _).
    exists sanitized, h2. done. }
  split; [apply redacted_lookup|].
  split; [reflexivity|].
  split; [intros [] ; done|].
  split; [|intros []; done].
  intros items i k v Hi.
  destruct (log_collector_lookup items i k v Hi) as (items' & E & Hlen & Hi').
  exists items'. split; [exact E|]. split; [exact Hlen|].
  repeat split; intros Hd Hs; rewrite Hi', Hd, ?Hs; reflexivity.
Qed.

Lemma sanitize_data_redacts_witness :
  let data := JDict [("password", JStr "x");
                     ("nested", JDict [("token", JStr "y"); ("ok", JStr "z")])] in
  ∃ sanitized h2,
    AuditTrail._sanitize_data 3 (store_json data ∅).1 (store_json data ∅).2
      = Ret (VRef sanitized, h2) ∧
    load_json 3 h2 (VRef sanitized)
      = Some (JDict [("password", JStr "[REDACTED]");
                     ("nested", JDict [("token", JStr "[REDACTED]"); ("ok", JStr "z")])]).
Proof.
  intros data.
  destruct sanitize_data_redacts as (_ & Hrefines & _).
  destruct (Hrefines [("password", JStr "x");
                      ("nested", JDict [("token", JStr "y"); ("ok", JStr "z")])]
              ∅ 3) as (sanitized & h2 & E & _ & Hload).
  - simpl. repeat split; apply NoDup_ListNoDup; repeat constructor;
      simpl; intuition discriminate.
  - simpl. lia.
  - exists sanitized, h2. split; [exact E | exact Hload].
Defined.

(** C5 on [audit_trail.py]: the copy is shallow, so the dict under a
    non-sensitive key is the caller's own object, and its [token] is
    overwritten in place. *)
Theorem sanitize_data_mutates_nested_argument :
  let argument := JDict [("nested", JDict [("token", JStr "y")])] in
  let stored := store_json argument ∅ in
  load_json 3 stored.2 stored.1 = Some argument ∧
  ∃ sanitized h,
    AuditTrail._sanitize_data 3 stored.1 stored.2 = Ret (sanitized, h) ∧
    load_json 3 h stored.1
      = Some (JDict [("nested", JDict [("token", JStr "[REDACTED]")])]).
Proof.
  intros argument stored. split; [vm_compute; reflexivity|].
  eexists _, _. split; vm_compute; reflexivity.
Qed.

Section sealing.
Context `{C : Crypto}.
Variable cfg : Config.

Lemma copy2_inv src dst w u w' :
  copy2 src dst w = (Ret u, w') →
  ∃ c, readable w src c ∧ denied w' = denied w ∧ log w' = log w ∧
    fs w' = <[(if is_dir w dst
               then path_join dst (path_name src) else dst) := File c]> (fs w).
Proof.
  unfold copy2, readable, is_dir. intros E.
  destruct (fs w !! dst) as [[c|]|] eqn:Hdst; run.
  all: eexists; repeat split; try done.
Qed.

Lemma audit_trail_calculate_sha256_inv p w h w' :
  AuditTrail.calculate_sha256 p w = (Ret (Some h), w') →
  ∃ c, readable w p c ∧ h = sha256_hexdigest c.
Proof.
  unfold AuditTrail.calculate_sha256, readable. intros E. run; eauto.
Qed.

Lemma log_signer_calculate_sha256_inv p w h w' :
  LogSigner.calculate_sha256 p w = (Ret (Some h), w') →
  ∃ c, readable w p c ∧ h = sha256_hexdigest c.
Proof.
  unfold LogSigner.calculate_sha256, readable. intros E. run; eauto.
Qed.
End sealing.

Lemma path_join_ne (p name : string) : path_join p name ≠ p.
Proof. unfold path_join. apply app_nonempty_ne. discriminate. Qed.

Section sealing.
Context `{C : Crypto}.
Variable cfg : Config.
Variable upload_file : string → string → outcome unit.

(** The first three steps of both pipelines. *)
Lemma sealing_steps self w w0 u w1 h w2 w3 s :
  HASH_FILE_EXTENSION cfg ≠ "" →
  copy2 (self_log_path self) (snapshot_of self) w = (Ret u, w0) →
  fs w1 = fs w0 → denied w1 = denied w0 →
  readable w0 (snapshot_of self) h.1 → h.2 = sha256_hexdigest h.1 → h.2 ≠ "" →
  fs w2 = <[hash_of cfg self := File h.2]> (fs w1) → denied w2 = denied w1 →
  sign_file cfg (snapshot_of self) w2 = (Ret (Some s), w3) →
  s = signature_of cfg self ∧
  ∃ B sk S, seals cfg self w w3 B sk S.
Proof.
  intros Hext Hcopy Hfs1 Hden1 [Hd1 Hr1] Hh Hne Hfs2 Hden2 Hsign.
  destruct h as [c h]. simpl in *. subst h.
  apply copy2_inv in Hcopy as (B & HB & Hden0 & _ & Hfs0).
  destruct (sign_file_inv cfg _ _ _ _ Hsign)
    as (content & sk & S & [Hcd Hc] & Hsk & Hs & -> & Hsd & Hfs3 & Hden3).
  split; [reflexivity|].
  assert (is_dir w (snapshot_of self) = false) as Hnd.
  { destruct (is_dir w (snapshot_of self)) eqn:Hdir; [|done]. exfalso.
    rewrite Hfs0, lookup_insert_ne in Hr1 by apply path_join_ne.
    unfold is_dir in Hdir. rewrite Hr1 in Hdir. discriminate. }
  rewrite Hnd in Hfs0.
  assert (c = B) as ->.
  { rewrite Hfs0, lookup_insert_eq in Hr1. congruence. }
  assert (hash_of cfg self ≠ snapshot_of self) as Hhs
    by by apply app_nonempty_ne.
  assert (content = B) as ->.
  { rewrite Hfs2, Hfs1, Hfs0, lookup_insert_ne, lookup_insert_eq in Hc by done.
    congruence. }
  exists B, sk, S. unfold seals. split_and!; try done; try congruence.
  - unfold signature_of. congruence.
  - rewrite Hfs3, Hfs2, Hfs1, Hfs0. done.
  - destruct Hsk as (d & [Hdd Hd] & Hl). exists d. split; [|done].
    split; simpl; [congruence|]. by rewrite <- Hfs0, <- Hfs1, <- Hfs2.
Qed.

Lemma audit_trail_process_daily_logs_inv self dp w self' w' :
  HASH_FILE_EXTENSION cfg ≠ "" →
  AuditTrail.process_daily_logs cfg upload_file self dp w = (Ret (true, self'), w') →
  self' = sealed_processor cfg self ∧ ∃ B sk S, seals cfg self w w' B sk S.
Proof.
  intros Hext E. unfold AuditTrail.process_daily_logs in E.
  fold (snapshot_of self) in E. fold (hash_of cfg self) in E.
  run.
  repeat match goal with
  | H : AuditTrail.upload_to_s3 _ _ ?p ?k ?w0 = (_, _) |- _ =>
      let Heq := fresh "Heq" in
      destruct (upload_to_s3_spec cfg upload_file p k w0) as (? & ? & Heq & ? & ? & _);
      rewrite H in Heq; clear H; simplify_eq/=
  end.
  match goal with
  | H : AuditTrail.calculate_sha256 ?p ?w0 = (Ret ?o, _) |- _ =>
      destruct o as [h|]; [|done];
      destruct (audit_trail_calculate_sha256_spec p w0) as (? & ? & Heq & Hfs1 & Hden1);
      rewrite H in Heq;
      apply audit_trail_calculate_sha256_inv in H as (c & Hc & Hh);
      simplify_eq/=
  end.
  match goal with
  | H : AuditTrail.save_hash ?h ?p ?w0 = (_, _) |- _ =>
      destruct (audit_trail_save_hash_spec h p w0) as (? & ? & Heq' & Hden2 & Hfs2);
      rewrite H in Heq'; clear H; simplify_eq/=
  end.
  match goal with
  | H : negb ?b = false |- _ => apply negb_false_iff in H; subst b
  end.
  match goal with
  | H : negb (negb (bool_decide _)) = false |- _ =>
      apply negb_false_iff, negb_true_iff, bool_decide_eq_false_1 in H
  end.
  match goal with
  | Hcopy : copy2 _ _ _ = _, Hsign : sign_file _ _ _ = _ |- _ =>
      destruct (sealing_steps self _ _ _ _ (c, sha256_hexdigest c) _ _ _ Hext Hcopy Hfs1 Hden1
                  (Hc : readable _ _ c) eq_refl ltac:(done) Hfs2 Hden2 Hsign) as [-> (B & sk & S & Hseal)]
  end.
  split; [reflexivity|]. exists B, sk, S.
  unfold seals in *. simpl in *.
  destruct Hseal as ([? ?] & ? & ? & ? & ? & ? & ? & ?). repeat split; try done; congruence.
Qed.

Lemma log_signer_process_daily_logs_inv self w self' w' :
  HASH_FILE_EXTENSION cfg ≠ "" →
  LogSigner.process_daily_logs cfg self w = (Ret (true, self'), w') →
  self' = sealed_processor cfg self ∧ ∃ B sk S, seals cfg self w w' B sk S.
Proof.
  intros Hext E. unfold LogSigner.process_daily_logs in E.
  fold (snapshot_of self) in E. fold (hash_of cfg self) in E.
  run.
  match goal with
  | H : LogSigner.calculate_sha256 ?p ?w0 = (Ret ?o, _) |- _ =>
      destruct o as [h|]; [|done];
      destruct (log_signer_calculate_sha256_spec p w0) as (? & ? & Heq & Hfs1 & Hden1);
      rewrite H in Heq;
      apply log_signer_calculate_sha256_inv in H as (c & Hc & Hh);
      simplify_eq/=
  end.
  match goal with
  | H : LogSigner.save_hash ?h ?p ?w0 = (_, _) |- _ =>
      destruct (log_signer_save_hash_spec h p w0) as (? & ? & Heq' & Hden2 & Hfs2);
      rewrite H in Heq'; clear H; simplify_eq/=
  end.
  match goal with
  | H : negb ?b = false |- _ => apply negb_false_iff in H; subst b
  end.
  match goal with
  | H : negb (negb (bool_decide _)) = false |- _ =>
      apply negb_false_iff, negb_true_iff, bool_decide_eq_false_1 in H
  end.
  match goal with
  | Hcopy : copy2 _ _ _ = _, Hsign : sign_file _ _ _ = _ |- _ =>
      destruct (sealing_steps self _ _ _ _ (c, sha256_hexdigest c) _ _ _ Hext Hcopy Hfs1 Hden1
                  (Hc : readable _ _ c) eq_refl ltac:(done) Hfs2 Hden2 Hsign) as [-> (B & sk & S & Hseal)]
  end.
  split; [reflexivity|]. exists B, sk, S.
  unfold seals in *. simpl in *.
  destruct Hseal as ([? ?] & ? & ? & ? & ? & ? & ? & ?). repeat split; try done; congruence.
Qed.

End sealing.

Lemma string_last_app_r (a y : string) :
  y ≠ "" → string_last (a +:+ y) = string_last y.
Proof. destruct y as [|c b]; [done|]. intros _. apply string_last_app. Qed.

Lemma app_last_ne (a b x y : string) :
  x ≠ "" → y ≠ "" → string_last x ≠ string_last y → a +:+ x ≠ b +:+ y.
Proof.
  intros Hx Hy Hne E. apply (f_equal string_last) in E.
  rewrite !string_last_app_r in E by done. done.
Qed.

Lemma app_assoc_s (a b c : string) : (a +:+ b) +:+ c = a +:+ (b +:+ c).
Proof.
  induction a as [|x a IH]; [done|].
  change ((String x a +:+ b) +:+ c) with (String x ((a +:+ b) +:+ c)).
  by rewrite IH.
Qed.

Section verify_logs_spec.
Context `{C : Crypto}.
Variable cfg : Config.

Lemma verify_logs_run self log_path (signature_path : option string) p w :
  match log_path, self_snapshot_log_path self with
  | None, stored => stored
  | Some l, _ => Some (pathlike_str l)
  end = Some p →
  let lp := resolved_log_path cfg p in
  let sp := match signature_path, self_signature_path self with
            | Some s, _ => s
            | None, Some s => s
            | None, None => default_signature_path cfg lp
            end in
  ∃ b w', verify_logs cfg self log_path (PPath <$> signature_path) w = (Ret b, w') ∧
    fs w' = fs w ∧ denied w' = denied w ∧
    (b = true ↔ (verify_file cfg lp sp w).1 = Ret true).
Proof.
  intros Hp lp sp.
  assert (∀ sp, ∃ b w',
    (b ← path_exists lp;
     if negb b then logger ERROR ("Log file not found: " +:+ lp);; mret false
     else
       b ← path_exists sp;
       if negb b then
         logger ERROR ("Signature file not found: " +:+ sp);; mret false
       else
         result ← verify_file cfg lp sp;
         (if result : bool then
            logger INFO ("Verification successful: The log file "
              +:+ path_name lp +:+ " is authentic and unmodified")
          else
            logger ERROR ("Verification failed: The log file "
              +:+ path_name lp +:+ " may have been tampered with"));;
         mret result) w = (Ret b, w') ∧
    fs w' = fs w ∧ denied w' = denied w ∧
    (b = true ↔ (verify_file cfg lp sp w).1 = Ret true)) as Hcore.
  { clear. intros sp.
    destruct (verify_file_spec cfg lp sp w) as (b & w1 & Hv & Hfs & Hden & Hb).
    unfold_M. simpl.
    destruct (fs w !! lp) as [n|] eqn:Hlp; simpl.
    - destruct (fs w !! sp) as [n'|] eqn:Hsp; simpl.
      + rewrite Hv.
        destruct b; eexists _, _; (split; [reflexivity|]); simpl;
          split_and!; try done.
      + eexists _, _; (split; [reflexivity|]); simpl; split_and!; try done.
        rewrite Hv; simpl. split; [done|]. intros [= ->].
        destruct Hb as [Hb _]. destruct (Hb eq_refl) as (? & ? & ? & _ & [_ ?] & _).
        congruence.
    - eexists _, _; (split; [reflexivity|]); simpl; split_and!; try done.
      rewrite Hv; simpl. split; [done|]. intros [= ->].
      destruct Hb as [Hb _]. destruct (Hb eq_refl) as (? & ? & ? & [_ ?] & _).
      congruence. }
  unfold verify_logs. fold (resolved_log_path cfg).
  destruct log_path as [[s|q]|], (self_snapshot_log_path self) as [stored|],
    signature_path as [given|], (self_signature_path self) as [stored_signature|];
    simpl in *; simplify_eq; fold lp; apply Hcore.
Qed.
End verify_logs_spec.

Lemma count_slash_app (a b : string) :
  count_slash (a +:+ b) = count_slash a + count_slash b.
Proof.
  induction a as [|x a IH]; [done|].
  change (String x a +:+ b) with (String x (a +:+ b)). simpl. rewrite IH. lia.
Qed.

Lemma is_absolute_app (a b : string) :
  is_absolute a = true → is_absolute (a +:+ b) = true.
Proof. by destruct a. Qed.

(** A snapshot of a log that lies in a directory is looked up where it is. *)
Lemma resolved_snapshot_path cfg self :
  is_absolute (self_log_path self) = true ∨ count_slash (self_log_path self) ≠ 0 →
  resolved_log_path cfg (snapshot_of self) = snapshot_of self.
Proof.
  intros Hdir. unfold resolved_log_path, snapshot_of.
  destruct Hdir as [Habs|Hcount].
  - by rewrite is_absolute_app.
  - rewrite count_slash_app.
    destruct (count_slash (self_log_path self)); [done|].
    by rewrite andb_false_r.
Qed.

(** The files of the pipeline are told apart by their last character. *)
Section paths.
Variable cfg : Config.
Variable self : processor.
Hypothesis Hhash : HASH_FILE_EXTENSION cfg = ".sha256".
Hypothesis Hsig : SIGNATURE_FILE_EXTENSION cfg = ".sig".

Lemma hash_path_not_snapshot : hash_of cfg self ≠ snapshot_of self.
Proof. apply app_nonempty_ne. by rewrite Hhash. Qed.

Lemma signature_path_not_snapshot : signature_of cfg self ≠ snapshot_of self.
Proof. apply app_nonempty_ne. by rewrite Hsig. Qed.

Lemma signature_path_not_hash : signature_of cfg self ≠ hash_of cfg self.
Proof.
  unfold signature_of, hash_of. rewrite Hhash, Hsig.
  by apply app_last_ne.
Qed.

Lemma pem_not_sealed (dir name : string) :
  string_last name = Some "m"%char →
  path_join dir name ≠ snapshot_of self ∧
  path_join dir name ≠ hash_of cfg self ∧
  path_join dir name ≠ signature_of cfg self.
Proof.
  intros Hname.
  assert (name ≠ "") as Hne by (by intros ->).
  assert (string_last (path_join dir name) = Some "m"%char) as Hlast.
  { unfold path_join. rewrite <- Hname.
    rewrite string_last_app_r by done.
    change ("/" +:+ name) with ("" +:+ String "/" name).
    rewrite string_last_app. simpl. by destruct name. }
  unfold hash_of, signature_of, snapshot_of. rewrite Hhash, Hsig.
  split_and!; intros E; apply (f_equal string_last) in E; rewrite Hlast in E;
    rewrite !string_last_app_r in E by done; discriminate.
Qed.

Lemma private_key_not_sealed :
  PRIVATE_KEY_FILENAME cfg = "private_key.pem" →
  get_private_key_path cfg ≠ snapshot_of self ∧
  get_private_key_path cfg ≠ hash_of cfg self ∧
  get_private_key_path cfg ≠ signature_of cfg self.
Proof. intros Hk. apply pem_not_sealed. by rewrite Hk. Qed.

Lemma public_key_not_sealed :
  PUBLIC_KEY_FILENAME cfg = "public_key.pem" →
  get_public_key_path cfg ≠ snapshot_of self ∧
  get_public_key_path cfg ≠ hash_of cfg self ∧
  get_public_key_path cfg ≠ signature_of cfg self.
Proof. intros Hk. apply pem_not_sealed. by rewrite Hk. Qed.

End paths.

(** What the seal says about the files of the final world. *)
Lemma seals_files `{C : Crypto} cfg self w w' B sk S :
  HASH_FILE_EXTENSION cfg = ".sha256" →
  SIGNATURE_FILE_EXTENSION cfg = ".sig" →
  seals cfg self w w' B sk S →
  readable w' (snapshot_of self) B ∧
  fs w' !! hash_of cfg self = Some (File (sha256_hexdigest B)) ∧
  readable w' (signature_of cfg self) S ∧
  ∀ p, p ≠ snapshot_of self → p ≠ hash_of cfg self →
       p ≠ signature_of cfg self → fs w' !! p = fs w !! p.
Proof.
  intros Hhash Hsig (HB & Hden & Hsd & Hgd & Hfs & Hne & Hs & Hsk).
  pose proof (hash_path_not_snapshot cfg self Hhash).
  pose proof (signature_path_not_snapshot cfg self Hsig).
  pose proof (signature_path_not_hash cfg self Hhash Hsig).
  unfold readable. rewrite Hden, Hfs. split_and!; try done.
  all: try intros p ???.
  all: repeat (rewrite lookup_insert_ne by done); by rewrite ?lookup_insert_eq.
Qed.

(** The keys that were on disk before the pipeline ran are the keys it
    used and left. *)
Lemma seals_keys `{C : Crypto} cfg self w w' B sk S sk0 :
  HASH_FILE_EXTENSION cfg = ".sha256" →
  SIGNATURE_FILE_EXTENSION cfg = ".sig" →
  PRIVATE_KEY_FILENAME cfg = "private_key.pem" →
  seals cfg self w w' B sk S →
  (private_key_loads cfg w sk0 ↔ sk0 = sk) ∧
  private_key_loads cfg w' sk ∧
  (PUBLIC_KEY_FILENAME cfg = "public_key.pem" →
   ∀ pk, public_key_loads cfg w' pk ↔ public_key_loads cfg w pk).
Proof.
  intros Hhash Hsig Hpriv Hseal.
  destruct (seals_files _ _ _ _ _ _ _ Hhash Hsig Hseal) as (_ & _ & _ & Hframe).
  destruct Hseal as (HB & Hden & Hsd & Hgd & Hfs & Hne & Hs & Hsk).
  destruct (private_key_not_sealed cfg self Hhash Hsig Hpriv) as (? & ? & ?).
  destruct Hsk as (d & [Hdd Hd] & Hl). simpl in Hdd, Hd.
  rewrite !lookup_insert_ne in Hd by done.
  split_and!.
  - split.
    + intros (d' & [_ Hd'] & Hl'). congruence.
    + intros ->. by exists d.
  - exists d. split; [|done]. split; [by rewrite Hden|]. by rewrite Hframe.
  - intros Hpub pk.
    destruct (public_key_not_sealed cfg self Hhash Hsig Hpub) as (? & ? & ?).
    unfold public_key_loads, readable. rewrite Hden. by rewrite Hframe.
Qed.

Lemma process_daily_logs_inv `{C : Crypto} cfg upload_file self date_prefix w self' w' :
  HASH_FILE_EXTENSION cfg = ".sha256" →
  AuditTrail.process_daily_logs cfg upload_file self date_prefix w
    = (Ret (true, self'), w') ∨
  LogSigner.process_daily_logs cfg self w = (Ret (true, self'), w') →
  self' = sealed_processor cfg self ∧ ∃ B sk S, seals cfg self w w' B sk S.
Proof.
  intros Hhash [E|E].
  - eapply audit_trail_process_daily_logs_inv; [|exact E]. by rewrite Hhash.
  - eapply log_signer_process_daily_logs_inv; [|exact E]. by rewrite Hhash.
Qed.

(** X1. When [process_daily_logs] (of either file) answers [True], the
    snapshot holds the bytes the live log had when the call began, the hash
    file holds the SHA-256 digest of those bytes, and the signature file
    holds their signature under the private key that is on disk. *)
Theorem process_daily_logs_seals_the_snapshot `{C : Crypto} (cfg : Config)
    (upload_file : string → string → outcome unit)
    (self self' : processor) (date_prefix : string) (w w' : world) :
  HASH_FILE_EXTENSION cfg = ".sha256" →
  SIGNATURE_FILE_EXTENSION cfg = ".sig" →
  PRIVATE_KEY_FILENAME cfg = "private_key.pem" →
  AuditTrail.process_daily_logs cfg upload_file self date_prefix w
    = (Ret (true, self'), w') ∨
  LogSigner.process_daily_logs cfg self w = (Ret (true, self'), w') →
  ∃ B sk S,
    readable w (self_log_path self) B ∧
    fs w' !! snapshot_of self = Some (File B) ∧
    fs w' !! hash_of cfg self = Some (File (sha256_hexdigest B)) ∧
    fs w' !! signature_of cfg self = Some (File S) ∧
    private_key_loads cfg w' sk ∧
    rsa_sign sk B = Ret S.
Proof.
  intros Hhash Hsig Hpriv E.
  destruct (process_daily_logs_inv _ _ _ _ _ _ _ Hhash E) as (_ & B & sk & S & Hseal).
  destruct (seals_files _ _ _ _ _ _ _ Hhash Hsig Hseal) as ([_ ?] & ? & [_ ?] & _).
  destruct (seals_keys _ _ _ _ _ _ _ sk Hhash Hsig Hpriv Hseal) as (_ & ? & _).
  exists B, sk, S. split_and!; try done; apply Hseal.
Qed.

Lemma process_daily_logs_seals_the_snapshot_witness :
  let live_log := "logs/api_log_2024-05-01.log" in
  let run := @LogSigner.process_daily_logs symbolic_crypto audit_trail_Config
               (Processor live_log None None) live_world in
  ∃ B S,
    fs run.2 !! (live_log +:+ ".snapshot") = Some (File B) ∧
    fs run.2 !! (live_log +:+ ".snapshot.sig") = Some (File S) ∧
    @rsa_sign symbolic_crypto "k1" B = Ret S.
Proof.
  intros live_log run.
  assert (run.1 = Ret (true, Processor live_log (Some (live_log +:+ ".snapshot"))
                               (Some (live_log +:+ ".snapshot.sig")))) as Hrun
    by (vm_compute; reflexivity).
  destruct (@process_daily_logs_seals_the_snapshot symbolic_crypto audit_trail_Config
              refusing_store (Processor live_log None None)
              (Processor live_log (Some (live_log +:+ ".snapshot"))
                 (Some (live_log +:+ ".snapshot.sig")))
              "2024/05/01/" live_world run.2)
    as (B & sk & S & _ & Hsnapshot & _ & Hsignature & Hkey & Hsign).
  - reflexivity.
  - reflexivity.
  - reflexivity.
  - right. rewrite <- Hrun. apply surjective_pairing.
  - exists B, S. split; [exact Hsnapshot|]. split; [exact Hsignature|].
    destruct Hkey as (data & [_ Hdata] & Hload).
    assert (sk = "k1") as <-; [|exact Hsign].
    vm_compute in Hdata. injection Hdata as <-. by injection Hload.
Defined.

Section sealed.
Context `{C : Crypto} `{!IdealSignature C}.
Variable cfg : Config.
Hypothesis Hhash : HASH_FILE_EXTENSION cfg = ".sha256".
Hypothesis Hsig : SIGNATURE_FILE_EXTENSION cfg = ".sig".
Hypothesis Hpriv : PRIVATE_KEY_FILENAME cfg = "private_key.pem".
Hypothesis Hpub : PUBLIC_KEY_FILENAME cfg = "public_key.pem".

(** After a seal, in any later state where the public key is the one of
    the signing key, [verify_logs] on the sealed processor answers [True]
    exactly when the primitive accepts what the two files now hold. *)
Lemma sealed_verify_logs self w w' B sk S w'' log_path signature_path :
  is_absolute (self_log_path self) = true ∨ count_slash (self_log_path self) ≠ 0 →
  seals cfg self w w' B sk S →
  log_path = None ∨ log_path = Some (PPath (snapshot_of self)) →
  signature_path = None ∨ signature_path = Some (signature_of cfg self) →
  ∃ b w3, verify_logs cfg (sealed_processor cfg self) log_path (PPath <$> signature_path) w''
            = (Ret b, w3) ∧
    (b = true ↔
     (verify_file cfg (snapshot_of self) (signature_of cfg self) w'').1 = Ret true).
Proof.
  intros Hdir Hseal Hl Hs.
  destruct (verify_logs_run cfg (sealed_processor cfg self) log_path signature_path
              (snapshot_of self) w'') as (b & w3 & E & _ & _ & Hb).
  { by destruct Hl as [-> | ->]. }
  exists b, w3. split; [exact E|].
  rewrite resolved_snapshot_path in Hb by done.
  by destruct Hs as [-> | ->].
Qed.

End sealed.

(** X2. Sealing, then verifying. With an ideal signature primitive, a
    matching key pair on disk and a live log that lies in a directory (as
    the path [AuditLogger] builds does), a run of [process_daily_logs] (of
    either file) that answers [True] is followed by a [verify_logs] that
    answers [True], both when it is called without arguments and when it
    is handed the stored paths, as the scripts do. *)
Theorem process_daily_logs_then_verify_logs `{C : Crypto} `{!IdealSignature C}
    (cfg : Config) (upload_file : string → string → outcome unit)
    (self self' : processor) (date_prefix : string) (sk : PrivKey) (w w' : world) :
  HASH_FILE_EXTENSION cfg = ".sha256" →
  SIGNATURE_FILE_EXTENSION cfg = ".sig" →
  PRIVATE_KEY_FILENAME cfg = "private_key.pem" →
  PUBLIC_KEY_FILENAME cfg = "public_key.pem" →
  is_absolute (self_log_path self) = true ∨ count_slash (self_log_path self) ≠ 0 →
  private_key_loads cfg w sk →
  public_key_loads cfg w (public_key_of sk) →
  AuditTrail.process_daily_logs cfg upload_file self date_prefix w
    = (Ret (true, self'), w') ∨
  LogSigner.process_daily_logs cfg self w = (Ret (true, self'), w') →
  (verify_logs cfg self' None None w').1 = Ret true ∧
  (verify_logs cfg self' (PPath <$> self_snapshot_log_path self')
     (PPath <$> self_signature_path self') w').1 = Ret true.
Proof.
  intros Hhash Hsig Hpriv Hpub Hdir Hsk Hpk E.
  destruct (process_daily_logs_inv _ _ _ _ _ _ _ Hhash E) as (-> & B & sk' & S & Hseal).
  destruct (seals_files _ _ _ _ _ _ _ Hhash Hsig Hseal) as (HrB & _ & HrS & _).
  destruct (seals_keys _ _ _ _ _ _ _ sk Hhash Hsig Hpriv Hseal) as (Hsame & _ & Hpubs).
  apply Hsame in Hsk as ->.
  assert ((verify_file cfg (snapshot_of self) (signature_of cfg self) w').1
          = Ret true) as Hverify.
  { eapply verify_file_ideal; [exact HrB|exact HrS| |apply Hseal].
    by apply Hpubs. }
  split.
  - destruct (sealed_verify_logs cfg self w w' B sk' S w' None None)
      as (b & w3 & Hrun & Hb); auto.
    simpl in *. rewrite Hrun. simpl. f_equal. by apply Hb.
  - destruct (sealed_verify_logs cfg self w w' B sk' S w'
                (Some (PPath (snapshot_of self))) (Some (signature_of cfg self)))
      as (b & w3 & Hrun & Hb); auto.
    simpl in *. rewrite Hrun. simpl. f_equal. by apply Hb.
Qed.

Lemma process_daily_logs_then_verify_logs_witness :
  let live_log := "logs/api_log_2024-05-01.log" in
  let run := @AuditTrail.process_daily_logs symbolic_crypto audit_trail_Config
               refusing_store (Processor live_log None None) "2024/05/01/" live_world in
  let sealed := Processor live_log (Some (live_log +:+ ".snapshot"))
                  (Some (live_log +:+ ".snapshot.sig")) in
  (@verify_logs symbolic_crypto audit_trail_Config sealed None None run.2).1 = Ret true.
Proof.
  intros live_log run sealed.
  assert (run.1 = Ret (true, sealed)) as Hrun by (vm_compute; reflexivity).
  refine (proj1 (@process_daily_logs_then_verify_logs symbolic_crypto
                   symbolic_crypto_ideal audit_trail_Config refusing_store
                   (Processor live_log None None) sealed "2024/05/01/" "k1"
                   live_world run.2 _ _ _ _ _ _ _ _)).
  - reflexivity.
  - reflexivity.
  - reflexivity.
  - reflexivity.
  - right. vm_compute. lia.
  - exists "k1". split; [|reflexivity]. split; [vm_compute; set_solver | reflexivity].
  - exists "k1". split; [|reflexivity]. split; [vm_compute; set_solver | reflexivity].
  - left. rewrite <- Hrun. apply surjective_pairing.
Defined.

(** X3. A sealed log is tamper-evident, for an ideal signature primitive
    and a matching pair of keys. Suppose that the signature primitive is
    ideal (a signature verifies under a public key exactly for the bytes
    signed under its private key, and no two contents have the same
    signature), that the key files hold a private key and its public key,
    that the log path lies in a directory, that the extensions and the
    names of the key files are those of [Config], and that
    [process_daily_logs] (of either file) answered [True]. Then in any later state of the files
    in which the same paths can be opened, the public key file is what it
    was and at least one of the snapshot and its signature file is what it
    was, [verify_logs] returns, and it answers [True] exactly when both
    files are what they were. *)
Theorem sealed_logs_are_tamper_evident `{C : Crypto} `{!IdealSignature C}
    (cfg : Config) (upload_file : string → string → outcome unit)
    (self self' : processor) (date_prefix : string) (sk : PrivKey)
    (w w' w'' : world) :
  HASH_FILE_EXTENSION cfg = ".sha256" →
  SIGNATURE_FILE_EXTENSION cfg = ".sig" →
  PRIVATE_KEY_FILENAME cfg = "private_key.pem" →
  PUBLIC_KEY_FILENAME cfg = "public_key.pem" →
  is_absolute (self_log_path self) = true ∨ count_slash (self_log_path self) ≠ 0 →
  private_key_loads cfg w sk →
  public_key_loads cfg w (public_key_of sk) →
  AuditTrail.process_daily_logs cfg upload_file self date_prefix w
    = (Ret (true, self'), w') ∨
  LogSigner.process_daily_logs cfg self w = (Ret (true, self'), w') →
  denied w'' = denied w' →
  fs w'' !! get_public_key_path cfg = fs w' !! get_public_key_path cfg →
  fs w'' !! snapshot_of self = fs w' !! snapshot_of self ∨
  fs w'' !! signature_of cfg self = fs w' !! signature_of cfg self →
  ∃ b, (verify_logs cfg self' None None w'').1 = Ret b ∧
       (b = true ↔
        fs w'' !! snapshot_of self = fs w' !! snapshot_of self ∧
        fs w'' !! signature_of cfg self = fs w' !! signature_of cfg self).
Proof.
  intros Hhash Hsig Hpriv Hpub Hdir Hsk Hpk E Hden Hkey Hintact.
  destruct (process_daily_logs_inv _ _ _ _ _ _ _ Hhash E) as (-> & B & sk' & S & Hseal).
  destruct (seals_files _ _ _ _ _ _ _ Hhash Hsig Hseal) as ([HdB HB] & _ & [HdS HS] & _).
  destruct (seals_keys _ _ _ _ _ _ _ sk Hhash Hsig Hpriv Hseal) as (Hsame & _ & Hpubs).
  apply Hsame in Hsk as ->.
  assert (public_key_loads cfg w'' (public_key_of sk')) as Hpk''.
  { apply Hpubs in Hpk; [|done]. unfold public_key_loads, readable in *.
    by rewrite Hden, Hkey. }
  assert (rsa_sign sk' B = Ret S) as Hsign by apply Hseal.
  destruct (sealed_verify_logs cfg self w w' B sk' S w'' None None)
    as (b & w3 & Hrun & Hb); auto.
  simpl in Hrun. rewrite Hrun.
  exists b. split; [reflexivity|]. rewrite Hb. clear Hb Hrun.
  split.
  - intros Hv.
    destruct (verify_file_spec cfg (snapshot_of self) (signature_of cfg self) w'')
      as (b' & w4 & Hrun & _ & _ & Hb').
    rewrite Hrun in Hv. injection Hv as ->.
    destruct Hb' as [Hb' _].
    destruct (Hb' eq_refl) as (B' & S' & pk & HB' & HS' & Hpk' & Hverify).
    assert (rsa_sign sk' B' = Ret S') as Hsign'.
    { eapply verify_file_ideal; [exact HB'|exact HS'|exact Hpk''|].
      rewrite Hrun. reflexivity. }
    destruct HB' as [_ HB'], HS' as [_ HS'].
    destruct Hintact as [Hi|Hi].
    + split; [exact Hi|]. rewrite Hi, HB in HB'. injection HB' as <-.
      rewrite HS, HS'. congruence.
    + split; [|exact Hi]. rewrite Hi, HS in HS'. injection HS' as <-.
      rewrite HB, HB'. do 2 f_equal. by eapply sign_inj.
  - intros [HiB HiS].
    eapply verify_file_ideal; [| |exact Hpk''|exact Hsign].
    + split; [by rewrite Hden|]. by rewrite HiB.
    + split; [by rewrite Hden|]. by rewrite HiS.
Qed.

Lemma sealed_logs_are_tamper_evident_witness :
  let live_log := "logs/api_log_2024-05-01.log" in
  let run := @LogSigner.process_daily_logs symbolic_crypto audit_trail_Config
               (Processor live_log None None) live_world in
  let sealed := Processor live_log (Some (live_log +:+ ".snapshot"))
                  (Some (live_log +:+ ".snapshot.sig")) in
  let tampered := World (<[live_log +:+ ".snapshot" := File "AUDIT: {tampered}"]> (fs run.2))
                    (denied run.2) (log run.2) in
  (@verify_logs symbolic_crypto audit_trail_Config sealed None None tampered).1 = Ret false.
Proof.
  intros live_log run sealed tampered.
  assert (run.1 = Ret (true, sealed)) as Hrun by (vm_compute; reflexivity).
  destruct (@sealed_logs_are_tamper_evident symbolic_crypto symbolic_crypto_ideal
              audit_trail_Config refusing_store (Processor live_log None None) sealed
              "2024/05/01/" "k1" live_world run.2 tampered) as (b & Hb & Hiff).
  - reflexivity.
  - reflexivity.
  - reflexivity.
  - reflexivity.
  - right. vm_compute. lia.
  - exists "k1". split; [|reflexivity]. split; [vm_compute; set_solver | reflexivity].
  - exists "k1". split; [|reflexivity]. split; [vm_compute; set_solver | reflexivity].
  - right. rewrite <- Hrun. apply surjective_pairing.
  - reflexivity.
  - vm_compute. reflexivity.
  - right. vm_compute. reflexivity.
  - destruct b; [|exact Hb]. exfalso.
    destruct Hiff as [Hiff _]. destruct (Hiff eq_refl) as [Hsnapshot _].
    vm_compute in Hsnapshot. discriminate.
Defined.

(** X4. [verify_logs] answers [True] only for a log that it has verified.
    For a log path that is a [Path], given or stored by an earlier
    [process_daily_logs]: whenever the answer is [True], the log file (a
    bare file name is looked up in [LOG_DIR]) and the signature file (the
    one given, else the one stored, else [SIGNATURES_DIR/<name>.sig]) were
    read, the public key file was loaded, and the primitive accepted the
    signature for the bytes of the log file under that key. *)
Theorem verify_logs_fails_closed `{C : Crypto} (cfg : Config) (self : processor)
    (log_path : option string) (signature_path : option pathlike) (w w' : world) :
  verify_logs cfg self (PPath <$> log_path) signature_path w = (Ret true, w') →
  ∃ p sp content signature pk,
    (log_path = Some p ∨ log_path = None ∧ self_snapshot_log_path self = Some p) ∧
    (signature_path = Some (PPath sp) ∨
     signature_path = None ∧ self_signature_path self = Some sp ∨
     signature_path = None ∧ self_signature_path self = None ∧
     sp = default_signature_path cfg (resolved_log_path cfg p)) ∧
    readable w (resolved_log_path cfg p) content ∧
    readable w sp signature ∧
    public_key_loads cfg w pk ∧
    rsa_verify pk signature content = Ret tt.
Proof.
  intros E.
  assert (∃ p, (log_path = Some p ∨ log_path = None ∧ self_snapshot_log_path self = Some p) ∧
               match PPath <$> log_path, self_snapshot_log_path self with
               | None, Some p => Some (PPath p)
               | _, _ => PPath <$> log_path
               end = Some (PPath p)) as (p & Hp & Ep).
  { destruct log_path as [p|]; simpl; [exists p; by split; [left|]|].
    destruct (self_snapshot_log_path self) as [p|] eqn:Es; [exists p; split; [right|]; done|].
    exfalso. unfold verify_logs in E. rewrite Es in E. simpl in E. discriminate E. }
  unfold verify_logs in E. rewrite Ep in E.
  fold (resolved_log_path cfg p) in E.
  set (lp := resolved_log_path cfg p) in *.
  cbv [mbind M_bind path_exists] in E.
  destruct (bool_decide (is_Some (fs w !! lp))) eqn:Elp; rewrite ?Elp in E;
    [|unfold_M; simpl in E; discriminate E].
  change (negb true) with false in E. cbv beta iota in E.
  assert (∃ sp,
    (signature_path = Some (PPath sp) ∨
     signature_path = None ∧ self_signature_path self = Some sp ∨
     signature_path = None ∧ self_signature_path self = None ∧
     sp = default_signature_path cfg lp) ∧
    match
      match signature_path, self_signature_path self with
      | None, Some p => Some (PPath p)
      | _, _ => signature_path
      end
    with
    | None => Some (PPath (path_join (SIGNATURES_DIR cfg)
                     (path_name lp +:+ SIGNATURE_FILE_EXTENSION cfg)))
    | Some sp => Some sp
    end = Some (PPath sp)) as (sp & Hsp & Esp).
  { destruct signature_path as [[s|sp]|].
    - exfalso. unfold_M. simpl in E. by inversion E.
    - exists sp. split; [by left|done].
    - destruct (self_signature_path self) as [sp|].
      + exists sp. split; [right; left|]; done.
      + eexists. split; [right; right; done|done]. }
  rewrite Esp in E. cbv beta iota in E.
  destruct (bool_decide (is_Some (fs w !! sp))) eqn:Esig; rewrite ?Esig in E;
    [|unfold_M; simpl in E; discriminate E].
  change (negb true) with false in E. cbv beta iota in E.
  destruct (verify_file_spec cfg lp sp w) as (b & w1 & Ev & _ & _ & Hb).
  rewrite Ev in E.
  assert (b = true) as -> by (destruct b; unfold_M; simpl in E; congruence).
  destruct Hb as [Hb _]. destruct (Hb eq_refl) as (content & signature & pk & H1 & H2 & H3 & H4).
  exists p, sp, content, signature, pk. done.
Qed.

Lemma verify_logs_fails_closed_witness :
  let snapshot := "logs/api_log_2024-05-01.log.snapshot" in
  let signed := (@sign_file symbolic_crypto audit_trail_Config snapshot example_world).2 in
  ∃ sp content signature pk,
    readable signed snapshot content ∧
    readable signed sp signature ∧
    @rsa_verify symbolic_crypto pk signature content = Ret tt.
Proof.
  intros snapshot signed.
  destruct (@verify_logs_fails_closed symbolic_crypto audit_trail_Config
              (Processor "logs/api_log_2024-05-01.log" None None)
              (Some snapshot) (Some (PPath (snapshot +:+ ".sig"))) signed _
              ltac:(vm_compute; reflexivity))
    as (p & sp & content & signature & pk & [Hp|[Hp _]] & _ & Hlog & Hsig & _ & Hverify);
    [|discriminate Hp].
  injection Hp as <-. by exists sp, content, signature, pk.
Defined.

(** X5. Only the log path of [verify_logs] may be a [str]: with a
    signature path that is a [str] and a log file that exists the call
    raises [AttributeError], where [verify_file] would have converted
    it. *)
Theorem verify_logs_str_signature_path_raises `{C : Crypto} (cfg : Config)
    (self : processor) (log_path : pathlike) (signature_path : string) (w : world) :
  is_Some (fs w !! resolved_log_path cfg (pathlike_str log_path)) →
  verify_logs cfg self (Some log_path) (Some (PStr signature_path)) w
  = (Raise (Exn "AttributeError" "'str' object has no attribute 'exists'"), w).
Proof.
  intros Hexists. unfold verify_logs. fold (resolved_log_path cfg).
  destruct log_path as [s|p], (self_snapshot_log_path self),
    (self_signature_path self); simpl in *; unfold_M; simpl;
    rewrite bool_decide_eq_true_2 by done; reflexivity.
Qed.

Lemma verify_logs_str_signature_path_raises_witness :
  @verify_logs symbolic_crypto audit_trail_Config
    (Processor "logs/api_log_2024-05-01.log" None None)
    (Some (PStr "logs/api_log_2024-05-01.log.snapshot"))
    (Some (PStr "logs/api_log_2024-05-01.log.snapshot.sig")) example_world
  = (Raise (Exn "AttributeError" "'str' object has no attribute 'exists'"), example_world).
Proof.
  apply (@verify_logs_str_signature_path_raises symbolic_crypto).
  vm_compute. eauto.
Defined.

Lemma generate_keys_writes `{C : Crypto} cfg generated w message w' :
  (AuditTrail.generate_keys cfg generated w = (Ret (true, message), w') ∧
   message ≠ "Keys already exist") ∨
  LogSigner.generate_keys cfg generated w = (Ret (true, message), w') →
  ∃ sk private_pem public_pem,
    generated = Ret sk ∧
    private_bytes sk = Ret private_pem ∧
    public_bytes (public_key_of sk) = Ret public_pem ∧
    (get_private_key_path cfg ∉ denied w) ∧
    (get_public_key_path cfg ∉ denied w) ∧
    denied w' = denied w ∧
    fs w' = <[get_public_key_path cfg := File public_pem]>
              (<[get_private_key_path cfg := File private_pem]> (fs w)).
Proof.
  intros [[E Hm]|E].
  - unfold AuditTrail.generate_keys in E. run.
    all: eexists _, _, _; split_and!; try done.
  - unfold LogSigner.generate_keys in E. run.
    all: eexists _, _, _; split_and!; try done.
Qed.

(** X6. Keys that [generate_keys] (of either file) has just written load
    again as a matching pair, provided the PEM encodings read back as the
    keys they encode and the two key files have different names
    ([generate_keys] of [audit_trail.py] writes only when it does not
    answer "Keys already exist"). *)
Theorem generate_keys_then_load_keys `{C : Crypto} (cfg : Config)
    (generated : outcome PrivKey) (message : string) (w w' : world) :
  (∀ sk pem, private_bytes sk = Ret pem → load_pem_private_key pem = Ret sk) →
  (∀ pk pem, public_bytes pk = Ret pem → load_pem_public_key pem = Ret pk) →
  PRIVATE_KEY_FILENAME cfg ≠ PUBLIC_KEY_FILENAME cfg →
  (AuditTrail.generate_keys cfg generated w = (Ret (true, message), w') ∧
   message ≠ "Keys already exist") ∨
  LogSigner.generate_keys cfg generated w = (Ret (true, message), w') →
  ∃ sk, generated = Ret sk ∧
        (_load_private_key cfg w').1 = Ret (Some sk) ∧
        (_load_public_key cfg w').1 = Ret (Some (public_key_of sk)).
Proof.
  intros Hprivate Hpublic Hnames E.
  destruct (generate_keys_writes _ _ _ _ _ E)
    as (sk & private_pem & public_pem & -> & Hpriv & Hpub & Hd1 & Hd2 & Hden & Hfs).
  assert (get_public_key_path cfg ≠ get_private_key_path cfg) as Hpaths.
  { unfold get_public_key_path, get_private_key_path, path_join.
    intros Heq. do 2 apply (inj (String.app _)) in Heq. congruence. }
  exists sk. split; [reflexivity|]. split.
  - destruct (_load_private_key_spec cfg w') as (r & w1 & -> & _ & _ & Hr).
    simpl. f_equal. apply Hr. exists private_pem. split; [|by apply Hprivate].
    split; [by rewrite Hden|]. rewrite Hfs.
    by rewrite lookup_insert_ne, lookup_insert_eq.
  - destruct (_load_public_key_spec cfg w') as (r & w1 & -> & _ & _ & Hr).
    simpl. f_equal. apply Hr. exists public_pem. split; [|by apply Hpublic].
    split; [by rewrite Hden|]. rewrite Hfs. by rewrite lookup_insert_eq.
Qed.

Lemma generate_keys_then_load_keys_witness :
  let w' := (@AuditTrail.generate_keys symbolic_crypto audit_trail_Config (Ret "k2")
               daily_world).2 in
  (@_load_private_key symbolic_crypto audit_trail_Config w').1 = Ret (Some "k2") ∧
  (@_load_public_key symbolic_crypto audit_trail_Config w').1 = Ret (Some "k2").
Proof.
  intros w'.
  destruct (@generate_keys_then_load_keys symbolic_crypto audit_trail_Config
              (Ret "k2") "Keys generated successfully" daily_world w')
    as (sk & Hsk & Hprivate & Hpublic).
  - intros sk pem [= ->]. reflexivity.
  - intros pk pem [= ->]. reflexivity.
  - discriminate.
  - left. split; [|discriminate]. vm_compute. reflexivity.
  - injection Hsk as <-. split; [exact Hprivate | exact Hpublic].
Defined.

(** X7. [_sanitize_data] of [log_collector.py] is idempotent: sanitizing
    its result again gives the same data. *)
Theorem log_collector_sanitize_data_idempotent (data : json) :
  LogCollector._sanitize_data (LogCollector._sanitize_data data)
  = LogCollector._sanitize_data data.
Proof.
  induction data as [| | | |items IH|elems IH] using json_induction; try done.
  simpl. f_equal. rewrite map_map.
  induction IH as [|[k v] r Hv Hr IHr]; [done|].
  simpl in *. rewrite IHr. f_equal. f_equal.
  destruct v; simpl in *; try done.
  all: destruct (is_sensitive LogCollector.sensitive_fields k) eqn:Hk; simpl;
    by rewrite ?Hk.
Qed.

Lemma redacted_idempotent j : redacted (redacted j) = redacted j.
Proof.
  induction j as [| | | |items IH|elems IH] using json_induction; try done.
  - simpl. f_equal. rewrite map_map.
    induction IH as [|[k v] r Hv Hr IHr]; [done|].
    simpl in *. rewrite IHr. f_equal. f_equal.
    destruct (is_sensitive sensitive_keys k) eqn:Hk; by rewrite ?Hk.
  - simpl. f_equal. rewrite map_map.
    induction IH as [|v r Hv Hr IHr]; [done|].
    simpl in *. by rewrite IHr, Hv.
Qed.

(** A redacted tree is what a further call leaves of it. *)
Lemma argument_after_redacted j : argument_after (redacted j) = redacted j.
Proof.
  destruct j as [| | | |items|elems]; try done.
  - simpl. f_equal. unfold after_items. rewrite map_map.
    induction items as [|[k v] r IHr]; [done|].
    simpl. rewrite IHr. f_equal. f_equal.
    destruct (is_sensitive sensitive_keys k) eqn:Hk; [done|].
    apply redacted_idempotent.
  - apply (redacted_idempotent (JList elems)).
Qed.

(** The footprint of a tree can be taken inside the store. *)
Lemma owns_tight h :
  (∀ v j fp, owns h v j fp → owns h v j (fp ∩ dom h)) ∧
  (∀ items jitems fp, owns_items h items jitems fp →
     owns_items h items jitems (fp ∩ dom h)) ∧
  (∀ elems jelems fp, owns_elems h elems jelems fp →
     owns_elems h elems jelems (fp ∩ dom h)).
Proof.
  apply owns_mutind; intros; try by constructor.
  - eapply owns_dict; [done|done|eassumption| |].
    + set_solver.
    + assert (l ∈ dom h) by (apply elem_of_dom; eauto). set_solver.
  - eapply owns_list; [done|eassumption| |].
    + set_solver.
    + assert (l ∈ dom h) by (apply elem_of_dom; eauto). set_solver.
  - eapply owns_items_cons; [eassumption|eassumption| |]; set_solver.
  - eapply owns_elems_cons; [eassumption|eassumption| |]; set_solver.
Qed.

(** X8. [_sanitize_data] of [audit_trail.py] is idempotent on the store:
    called on its own result it returns one more new dict that reads as
    the first result does, and the first result still reads the same
    (nothing is left to redact in place). *)
Theorem sanitize_data_twice (items : list (string * json)) (h : heap) (fuel : nat) :
  distinct_keys (JDict items) →
  json_depth (JDict items) ≤ fuel →
  ∃ once h2 twice h3,
    _sanitize_data fuel (store_json (JDict items) h).1 (store_json (JDict items) h).2
      = Ret (VRef once, h2) ∧
    _sanitize_data fuel (VRef once) h2 = Ret (VRef twice, h3) ∧
    once ≠ twice ∧
    load_json fuel h3 (VRef twice) = load_json fuel h2 (VRef once) ∧
    load_json fuel h3 (VRef once) = load_json fuel h2 (VRef once) ∧
    load_json fuel h2 (VRef once) = Some (redacted (JDict items)).
Proof.
  intros Hdk Hdepth.
  destruct (store_json (JDict items) h) as [data h1] eqn:Estore. simpl.
  destruct (store_json_owns _ _ _ _ Hdk Estore) as [Hown _].
  inversion Hown as [| | | |l0 slots jitems fp' ? Hl0 Hnd Hitems Hnot Hsub|]; subst.
  destruct (_sanitize_data_owns fuel l0 slots items fp' h1)
    as (l1 & h2 & E & Hfresh & Hres & _); try done.
  { set_solver. }
  apply (proj1 (owns_tight h2)) in Hres.
  remember (redacted (JDict items)) as once eqn:Honce.
  assert (∃ jitems1, once = JDict jitems1) as [jitems1 ->] by (subst once; simpl; eauto).
  inversion Hres as [| | | |? slots1 ? fp1 ? Hl1 Hnd1 Hitems1 Hnot1 Hsub1|]; subst.
  assert (json_depth (JDict jitems1) ≤ fuel) as Hdepth1.
  { rewrite Honce. etrans; [apply (redacted_depth (JDict items))|done]. }
  apply (proj1 (proj2 (owns_tight h2))) in Hitems1.
  destruct (_sanitize_data_owns fuel l1 slots1 jitems1 (fp1 ∩ dom h2) h2)
    as (l2 & h3 & E' & Hfresh' & Hres' & Harg'); try done.
  { set_solver. }
  { set_solver. }
  assert (redacted (JDict jitems1) = JDict jitems1) as Hr.
  { rewrite Honce. apply (redacted_idempotent (JDict items)). }
  assert (argument_after (JDict jitems1) = JDict jitems1) as Ha.
  { rewrite Honce. apply (argument_after_redacted (JDict items)). }
  rewrite Hr in Hres'. rewrite Ha in Harg'.
  assert (load_json fuel h2 (VRef l1) = Some (JDict jitems1)) as Hload.
  { eapply owns_load_json; [|exact Hdepth1].
    eapply owns_dict; [exact Hl1|exact Hnd1|exact Hitems1| |reflexivity].
    set_solver. }
  exists l1, h2, l2, h3. split_and!; try done.
  - intros ->. rewrite Hl1 in Hfresh'. discriminate.
  - rewrite Hload. by eapply owns_load_json.
  - rewrite Hload. by eapply owns_load_json.
  - rewrite Hload. by rewrite Honce.
Qed.

Lemma sanitize_data_twice_witness :
  let data := JDict [("password", JStr "x");
                     ("nested", JDict [("token", JStr "y"); ("ok", JStr "z")])] in
  ∃ once h2 twice h3,
    _sanitize_data 3 (store_json data ∅).1 (store_json data ∅).2 = Ret (VRef once, h2) ∧
    _sanitize_data 3 (VRef once) h2 = Ret (VRef twice, h3) ∧
    load_json 3 h3 (VRef twice) = load_json 3 h2 (VRef once).
Proof.
  intros data.
  destruct (sanitize_data_twice
              [("password", JStr "x");
               ("nested", JDict [("token", JStr "y"); ("ok", JStr "z")])] ∅ 3)
    as (once & h2 & twice & h3 & E1 & E2 & _ & Hload & _).
  - simpl. split_and!; try done.
    + apply NoDup_cons. split; [set_solver|]. apply NoDup_singleton.
    + apply NoDup_cons. split; [set_solver|]. apply NoDup_singleton.
  - simpl. lia.
  - exists once, h2, twice, h3. split; [exact E1|]. split; [exact E2|exact Hload].
Defined.

(** ** Redaction in place, whatever the layout of the store *)

Lemma slot_kept_refl slot : slot_kept slot slot.
Proof. split; [done|by left]. Qed.

Lemma slot_kept_trans s1 s2 s3 : slot_kept s1 s2 → slot_kept s2 s3 → slot_kept s1 s3.
Proof.
  intros [Hk1 Hv1] [Hk2 Hv2]. split; [congruence|].
  destruct Hv2 as [Hv2|[Hs Hv2]].
  - rewrite Hv2. exact Hv1.
  - right. split; [congruence|done].
Qed.

Lemma object_kept_refl o : object_kept o o.
Proof.
  destruct o as [items|elems]; simpl; [|done].
  induction items; constructor; [apply slot_kept_refl|done].
Qed.

Lemma object_kept_trans o1 o2 o3 : object_kept o1 o2 → object_kept o2 o3 → object_kept o1 o3.
Proof.
  destruct o1 as [i1|e1], o2 as [i2|e2], o3 as [i3|e3]; simpl; try done.
  - intros H12. revert i3. induction H12 as [|s1 s2 r1 r2 Hs Hr IH]; intros i3 H23.
    + by inversion H23.
    + inversion H23 as [|? s3 ? r3 Hs' Hr']; subst. constructor.
      * by eapply slot_kept_trans.
      * by apply IH.
  - congruence.
Qed.

Lemma redacted_in_place_refl h : redacted_in_place h h.
Proof. split; [done|]. intros l o Hl. exists o. split; [done|apply object_kept_refl]. Qed.

Lemma redacted_in_place_trans h1 h2 h3 :
  redacted_in_place h1 h2 → redacted_in_place h2 h3 → redacted_in_place h1 h3.
Proof.
  intros [Hd1 H1] [Hd2 H2]. split; [congruence|].
  intros l o Hl. destruct (H1 l o Hl) as (o' & Hl' & Hk).
  destruct (H2 l o' Hl') as (o'' & Hl'' & Hk').
  exists o''. split; [done|]. by eapply object_kept_trans.
Qed.

Lemma slots_kept_keys items items' :
  Forall2 slot_kept items items' → items'.*1 = items.*1.
Proof.
  induction 1 as [|s s' r r' [Hk _] _ IH]; [done|]. rewrite !fmap_cons. by rewrite Hk, IH.
Qed.

(** [d[k] = "[REDACTED]"] for a sensitive key that [d] has *)
Lemma setitem_kept k items :
  k ∈ items.*1 → is_sensitive AuditTrail.sensitive_keys k = true →
  Forall2 slot_kept items (setitem k (VStr REDACTED) items).
Proof.
  intros Hin Hs. induction items as [|[k' v'] r IH]; [by apply elem_of_nil in Hin|].
  simpl. destruct (decide (k' = k)) as [->|Hne].
  - constructor; [by split; [|right]|].
    clear. induction r; constructor; [apply slot_kept_refl|done].
  - constructor; [apply slot_kept_refl|]. apply IH.
    simpl in Hin. apply elem_of_cons in Hin as [->|Hin]; done.
Qed.

Lemma setitem_at_kept l k cur h :
  h !! l = Some (ODict cur) → k ∈ cur.*1 →
  is_sensitive AuditTrail.sensitive_keys k = true →
  redacted_in_place h (AuditTrail.setitem_at l k (VStr REDACTED) h).
Proof.
  intros Hl Hin Hs. unfold AuditTrail.setitem_at. rewrite Hl. split.
  - rewrite dom_insert_L. apply elem_of_dom_2 in Hl. set_solver.
  - intros l' o Hl'. destruct (decide (l' = l)) as [->|Hne].
    + rewrite lookup_insert_eq. eexists. split; [done|].
      rewrite Hl in Hl'. injection Hl' as <-. simpl. by apply setitem_kept.
    + rewrite lookup_insert_ne by done. exists o. split; [done|apply object_kept_refl].
Qed.

(** A dict that is redacted in place keeps its keys. *)
Lemma redacted_in_place_keys h h' l cur :
  redacted_in_place h h' → h !! l = Some (ODict cur) →
  ∃ cur', h' !! l = Some (ODict cur') ∧ cur'.*1 = cur.*1.
Proof.
  intros [_ H] Hl. destruct (H l _ Hl) as ([cur'|] & Hl' & Hk); [|done].
  exists cur'. split; [done|]. by apply slots_kept_keys.
Qed.

Lemma redact_items_in_place (rec : value → heap → outcome heap) l :
  (∀ v h h', rec v h = Ret h' → redacted_in_place h h') →
  ∀ its h h' cur,
    h !! l = Some (ODict cur) → its.*1 ⊆ cur.*1 →
    AuditTrail.redact_items rec l its h = Ret h' → redacted_in_place h h'.
Proof.
  intros Hrec its. induction its as [|[k v] r IH]; intros h h' cur Hl Hsub E.
  - simpl in E. injection E as <-. apply redacted_in_place_refl.
  - simpl in E.
    assert (r.*1 ⊆ cur.*1) as Hsub' by (simpl in Hsub; set_solver).
    destruct (is_sensitive AuditTrail.sensitive_keys k) eqn:Hs.
    + assert (redacted_in_place h (AuditTrail.setitem_at l k (VStr REDACTED) h)) as Hstep.
      { eapply setitem_at_kept; [exact Hl| |done]. simpl in Hsub. set_solver. }
      destruct (redacted_in_place_keys _ _ _ _ Hstep Hl) as (cur' & Hl' & Hkeys).
      eapply redacted_in_place_trans; [exact Hstep|].
      eapply IH; [exact Hl'| |exact E]. by rewrite Hkeys.
    + destruct (rec v h) as [h1|e] eqn:Ev; [|done].
      pose proof (Hrec _ _ _ Ev) as Hstep.
      destruct (redacted_in_place_keys _ _ _ _ Hstep Hl) as (cur' & Hl' & Hkeys).
      eapply redacted_in_place_trans; [exact Hstep|].
      eapply IH; [exact Hl'| |exact E]. by rewrite Hkeys.
Qed.

Lemma redact_elems_in_place (rec : value → heap → outcome heap) :
  (∀ v h h', rec v h = Ret h' → redacted_in_place h h') →
  ∀ its h h', AuditTrail.redact_elems rec its h = Ret h' → redacted_in_place h h'.
Proof.
  intros Hrec its. induction its as [|v r IH]; intros h h' E.
  - simpl in E. injection E as <-. apply redacted_in_place_refl.
  - simpl in E. destruct (rec v h) as [h1|e] eqn:Ev; [|done].
    eapply redacted_in_place_trans; [by eapply Hrec|by eapply IH].
Qed.

(** [_redact_sensitive] on any store, sharing and cycles included. *)
Lemma _redact_sensitive_in_place fuel obj h h' :
  AuditTrail._redact_sensitive fuel obj h = Ret h' → redacted_in_place h h'.
Proof.
  revert obj h h'. induction fuel as [|fuel IH]; intros obj h h' E; [done|].
  simpl in E.
  destruct obj as [| | | |l]; try (injection E as <-; apply redacted_in_place_refl).
  destruct (h !! l) as [[items|elems]|] eqn:Hl.
  - eapply redact_items_in_place; [exact IH|exact Hl|done|exact E].
  - eapply redact_elems_in_place; [exact IH|exact E].
  - injection E as <-. apply redacted_in_place_refl.
Qed.

(** X9. What [_sanitize_data] of [audit_trail.py] does to the store,
    whatever its layout (objects that are shared, objects older than the
    argument): when it returns, its result is a new dict, and the only
    object that the call adds; no list has been written to; every dict that existed has its
    keys, in their order, and its values, but for ["[REDACTED]"] under
    sensitive keys; and the result has the keys of the argument with the
    argument's own values, shared with it, wherever it is not
    ["[REDACTED]"] under a sensitive key. *)
Theorem sanitize_data_frame (fuel : nat) (data sanitized : value) (h h' : heap) :
  AuditTrail._sanitize_data fuel data h = Ret (sanitized, h') →
  ∃ l, sanitized = VRef l ∧ h !! l = None ∧ dom h' = {[l]} ∪ dom h ∧
       (∀ l0 o, h !! l0 = Some o → ∃ o', h' !! l0 = Some o' ∧ object_kept o o') ∧
       ∃ o', h' !! l = Some o' ∧
             object_kept (if truthy h data
                          then match data with
                               | VRef l0 => default (ODict []) (h !! l0)
                               | _ => ODict []
                               end
                          else ODict []) o'.
Proof.
  intros E. unfold AuditTrail._sanitize_data in E.
  assert (∃ o, (if truthy h data then AuditTrail.copy data h
                else Ret (alloc (ODict []) h)) = Ret (alloc o h) ∧
               o = (if truthy h data
                    then match data with
                         | VRef l0 => default (ODict []) (h !! l0)
                         | _ => ODict []
                         end
                    else ODict [])) as (o & Ecopy & Ho).
  { destruct (truthy h data) eqn:Ht; [|by eexists].
    destruct data as [| | | |l0]; simpl in *; try done.
    destruct (h !! l0) as [o|] eqn:Hl0; [|done]. by exists o. }
  rewrite <- Ho. clear Ho. rewrite Ecopy in E. unfold alloc in E.
  set (l := fresh (dom h)) in *.
  destruct (AuditTrail._redact_sensitive fuel (VRef l) (<[l:=o]> h)) as [h2|e] eqn:Er;
    [|done].
  injection E as <- <-.
  assert (h !! l = None) as Hfresh.
  { apply not_elem_of_dom. apply is_fresh. }
  destruct (_redact_sensitive_in_place _ _ _ _ Er) as [Hdom Hkept].
  exists l. split_and!; try done.
  - rewrite Hdom. by rewrite dom_insert_L.
  - intros l0 o0 Hl0. apply Hkept. rewrite lookup_insert_ne; [done|]. congruence.
  - apply Hkept. by rewrite lookup_insert_eq.
Qed.

Lemma sanitize_data_frame_witness :
  ∃ sanitized h',
    AuditTrail._sanitize_data 5 (VRef 1) shared_heap = Ret (VRef sanitized, h') ∧
    shared_heap !! sanitized = None ∧
    h' !! 2 = Some (OList [VRef 0; VStr "password"]) ∧
    h' !! 0 = Some (ODict [("token", VStr REDACTED); ("ok", VStr "z")]) ∧
    h' !! sanitized
    = Some (ODict [("nested", VRef 0); ("list", VRef 2); ("password", VStr REDACTED)]).
Proof.
  eexists _, _. split; [vm_compute; reflexivity|].
  split; [|vm_compute; done].
  match goal with
  | |- shared_heap !! ?l = None =>
      destruct (sanitize_data_frame 5 (VRef 1) (VRef l) shared_heap _
                  ltac:(vm_compute; reflexivity)) as (l' & Hl & Hnew & _)
  end.
  by injection Hl as <-.
Defined.

(** X10. [data.copy() if data else {}]: for [None], an empty dict or
    list, [0], [False] or [""] the result of [_sanitize_data] is a new
    empty dict and the store is otherwise unchanged; for any other scalar
    the call raises [AttributeError]. *)
Theorem sanitize_data_falsy_or_scalar (fuel : nat) (data : value) (h : heap) :
  (truthy h data = false →
   _sanitize_data (S fuel) data h
   = Ret (VRef (fresh (dom h)), <[fresh (dom h) := ODict []]> h)) ∧
  (truthy h data = true → (∀ l, data ≠ VRef l) →
   ∃ message, _sanitize_data fuel data h = Raise (Exn "AttributeError" message)).
Proof.
  split.
  - intros Hfalsy. unfold _sanitize_data. rewrite Hfalsy. simpl.
    by rewrite lookup_insert_eq.
  - intros Htruthy Hscalar. unfold _sanitize_data. rewrite Htruthy.
    destruct data; simpl; eauto. by destruct (Hscalar l).
Qed.

Lemma sanitize_data_falsy_or_scalar_witness :
  _sanitize_data 1 VNone ∅ = Ret (VRef (fresh (dom (∅ : heap))), {[ fresh (dom (∅ : heap)) := ODict [] ]}) ∧
  ∃ message, _sanitize_data 1 (VStr "token=abc") ∅ = Raise (Exn "AttributeError" message).
Proof.
  destruct (sanitize_data_falsy_or_scalar 0 VNone ∅) as [Hnone _].
  destruct (sanitize_data_falsy_or_scalar 1 (VStr "token=abc") ∅) as [_ Hstr].
  split.
  - apply Hnone. reflexivity.
  - apply Hstr; [reflexivity|discriminate].
Defined.

Lemma redact_sensitive_cycle fuel l k rest h :
  h !! l = Some (ODict ((k, VRef l) :: rest)) →
  is_sensitive sensitive_keys k = false →
  _redact_sensitive fuel (VRef l) h = Raise RecursionError.
Proof.
  intros Hl Hk. induction fuel as [|fuel IH]; [done|].
  simpl. rewrite Hl. rewrite redact_items_cons, Hk. by rewrite IH.
Qed.

(** X11. On a dict whose first item has a key that is not sensitive and
    refers to the dict itself, [_sanitize_data] never returns: whatever
    the recursion limit, [_redact_sensitive] exhausts it and
    [RecursionError] reaches the caller. *)
Theorem sanitize_data_cycle_raises (fuel : nat) (l : loc) (k : string)
    (rest : list (string * value)) (h : heap) :
  h !! l = Some (ODict ((k, VRef l) :: rest)) →
  is_sensitive sensitive_keys k = false →
  _sanitize_data fuel (VRef l) h = Raise RecursionError.
Proof.
  intros Hl Hk. unfold _sanitize_data. simpl. rewrite Hl. simpl.
  destruct fuel as [|fuel]; [done|].
  simpl. rewrite lookup_insert_eq. rewrite redact_items_cons, Hk.
  rewrite redact_sensitive_cycle with (k := k) (rest := rest); [done| |done].
  rewrite lookup_insert_ne; [done|].
  intros <-. pose proof (is_fresh (dom h)) as Hfresh.
  apply Hfresh. apply elem_of_dom. eauto.
Qed.

Lemma sanitize_data_cycle_raises_witness :
  _sanitize_data 1000 (VRef 0) {[ 0 := ODict [("self", VRef 0)] ]}
  = Raise RecursionError.
Proof.
  apply (sanitize_data_cycle_raises 1000 0 "self" []).
  - apply lookup_singleton_eq.
  - reflexivity.
Defined.

Lemma app_empty_r (a : string) : a +:+ "" = a.
Proof.
  induction a as [|x a IH]; [done|].
  change (String x a +:+ "") with (String x (a +:+ "")). by rewrite IH.
Qed.

Lemma read_spec n rest :
  rest = (read n rest).1 +:+ (read n rest).2 ∧
  String.length (read n rest).1 = n `min` String.length rest.
Proof.
  revert rest. induction n as [|n IH]; intros [|c r]; try done.
  simpl. destruct (IH r) as [Hr Hl]. destruct (read n r) as [block rest'].
  simpl in *. split; [|by rewrite Hl].
  change (String c block +:+ rest') with (String c (block +:+ rest')). by rewrite <- Hr.
Qed.

Lemma update_blocks_spec size fuel : ∀ rest fed,
  0 < size → String.length rest < fuel →
  update_blocks size fuel rest fed = Some (fed +:+ rest).
Proof.
  induction fuel as [|fuel IH]; intros rest fed Hsize Hfuel; [lia|].
  simpl. destruct (read_spec size rest) as [Hr Hl].
  destruct (read size rest) as [block rest']. simpl in *.
  case_bool_decide as Hblock.
  - subst block. simpl in Hl. destruct rest; [|simpl in Hl; lia].
    by rewrite app_empty_r.
  - rewrite IH; [|done|].
    + by rewrite app_assoc_s, <- Hr.
    + assert (String.length rest = String.length block + String.length rest') as Hlen.
      { rewrite Hr at 1. clear. induction block as [|x b IH]; [done|].
        change (String x b +:+ rest') with (String x (b +:+ rest')). simpl. by rewrite IH. }
      destruct block; [done|]. simpl in Hlen. lia.
Qed.

Lemma calculate_sha256_readable `{C : Crypto} p content w :
  readable w p content →
  (AuditTrail.calculate_sha256 p w).1 = Ret (Some (sha256_hexdigest content)) ∧
  (LogSigner.calculate_sha256 p w).1 = Ret (Some (sha256_hexdigest content)).
Proof.
  intros [Hd Hp]. unfold AuditTrail.calculate_sha256, LogSigner.calculate_sha256.
  unfold_M. simpl. rewrite Hp. simpl.
  rewrite decide_False by done. rewrite Hp. done.
Qed.

(** X12. The block loop of [calculate_sha256] ends after at most one
    read more than the file has bytes, and by then it has fed the hash
    object the bytes of the file, all of them and in order: the digest
    that [calculate_sha256] (of either file) returns for a readable file
    is the digest of its content. *)
Theorem calculate_sha256_reads_whole_file `{C : Crypto} (file_path content : string)
    (more : nat) (w : world) :
  readable w file_path content →
  let digest := hexdigest_of_blocks (S (String.length content) + more) content in
  digest = Some (sha256_hexdigest content) ∧
  (AuditTrail.calculate_sha256 file_path w).1 = Ret digest ∧
  (LogSigner.calculate_sha256 file_path w).1 = Ret digest.
Proof.
  intros Hreadable digest.
  assert (digest = Some (sha256_hexdigest content)) as ->.
  { unfold digest, hexdigest_of_blocks.
    rewrite update_blocks_spec; [done| |lia]. apply Nat.lt_0_succ. }
  split; [reflexivity|]. by apply calculate_sha256_readable.
Qed.

Lemma calculate_sha256_reads_whole_file_witness :
  @hexdigest_of_blocks symbolic_crypto 10 "AUDIT: {}"
  = (Some "e3b0c44298fc1c149afbf4c8996fb92427ae41e4649b934ca495991b7852b855") ∧
  (@AuditTrail.calculate_sha256 symbolic_crypto
     "logs/api_log_2024-05-01.log.snapshot" example_world).1
  = Ret (@hexdigest_of_blocks symbolic_crypto 10 "AUDIT: {}").
Proof.
  destruct (@calculate_sha256_reads_whole_file symbolic_crypto
              "logs/api_log_2024-05-01.log.snapshot" "AUDIT: {}" 0 example_world)
    as (Hdigest & Haudit & _).
  - split; [vm_compute; set_solver | reflexivity].
  - split; [exact Hdigest | exact Haudit].
Defined.

(** ** Decimal literals *)

Lemma string_of_uint_digits d : all_chars is_digit (NilEmpty.string_of_uint d) = true.
Proof. induction d; simpl; try done. Qed.

Lemma digits_value_uint d : ∀ acc,
  digits_value (Z.pos acc) true (NilEmpty.string_of_uint d)
  = Some (Z.pos (Pos.of_uint_acc d acc)).
Proof.
  induction d; intros acc; simpl; try done.
  all: cbn [digit_value nat_of_ascii]; simpl.
  all: rewrite <- IHd; f_equal; lia.
Qed.

Lemma digits_value_of_uint d after_digit :
  d ≠ Decimal.Nil →
  digits_value 0 after_digit (NilEmpty.string_of_uint d) = Some (Z.of_N (Pos.of_uint d)).
Proof.
  revert after_digit. induction d; intros after_digit Hd; try done.
  - simpl. cbn [digit_value nat_of_ascii]. simpl.
    destruct d; try (by apply IHd). done.
  - simpl. cbn [digit_value nat_of_ascii]. simpl. apply (digits_value_uint d 1).
  - simpl. cbn [digit_value nat_of_ascii]. simpl. apply (digits_value_uint d 2).
  - simpl. cbn [digit_value nat_of_ascii]. simpl. apply (digits_value_uint d 3).
  - simpl. cbn [digit_value nat_of_ascii]. simpl. apply (digits_value_uint d 4).
  - simpl. cbn [digit_value nat_of_ascii]. simpl. apply (digits_value_uint d 5).
  - simpl. cbn [digit_value nat_of_ascii]. simpl. apply (digits_value_uint d 6).
  - simpl. cbn [digit_value nat_of_ascii]. simpl. apply (digits_value_uint d 7).
  - simpl. cbn [digit_value nat_of_ascii]. simpl. apply (digits_value_uint d 8).
  - simpl. cbn [digit_value nat_of_ascii]. simpl. apply (digits_value_uint d 9).
Qed.

(** [str(n)] of a positive number: digits that read back as [n]. *)
Lemma str_int_pos (n : Z) :
  (0 < n)%Z →
  str_int n ≠ "" ∧ all_chars is_digit (str_int n) = true ∧
  ∀ after_digit, digits_value 0 after_digit (str_int n) = Some n.
Proof.
  intros Hn. destruct n as [|p|p]; try lia. clear Hn.
  unfold str_int. simpl.
  pose proof (DecimalPos.Unsigned.of_to p) as Hp.
  pose proof (DecimalPos.Unsigned.to_uint_nonnil p) as Hnil.
  assert (NilZero.string_of_uint (Pos.to_uint p) = NilEmpty.string_of_uint (Pos.to_uint p))
    as -> by (by destruct (Pos.to_uint p)).
  split_and!.
  - by destruct (Pos.to_uint p).
  - apply string_of_uint_digits.
  - intros after_digit. rewrite digits_value_of_uint by done. by rewrite Hp.
Qed.

Lemma str_int_0 : str_int 0 = "0".
Proof. reflexivity. Qed.

Lemma is_digit_char c :
  is_digit c = true →
  int_blank c = false ∧ c ≠ "/"%char ∧ c ≠ "+"%char ∧ c ≠ "-"%char.
Proof.
  destruct c as [[] [] [] [] [] [] [] []]; vm_compute; intros H;
    try discriminate H; split_and!; done.
Qed.

(** A string of digits has no blank to strip and no slash. *)
Lemma digits_strip s : all_chars is_digit s = true → strip s = s.
Proof.
  intros Hs. unfold strip.
  assert (lstrip s = s) as ->.
  { destruct s as [|c r]; [done|]. simpl in *.
    apply andb_true_iff in Hs as [Hc _].
    by destruct (is_digit_char c Hc) as (-> & _). }
  induction s as [|c r IH]; [done|]. simpl in *.
  apply andb_true_iff in Hs as [Hc Hr]. rewrite IH by done.
  destruct r; [|done].
  by destruct (is_digit_char c Hc) as (-> & _).
Qed.

Lemma digits_count_slash s : all_chars is_digit s = true → count_slash s = 0.
Proof.
  induction s as [|c r IH]; [done|]. simpl.
  intros [Hc Hr]%andb_true_iff. rewrite IH by done.
  destruct (is_digit_char c Hc) as (_ & Hs & _).
  by rewrite decide_False.
Qed.

(** [int] reads a string of digits as the number it writes. *)
Lemma py_int_digits s n :
  all_chars is_digit s = true →
  digits_value 0 false s = Some n →
  py_int s = Ret n.
Proof.
  intros Hs Hv. unfold py_int. rewrite digits_strip by done.
  destruct s as [|c r]; [by rewrite Hv|].
  simpl in Hs. apply andb_true_iff in Hs as [Hc _].
  destruct (is_digit_char c Hc) as (_ & _ & Hplus & Hminus).
  destruct c as [[] [] [] [] [] [] [] []]; try done; by rewrite Hv.
Qed.

Lemma py_int_str_int n : (0 < n)%Z → py_int (str_int n) = Ret n.
Proof.
  intros Hn. destruct (str_int_pos n Hn) as (_ & Hd & Hv).
  by apply py_int_digits.
Qed.

(** Months and days as [strftime] writes them. *)
Lemma zfill_2 n :
  (1 ≤ n ≤ 31)%Z →
  all_chars is_digit (zfill 2 n) = true ∧ py_int (zfill 2 n) = Ret n.
Proof.
  intros Hn.
  assert (∃ k : nat, k ≤ 31 ∧ n = Z.of_nat k) as (k & Hk & ->).
  { exists (Z.to_nat n). lia. }
  do 32 (destruct k as [|k]; [try lia; by vm_compute|]). lia.
Qed.

(** ** Splitting a key *)

Lemma split_go_app sep cur p r :
  all_chars (λ c, negb (bool_decide (c = sep))) p = true →
  split_go sep cur (p +:+ String sep r) = (cur +:+ p) :: split_go sep "" r.
Proof.
  revert cur. induction p as [|c p IH]; intros cur Hp.
  - change ("" +:+ String sep r) with (String sep r). simpl.
    rewrite decide_True by done. by rewrite app_empty_r.
  - change (String c p +:+ String sep r) with (String c (p +:+ String sep r)).
    simpl in *. apply andb_true_iff in Hp as [Hc Hp].
    apply negb_true_iff, bool_decide_eq_false_1 in Hc.
    rewrite decide_False by done. rewrite IH by done.
    by rewrite app_assoc_s.
Qed.

Lemma split_cons p r :
  count_slash p = 0 →
  split "/" (p +:+ "/" +:+ r) = p :: split "/" r.
Proof.
  intros Hp. unfold split.
  change ("/" +:+ r) with (String "/" r).
  rewrite split_go_app; [done|].
  induction p as [|c p IH]; [done|]. simpl in *.
  case_decide as Hc; [done|]. rewrite IH by done.
  by rewrite bool_decide_eq_false_2.
Qed.

Lemma split_nonempty sep s : ∃ x l, split sep s = x :: l.
Proof.
  unfold split. generalize "". induction s as [|c r IH]; intros cur; simpl; eauto.
  case_decide; eauto.
Qed.

Lemma as_c_int_small n :
  (- 2 ^ 31 ≤ n ≤ 2 ^ 31 - 1)%Z → as_c_int n = Ret n.
Proof.
  intros Hn. unfold as_c_int.
  rewrite !(proj2 (Z.ltb_ge _ _)) by lia. done.
Qed.

Lemma days_in_month_bounds y m : (28 ≤ days_in_month y m ≤ 31)%Z.
Proof. unfold days_in_month. repeat case_match; lia. Qed.

Lemma valid_date_bounds d :
  valid_date d = true →
  (1 ≤ year d ≤ 9999 ∧ 1 ≤ month d ≤ 12 ∧ 1 ≤ day d ≤ days_in_month (year d) (month d))%Z.
Proof.
  unfold valid_date. intros H.
  repeat (apply andb_true_iff in H as [H ?]).
  repeat match goal with H : (_ <=? _)%Z = true |- _ => apply Z.leb_le in H end.
  lia.
Qed.

Lemma date_new_valid y m d :
  valid_date (Date y m d) = true → date_new y m d = Ret (Date y m d).
Proof.
  intros H. apply valid_date_bounds in H. simpl in H.
  pose proof (days_in_month_bounds y m).
  unfold date_new. rewrite !as_c_int_small by lia.
  rewrite !(proj2 (Z.ltb_ge _ _)) by lia. done.
Qed.

(** ** Keys as [upload_to_s3] builds them, read by [list_logs_for_date_range] *)

Lemma split_s3_key cfg d name :
  count_slash (S3_PREFIX cfg) = 0 →
  valid_date d = true →
  split "/" (S3Uploader.s3_key cfg (date_prefix d) name)
  = S3_PREFIX cfg :: str_int (year d) :: zfill 2 (month d) :: zfill 2 (day d)
      :: split "/" name.
Proof.
  intros Hprefix Hd. apply valid_date_bounds in Hd as (Hy & Hm & Hday).
  pose proof (days_in_month_bounds (year d) (month d)).
  destruct (str_int_pos (year d)) as (_ & Hyd & _); [lia|].
  destruct (zfill_2 (month d)) as [Hmd _]; [lia|].
  destruct (zfill_2 (day d)) as [Hdd _]; [lia|].
  unfold S3Uploader.s3_key, date_prefix.
  rewrite !app_assoc_s.
  rewrite split_cons by done.
  rewrite split_cons by by apply digits_count_slash.
  rewrite split_cons by by apply digits_count_slash.
  rewrite split_cons by by apply digits_count_slash.
  done.
Qed.

Lemma key_matches_s3_key cfg start_date end_date d name :
  count_slash (S3_PREFIX cfg) = 0 →
  valid_date d = true →
  S3Uploader.key_matches start_date end_date (S3Uploader.s3_key cfg (date_prefix d) name)
  = Ret (date_le start_date d && date_le d end_date).
Proof.
  intros Hprefix Hd. unfold S3Uploader.key_matches.
  rewrite split_s3_key by done.
  destruct (split_nonempty "/" name) as (x & l & ->). simpl.
  pose proof (valid_date_bounds d Hd) as (Hy & Hm & Hday).
  pose proof (days_in_month_bounds (year d) (month d)).
  rewrite py_int_str_int by lia.
  rewrite (proj2 (zfill_2 (month d) ltac:(lia))).
  rewrite (proj2 (zfill_2 (day d) ltac:(lia))).
  rewrite date_new_valid by by destruct d.
  by destruct d.
Qed.

(** X13. Keys as [upload_to_s3] builds them for the date prefix of
    [process_daily_logs] are found again by [list_logs_for_date_range]:
    when the store lists the keys of uploads made on valid dates, the
    result is the keys of the uploads whose date lies between
    [start_date] and [end_date], both included, in the order of the
    listing ([S3_PREFIX] has no slash of its own). *)
Theorem list_logs_for_date_range_finds_uploads (cfg : Config)
    (self : S3Uploader.StorageProcessor) (client : S3Uploader.S3Client)
    (start_date end_date : date) (uploads : list (date * string)) (w : world) :
  count_slash (S3_PREFIX cfg) = 0 →
  Forall (λ upload, valid_date upload.1 = true) uploads →
  S3Uploader.simulate self = false →
  S3Uploader.s3_client self = Some client →
  S3Uploader.list_objects_v2 client (S3_BUCKET_NAME cfg) (S3_PREFIX cfg +:+ "/")
    = Ret (map (λ upload, S3Uploader.s3_key cfg (date_prefix upload.1) upload.2) uploads) →
  S3Uploader.list_logs_for_date_range cfg self start_date end_date w
  = (Ret (map (λ upload, S3Uploader.s3_key cfg (date_prefix upload.1) upload.2)
            (List.filter (λ upload, date_le start_date upload.1 && date_le upload.1 end_date)
               uploads)), w).
Proof.
  intros Hprefix Hvalid Hlive Hclient Hlisting.
  unfold S3Uploader.list_logs_for_date_range. rewrite Hlive, Hclient.
  unfold_M. rewrite Hlisting.
  assert (S3Uploader.matching_keys start_date end_date
            (map (λ upload, S3Uploader.s3_key cfg (date_prefix upload.1) upload.2) uploads)
          = Ret (map (λ upload, S3Uploader.s3_key cfg (date_prefix upload.1) upload.2)
                   (List.filter (λ upload, date_le start_date upload.1
                                           && date_le upload.1 end_date) uploads)))
    as Hkeys.
  { clear Hlisting. induction Hvalid as [|[d name] uploads Hd _ IH]; [done|].
    simpl in *. rewrite key_matches_s3_key by done. rewrite IH.
    by destruct (date_le start_date d && date_le d end_date). }
  simpl. rewrite Hkeys. reflexivity.
Qed.

Lemma list_logs_for_date_range_finds_uploads_witness :
  S3Uploader.list_logs_for_date_range package_Config
    {| S3Uploader.simulate := false; S3Uploader.s3_client := Some example_client |}
    (Date 2024 5 1) (Date 2024 5 31) package_world
  = (Ret ["audit-logs/2024/05/01/api_log_2024-05-01.log.snapshot"], package_world).
Proof.
  apply (list_logs_for_date_range_finds_uploads package_Config
           {| S3Uploader.simulate := false; S3Uploader.s3_client := Some example_client |}
           example_client (Date 2024 5 1) (Date 2024 5 31)
           [(Date 2024 5 1, "api_log_2024-05-01.log.snapshot");
            (Date 2024 6 15, "api_log_2024-06-15.log.snapshot")]).
  - reflexivity.
  - repeat constructor.
  - reflexivity.
  - reflexivity.
  - reflexivity.
Defined.

(** [py_int] raises nothing but [ValueError]. *)
Lemma py_int_raises s e : py_int s = Raise e → exn_type e = "ValueError".
Proof. unfold py_int. case_match; [done|]. by intros [= <-]. Qed.

Lemma key_matches_foreign start_date end_date key :
  foreign_key key → S3Uploader.key_matches start_date end_date key = Ret false.
Proof.
  unfold foreign_key, S3Uploader.key_matches.
  intros [Hshort|(i & e & Hi & He)].
  - destruct (Nat.leb_spec 4 (length (split "/" key))); [lia|done].
  - case_match; [|done].
    assert (i = 1 ∨ i = 2 ∨ i = 3) as [-> | [-> | ->]] by lia.
    + rewrite He. by rewrite (py_int_raises _ _ He).
    + destruct (py_int (split "/" key !!! 1)) as [?|e1] eqn:E1;
        [|by rewrite (py_int_raises _ _ E1)].
      rewrite He. by rewrite (py_int_raises _ _ He).
    + destruct (py_int (split "/" key !!! 1)) as [?|e1] eqn:E1;
        [|by rewrite (py_int_raises _ _ E1)].
      destruct (py_int (split "/" key !!! 2)) as [?|e2] eqn:E2;
        [|by rewrite (py_int_raises _ _ E2)].
      rewrite He. by rewrite (py_int_raises _ _ He).
Qed.

Lemma matching_keys_foreign start_date end_date before key after :
  foreign_key key →
  S3Uploader.matching_keys start_date end_date (before ++ key :: after)
  = S3Uploader.matching_keys start_date end_date (before ++ after).
Proof.
  intros Hkey. induction before as [|k before IH]; simpl.
  - rewrite key_matches_foreign by done.
    by destruct (S3Uploader.matching_keys start_date end_date after).
  - by rewrite IH.
Qed.

(** X14. A key that carries no date (fewer than four segments, or a
    second, third or fourth segment that [int] refuses) changes nothing:
    with or without it in the listing, [list_logs_for_date_range] has the
    same outcome. *)
Theorem list_logs_for_date_range_skips_foreign_keys (cfg : Config)
    (client client' : S3Uploader.S3Client) (start_date end_date : date)
    (before after : list string) (key : string) (w : world) :
  foreign_key key →
  S3Uploader.list_objects_v2 client (S3_BUCKET_NAME cfg) (S3_PREFIX cfg +:+ "/")
    = Ret (before ++ key :: after) →
  S3Uploader.list_objects_v2 client' (S3_BUCKET_NAME cfg) (S3_PREFIX cfg +:+ "/")
    = Ret (before ++ after) →
  S3Uploader.list_logs_for_date_range cfg
    {| S3Uploader.simulate := false; S3Uploader.s3_client := Some client |}
    start_date end_date w
  = S3Uploader.list_logs_for_date_range cfg
      {| S3Uploader.simulate := false; S3Uploader.s3_client := Some client' |}
      start_date end_date w.
Proof.
  intros Hkey Hlisting Hlisting'.
  unfold S3Uploader.list_logs_for_date_range. simpl. unfold_M.
  rewrite Hlisting, Hlisting'. by rewrite matching_keys_foreign.
Qed.

Lemma list_logs_for_date_range_skips_foreign_keys_witness :
  S3Uploader.list_logs_for_date_range package_Config
    {| S3Uploader.simulate := false;
       S3Uploader.s3_client := Some example_client_with_readme |}
    (Date 2024 1 1) (Date 2024 12 31) package_world
  = S3Uploader.list_logs_for_date_range package_Config
      {| S3Uploader.simulate := false; S3Uploader.s3_client := Some example_client |}
      (Date 2024 1 1) (Date 2024 12 31) package_world.
Proof.
  apply (list_logs_for_date_range_skips_foreign_keys package_Config
           example_client_with_readme example_client (Date 2024 1 1) (Date 2024 12 31)
           ["audit-logs/2024/05/01/api_log_2024-05-01.log.snapshot"]
           ["audit-logs/2024/06/15/api_log_2024-06-15.log.snapshot"]
           "audit-logs/README.txt").
  - left. vm_compute. lia.
  - reflexivity.
  - reflexivity.
Defined.

Lemma as_c_int_inv n r : as_c_int n = Ret r → r = n.
Proof. unfold as_c_int. repeat case_match; congruence. Qed.

Lemma date_new_inv y m d log_date :
  date_new y m d = Ret log_date →
  log_date = Date y m d ∧ valid_date log_date = true.
Proof.
  unfold date_new.
  destruct (as_c_int y) as [y'|] eqn:Ey; [|done]. apply as_c_int_inv in Ey as ->.
  destruct (as_c_int m) as [m'|] eqn:Em; [|done]. apply as_c_int_inv in Em as ->.
  destruct (as_c_int d) as [d'|] eqn:Ed; [|done]. apply as_c_int_inv in Ed as ->.
  repeat case_match; try done. intros [= <-]. split; [done|].
  unfold valid_date. simpl.
  repeat match goal with
  | H : (_ || _) = false |- _ => apply orb_false_iff in H as [? ?]
  | H : (_ <? _)%Z = false |- _ => apply Z.ltb_ge in H
  end.
  repeat (apply andb_true_iff; split); by apply Z.leb_le.
Qed.

Lemma key_matches_true start_date end_date key :
  S3Uploader.key_matches start_date end_date key = Ret true →
  ∃ log_date, key_date key log_date ∧
    date_le start_date log_date = true ∧ date_le log_date end_date = true.
Proof.
  unfold S3Uploader.key_matches.
  destruct (Nat.leb_spec 4 (length (split "/" key))) as [Hlen|]; [|done].
  destruct (split "/" key) as [|p [|y [|m [|d rest]]]] eqn:Hsplit;
    simpl in Hlen; try lia. simpl.
  destruct (py_int y) as [Y|e] eqn:Ey; [|by rewrite (py_int_raises _ _ Ey)].
  destruct (py_int m) as [M|e] eqn:Em; [|by rewrite (py_int_raises _ _ Em)].
  destruct (py_int d) as [D|e] eqn:Ed; [|by rewrite (py_int_raises _ _ Ed)].
  destruct (date_new Y M D) as [log_date|e] eqn:Enew; [|by repeat case_match].
  intros [= [? ?]%andb_true_iff].
  apply date_new_inv in Enew as [-> Hvalid].
  exists (Date Y M D). split; [|done].
  exists p, y, m, d, rest. done.
Qed.

Lemma matching_keys_found start_date end_date keys found :
  S3Uploader.matching_keys start_date end_date keys = Ret found →
  sublist found keys ∧
  Forall (λ key, ∃ log_date, key_date key log_date ∧
            date_le start_date log_date = true ∧ date_le log_date end_date = true) found.
Proof.
  revert found. induction keys as [|key keys IH]; intros found; simpl.
  - intros [= <-]. split; constructor.
  - destruct (S3Uploader.key_matches start_date end_date key) as [matches|] eqn:Ekey; [|done].
    destruct (S3Uploader.matching_keys start_date end_date keys) as [rest|]; [|done].
    intros [= <-]. destruct (IH rest eq_refl) as [Hsub Hall].
    destruct matches.
    + split; [by constructor|]. constructor; [|done]. by eapply key_matches_true.
    + split; [by constructor|done].
Qed.

(** X15. What [list_logs_for_date_range] returns: it writes no file; in
    simulation it returns [[]] without asking the store; a list that is
    not empty is a sublist of what the store listed, and the second to
    fourth segments of every key in it read as a valid date between
    [start_date] and [end_date]; an exception that reaches the caller is
    not a [ClientError]. *)
Theorem list_logs_for_date_range_selects (cfg : Config)
    (self : S3Uploader.StorageProcessor) (start_date end_date : date)
    (o : outcome (list string)) (w w' : world) :
  S3Uploader.list_logs_for_date_range cfg self start_date end_date w = (o, w') →
  fs w' = fs w ∧
  (S3Uploader.simulate self = true → o = Ret []) ∧
  (∀ found, o = Ret found →
     found = [] ∨
     ∃ client listing,
       S3Uploader.simulate self = false ∧
       S3Uploader.s3_client self = Some client ∧
       S3Uploader.list_objects_v2 client (S3_BUCKET_NAME cfg) (S3_PREFIX cfg +:+ "/")
         = Ret listing ∧
       sublist found listing ∧
       Forall (λ key, ∃ log_date, key_date key log_date ∧
                 date_le start_date log_date = true ∧
                 date_le log_date end_date = true) found) ∧
  (∀ e, o = Raise e → exn_type e ≠ "ClientError").
Proof.
  unfold S3Uploader.list_logs_for_date_range. intros E.
  destruct (S3Uploader.simulate self) eqn:Hsim.
  - unfold_M. simpl in E. injection E as <- <-. split_and!; try done.
    intros ? [= <-]. by left.
  - destruct (S3Uploader.s3_client self) as [client|] eqn:Hclient.
    + unfold_M. simpl in E.
      destruct (S3Uploader.list_objects_v2 client (S3_BUCKET_NAME cfg) (S3_PREFIX cfg +:+ "/"))
        as [listing|e] eqn:Hlisting.
      * destruct (S3Uploader.matching_keys start_date end_date listing)
          as [found|e] eqn:Hfound.
        -- injection E as <- <-. split_and!; try done.
           intros ? [= <-]. right. exists client, listing.
           destruct (matching_keys_found _ _ _ _ Hfound). done.
        -- case_decide; injection E as <- <-; split_and!; try done.
           ++ intros ? [= <-]. by left.
           ++ by intros ? [= <-].
      * case_decide; injection E as <- <-; split_and!; try done.
        -- intros ? [= <-]. by left.
        -- by intros ? [= <-].
    + unfold_M. simpl in E. injection E as <- <-. split_and!; try done.
      by intros ? [= <-].
Qed.

Lemma list_logs_for_date_range_selects_witness :
  let listed := S3Uploader.list_logs_for_date_range package_Config
                  {| S3Uploader.simulate := false;
                     S3Uploader.s3_client := Some example_client_with_readme |}
                  (Date 2024 5 1) (Date 2024 5 31) package_world in
  fs listed.2 = fs package_world ∧
  ∃ log_date,
    key_date "audit-logs/2024/05/01/api_log_2024-05-01.log.snapshot" log_date ∧
    date_le (Date 2024 5 1) log_date = true ∧ date_le log_date (Date 2024 5 31) = true.
Proof.
  intros listed.
  destruct (list_logs_for_date_range_selects package_Config
              {| S3Uploader.simulate := false;
                 S3Uploader.s3_client := Some example_client_with_readme |}
              (Date 2024 5 1) (Date 2024 5 31) listed.1 package_world listed.2)
    as (Hfs & _ & Hfound & _); [apply surjective_pairing|].
  split; [exact Hfs|].
  destruct (Hfound ["audit-logs/2024/05/01/api_log_2024-05-01.log.snapshot"])
    as [Hnil|(client & listing & _ & _ & _ & _ & Hall)].
  - vm_compute. reflexivity.
  - discriminate Hnil.
  - by apply Forall_cons in Hall as [Hkey _].
Defined.

(** ** Secrets do not reach the log *)

Lemma same_but_secrets_redacted j1 : ∀ j2,
  same_but_secrets j1 j2 → AuditTrail.redacted j1 = AuditTrail.redacted j2.
Proof.
  induction j1 as [| | | |items1 IH|elems1 IH] using json_induction;
    intros j2 H; destruct j2 as [| | | |items2|elems2]; simpl in H; try done;
    try (by injection H as ->).
  - simpl. f_equal. revert items2 H.
    induction IH as [|[k1 v1] r1 Hv Hr IHr]; intros [|[k2 v2] r2] H; try done.
    destruct H as (-> & Hv12 & Hr12). simpl. f_equal; [|by apply IHr].
    f_equal. destruct (is_sensitive AuditTrail.sensitive_keys k2) eqn:Hk; [done|].
    destruct Hv12 as [?|Hv12]; [done|]. by apply Hv.
  - simpl. f_equal. revert elems2 H.
    induction IH as [|v1 r1 Hv Hr IHr]; intros [|v2 r2] H; try done.
    destruct H as (Hv12 & Hr12). simpl. f_equal; [by apply Hv|by apply IHr].
Qed.

Lemma same_but_scalar_secrets_sanitized j1 : ∀ j2,
  same_but_scalar_secrets j1 j2 →
  LogCollector._sanitize_data j1 = LogCollector._sanitize_data j2.
Proof.
  induction j1 as [| | | |items1 IH|elems1 IH] using json_induction;
    intros j2 H; destruct j2 as [| | | |items2|elems2]; simpl in H; try done;
    try (by injection H as ->).
  simpl. f_equal. revert items2 H.
  induction IH as [|[k1 v1] r1 Hv Hr IHr]; intros [|[k2 v2] r2] H; try done.
  destruct H as (-> & Hv12 & Hr12). simpl. f_equal; [|by apply IHr].
  f_equal. destruct Hv12 as [(Hk & Hd1 & Hd2)|Hv12].
  - rewrite Hk. by destruct v1, v2.
  - simpl in Hv. specialize (Hv _ Hv12).
    destruct v1, v2; simpl in *; try done; try (by injection Hv12 as ->);
      try (by rewrite Hv12).
Qed.

(** X17. What [_sanitize_data] of [audit_trail.py] returns does not depend
    on the values under sensitive keys: for two dicts that are the same
    but for those values (at any depth, through dicts and lists), the two
    results read as the same tree. *)
Theorem sanitize_data_hides_secrets (items1 items2 : list (string * json))
    (h1 h2 : heap) (fuel : nat) :
  distinct_keys (JDict items1) → distinct_keys (JDict items2) →
  json_depth (JDict items1) ≤ fuel → json_depth (JDict items2) ≤ fuel →
  same_but_secrets (JDict items1) (JDict items2) →
  ∃ sanitized1 h1' sanitized2 h2' logged,
    AuditTrail._sanitize_data fuel (store_json (JDict items1) h1).1
      (store_json (JDict items1) h1).2 = Ret (VRef sanitized1, h1') ∧
    AuditTrail._sanitize_data fuel (store_json (JDict items2) h2).1
      (store_json (JDict items2) h2).2 = Ret (VRef sanitized2, h2') ∧
    load_json fuel h1' (VRef sanitized1) = Some logged ∧
    load_json fuel h2' (VRef sanitized2) = Some logged.
Proof.
  intros Hdk1 Hdk2 Hd1 Hd2 Hsame.
  destruct (store_json (JDict items1) h1) as [data1 h1a] eqn:E1.
  destruct (store_json (JDict items2) h2) as [data2 h2a] eqn:E2.
  destruct (_sanitize_data_refines items1 h1 fuel data1 h1a Hdk1 Hd1 E1)
    as (s1 & h1' & Hrun1 & _ & Hload1 & _).
  destruct (_sanitize_data_refines items2 h2 fuel data2 h2a Hdk2 Hd2 E2)
    as (s2 & h2' & Hrun2 & _ & Hload2 & _).
  exists s1, h1', s2, h2', (AuditTrail.redacted (JDict items1)).
  split_and!; try done.
  rewrite Hload2. f_equal. symmetry. by apply same_but_secrets_redacted.
Qed.

Lemma sanitize_data_hides_secrets_witness :
  let request secret :=
    JDict [("user", JStr "ann");
           ("auth", JDict [("password", JStr secret)]);
           ("cards", JList [JDict [("credit_card", JStr secret)]])] in
  ∃ sanitized1 h1' sanitized2 h2',
    AuditTrail._sanitize_data 4 (store_json (request "hunter2") ∅).1
      (store_json (request "hunter2") ∅).2 = Ret (VRef sanitized1, h1') ∧
    AuditTrail._sanitize_data 4 (store_json (request "swordfish") ∅).1
      (store_json (request "swordfish") ∅).2 = Ret (VRef sanitized2, h2') ∧
    load_json 4 h1' (VRef sanitized1) = load_json 4 h2' (VRef sanitized2).
Proof.
  intros request.
  destruct (sanitize_data_hides_secrets
              [("user", JStr "ann");
               ("auth", JDict [("password", JStr "hunter2")]);
               ("cards", JList [JDict [("credit_card", JStr "hunter2")]])]
              [("user", JStr "ann");
               ("auth", JDict [("password", JStr "swordfish")]);
               ("cards", JList [JDict [("credit_card", JStr "swordfish")]])]
              ∅ ∅ 4)
    as (s1 & h1' & s2 & h2' & logged & E1 & E2 & L1 & L2).
  - simpl. split_and!; try done; repeat (apply NoDup_cons; split; [set_solver|]);
      apply NoDup_nil_2.
  - simpl. split_and!; try done; repeat (apply NoDup_cons; split; [set_solver|]);
      apply NoDup_nil_2.
  - simpl. lia.
  - simpl. lia.
  - simpl. split_and!; try done; auto.
    right. split_and!; try done. by left.
  - exists s1, h1', s2, h2'. split; [exact E1|]. split; [exact E2|].
    by rewrite L1, L2.
Defined.

(** X18. What [log_api_event] of [log_signer.py] writes does not depend on
    the scalar values under sensitive keys of the request and of the
    response: two calls that differ in those values only leave the same
    log file and the same records behind. *)
Theorem log_api_event_hides_secrets (handlers : list string)
    (event_id timestamp asctime api_endpoint user_id : string)
    (request_data1 request_data2 response_data1 response_data2 : json)
    (status_code : Z) (w : world) :
  same_but_scalar_secrets request_data1 request_data2 →
  same_but_scalar_secrets response_data1 response_data2 →
  LogSigner.log_api_event handlers event_id timestamp asctime api_endpoint user_id
    request_data1 response_data1 status_code w
  = LogSigner.log_api_event handlers event_id timestamp asctime api_endpoint user_id
      request_data2 response_data2 status_code w.
Proof.
  intros Hrequest Hresponse. unfold LogSigner.log_api_event.
  by rewrite (same_but_scalar_secrets_sanitized _ _ Hrequest),
             (same_but_scalar_secrets_sanitized _ _ Hresponse).
Qed.

Lemma log_api_event_hides_secrets_witness :
  let request secret :=
    JDict [("action", JStr "update");
           ("fields", JDict [("name", JStr "John Doe")]);
           ("token", JStr secret)] in
  let response := JDict [("status", JStr "success")] in
  LogSigner.log_api_event [daily_log] "6f1c2a9e" "2024-05-01T12:00:00+00:00"
    "2024-05-01 12:00:00,000" "/api/users/1" "user_1" (request "secret_token_123")
    response 200 daily_world
  = LogSigner.log_api_event [daily_log] "6f1c2a9e" "2024-05-01T12:00:00+00:00"
      "2024-05-01 12:00:00,000" "/api/users/1" "user_1" (request "another_token")
      response 200 daily_world.
Proof.
  intros request response.
  apply log_api_event_hides_secrets.
  - simpl. split_and!; try done; auto.
  - simpl. split_and!; auto.
Defined.

(** ** The two pipelines side by side *)

Lemma same_files_refl w : same_files w w.
Proof. by split. Qed.

Lemma same_files_sym w1 w2 : same_files w1 w2 → same_files w2 w1.
Proof. by intros [? ?]. Qed.

Lemma agree_ret {A} (a : A) : agree (mret a) (mret a).
Proof. by intros w1 w2 H. Qed.

Lemma agree_bind {A B} (m1 m2 : M A) (f1 f2 : A → M B) :
  agree m1 m2 → (∀ a, agree (f1 a) (f2 a)) → agree (m1 ≫= f1) (m2 ≫= f2).
Proof.
  intros Hm Hf w1 w2 Hw. destruct (Hm w1 w2 Hw) as [Ho Hw'].
  unfold mbind, M_bind.
  destruct (m1 w1) as [[a1|e1] w1'], (m2 w2) as [[a2|e2] w2']; simplify_eq/=; try done.
  by apply Hf.
Qed.

Lemma agree_try_except {A} (b1 b2 : M A) (h1 h2 : exn → M A) :
  agree b1 b2 → (∀ e, agree (h1 e) (h2 e)) → agree (try_except b1 h1) (try_except b2 h2).
Proof.
  intros Hb Hh w1 w2 Hw. destruct (Hb w1 w2 Hw) as [Ho Hw'].
  unfold try_except.
  destruct (b1 w1) as [[a1|e1] w1'], (b2 w2) as [[a2|e2] w2']; simplify_eq/=; try done.
  by apply Hh.
Qed.

Lemma agree_try_except_cls {A} cls (b1 b2 : M A) (h1 h2 : exn → M A) :
  agree b1 b2 → (∀ e, agree (h1 e) (h2 e)) →
  agree (try_except_cls cls b1 h1) (try_except_cls cls b2 h2).
Proof.
  intros Hb Hh w1 w2 Hw. destruct (Hb w1 w2 Hw) as [Ho Hw'].
  unfold try_except_cls.
  destruct (b1 w1) as [[a1|e1] w1'], (b2 w2) as [[a2|e2] w2']; simplify_eq/=; try done.
  case_decide; [by apply Hh|done].
Qed.

Lemma agree_logger lv1 msg1 lv2 msg2 : agree (logger lv1 msg1) (logger lv2 msg2).
Proof. by intros w1 w2 H. Qed.

Lemma agree_lift {A} (o : outcome A) : agree (lift o) (lift o).
Proof. by intros w1 w2 H. Qed.

Lemma agree_path_exists p : agree (path_exists p) (path_exists p).
Proof. intros w1 w2 [Hfs Hden]. unfold path_exists. simpl. by rewrite Hfs. Qed.

Lemma agree_read_bytes p : agree (read_bytes p) (read_bytes p).
Proof.
  intros w1 w2 [Hfs Hden]. unfold read_bytes. rewrite Hfs, Hden.
  case_decide; [done|]. by destruct (fs w2 !! p) as [[]|].
Qed.

Lemma agree_write_bytes p data : agree (write_bytes p data) (write_bytes p data).
Proof.
  intros w1 w2 [Hfs Hden]. unfold write_bytes. rewrite Hfs, Hden.
  case_decide; [done|]. destruct (fs w2 !! p) as [[]|]; try done.
  all: split; [done|]; split; simpl; congruence.
Qed.

Lemma agree_copy2 src dst : agree (copy2 src dst) (copy2 src dst).
Proof.
  intros w1 w2 Hw. unfold copy2. rewrite (proj1 Hw).
  destruct (fs w2 !! dst) as [[]|].
  all: by apply (agree_bind _ _ _ _ (agree_read_bytes src)
                   (λ c, agree_write_bytes _ c)).
Qed.

Ltac agree_step :=
  first
    [ apply agree_ret
    | apply agree_logger
    | apply agree_lift
    | apply agree_path_exists
    | apply agree_read_bytes
    | apply agree_write_bytes
    | apply agree_copy2
    | apply agree_bind; [|intros ?]
    | apply agree_try_except_cls; [|intros ?]
    | apply agree_try_except; [|intros ?]
    | match goal with
      | |- agree (if ?b then _ else _) (if ?b then _ else _) => destruct b
      | |- agree (match ?o with Some _ => _ | None => _ end)
                 (match ?o with Some _ => _ | None => _ end) => destruct o
      end ].

Section agree.
Context `{C : Crypto}.
Variable cfg : Config.

Lemma agree_load_public_key : agree (_load_public_key cfg) (_load_public_key cfg).
Proof. unfold _load_public_key. repeat agree_step. Qed.

Lemma agree_load_private_key : agree (_load_private_key cfg) (_load_private_key cfg).
Proof. unfold _load_private_key. repeat agree_step. Qed.

Lemma agree_verify_file file_path signature_path :
  agree (verify_file cfg file_path signature_path) (verify_file cfg file_path signature_path).
Proof.
  unfold verify_file. repeat (agree_step || apply agree_load_public_key).
Qed.

Lemma agree_sign_file file_path :
  agree (sign_file cfg file_path) (sign_file cfg file_path).
Proof.
  unfold sign_file.
  repeat (agree_step || apply agree_load_private_key || apply agree_verify_file).
Qed.

Lemma agree_calculate_sha256 p :
  agree (AuditTrail.calculate_sha256 p) (LogSigner.calculate_sha256 p).
Proof.
  intros w1 w2 [Hfs Hden].
  unfold AuditTrail.calculate_sha256, LogSigner.calculate_sha256, same_files.
  unfold_M. simpl. rewrite Hfs.
  destruct (bool_decide (is_Some (fs w2 !! p))); simpl; [|done].
  rewrite Hfs, Hden.
  case_decide; [done|]. by destruct (fs w2 !! p) as [[]|].
Qed.

Lemma agree_save_hash hash_value p :
  agree (AuditTrail.save_hash hash_value p) (LogSigner.save_hash hash_value p).
Proof.
  unfold AuditTrail.save_hash, LogSigner.save_hash. repeat agree_step.
Qed.

End agree.

Lemma same_files_logged w1 w2 lv1 msg1 lv2 msg2 :
  same_files w1 w2 →
  same_files (World (fs w1) (denied w1) (log w1 ++ [(lv1, msg1)]))
             (World (fs w2) (denied w2) (log w2 ++ [(lv2, msg2)])).
Proof. by intros [? ?]. Qed.

(** In simulation the three uploads of [audit_trail.py] succeed on files
    that exist. *)
Lemma uploads_in_simulation `{C : Crypto} cfg upload_file date_prefix p w :
  S3_SIMULATION_MODE cfg = true →
  is_Some (fs w !! p) →
  ∃ w', AuditTrail.upload_to_s3 cfg upload_file p date_prefix w = (Ret true, w') ∧
        fs w' = fs w ∧ denied w' = denied w.
Proof.
  intros Hsim Hp.
  destruct (upload_to_s3_spec cfg upload_file p date_prefix w)
    as (b & w' & E & Hfs & Hden & Hb).
  exists w'. split; [|done]. rewrite E. do 2 f_equal.
  apply Hb. split; [done|]. by left.
Qed.

Lemma bind_run {A B} (m : M A) (f : A → M B) (w : world) :
  (m ≫= f) w = match m w with
               | (Ret a, w') => f a w'
               | (Raise e, w') => (Raise e, w')
               end.
Proof. reflexivity. Qed.

(** With uploads simulated, the two versions of [process_daily_logs] have
    the same outcome, and the files they write themselves are the same. *)
Lemma process_daily_logs_agree `{C : Crypto} (cfg : Config)
    (upload_file : string → string → outcome unit)
    (self : processor) (date_prefix : string) (w : world) :
  S3_SIMULATION_MODE cfg = true →
  let old := AuditTrail.process_daily_logs cfg upload_file self date_prefix w in
  let new := LogSigner.process_daily_logs cfg self w in
  new.1 = old.1 ∧ same_files new.2 old.2.
Proof.
  intros Hsim old new. subst old new.
  destruct (AuditTrail.process_daily_logs cfg upload_file self date_prefix w)
    as [o1 w1'] eqn:E1.
  destruct (LogSigner.process_daily_logs cfg self w) as [o2 w2'] eqn:E2.
  unfold AuditTrail.process_daily_logs in E1. unfold LogSigner.process_daily_logs in E2.
  set (snapshot := self_log_path self +:+ ".snapshot") in *.
  set (hash_path := snapshot +:+ HASH_FILE_EXTENSION cfg) in *.
  rewrite bind_run in E1, E2.
  destruct (copy2 (self_log_path self) snapshot w) as [[[]|e] w0] eqn:Ecopy;
    [|by simplify_eq].
  apply copy2_spec in Ecopy as [Hsnapshot _].
  rewrite bind_run in E1, E2. unfold logger at 1 in E1. unfold logger at 1 in E2.
  cbv beta iota in E1, E2.
  set (w1 := World (fs w0) (denied w0) _) in *.
  assert (is_Some (fs w1 !! snapshot)) as Hs1 by done.
  clearbody w1. clear Hsnapshot w0.
  (* the digest *)
  rewrite bind_run in E1, E2.
  destruct (agree_calculate_sha256 snapshot w1 w1 (same_files_refl _)) as [Ho Hw].
  destruct (audit_trail_calculate_sha256_spec snapshot w1) as (hv & w2 & Ec & Hfs2 & _).
  destruct (LogSigner.calculate_sha256 snapshot w1) as [oc wc].
  rewrite Ec in *. simpl in Ho, Hw. subst oc.
  destruct (truthy_opt_str hv); simpl in E1, E2;
    [|unfold_M; simplify_eq/=; by split; [|apply same_files_sym]].
  (* the hash file *)
  rewrite bind_run in E1, E2.
  destruct (agree_save_hash (default "" hv) hash_path w2 wc Hw) as [Ho3 Hw3].
  destruct (audit_trail_save_hash_spec (default "" hv) hash_path w2)
    as (saved & w3 & Es & _ & Hfs3).
  destruct (LogSigner.save_hash (default "" hv) hash_path wc) as [os ws].
  rewrite Es in *. simpl in Ho3, Hw3. subst os.
  destruct saved; simpl in E1, E2; [|unfold_M; simplify_eq/=; by split; [|apply same_files_sym]].
  (* the signature *)
  rewrite bind_run in E1, E2.
  destruct (agree_sign_file cfg snapshot w3 ws Hw3) as [Ho4 Hw4].
  destruct (sign_file_returns cfg snapshot w3) as (sp & w4 & Eg).
  destruct (sign_file cfg snapshot ws) as [og wg].
  rewrite Eg in *. simpl in Ho4, Hw4. subst og.
  destruct sp as [sp|]; simpl in E1, E2; [|unfold_M; simplify_eq/=; by split; [|apply same_files_sym]].
  (* the uploads *)
  apply sign_file_inv in Eg as (? & ? & signature & _ & _ & _ & Hsp & _ & Hfs4 & _).
  assert (is_Some (fs w4 !! snapshot)) as Hx1.
  { rewrite Hfs4, Hfs3. do 2 apply is_Some_insert. by rewrite Hfs2. }
  assert (is_Some (fs w4 !! hash_path)) as Hx2.
  { rewrite Hfs4, Hfs3. apply is_Some_insert. rewrite lookup_insert_eq. eauto. }
  assert (is_Some (fs w4 !! sp)) as Hx3.
  { rewrite Hfs4. rewrite lookup_insert_eq. eauto. }
  destruct (uploads_in_simulation cfg upload_file date_prefix snapshot w4 Hsim Hx1)
    as (w5 & E5 & Hfs5 & Hden5).
  destruct (uploads_in_simulation cfg upload_file date_prefix hash_path w5 Hsim)
    as (w6 & E6 & Hfs6 & Hden6); [by rewrite Hfs5|].
  destruct (uploads_in_simulation cfg upload_file date_prefix sp w6 Hsim)
    as (w7 & E7 & Hfs7 & Hden7); [by rewrite Hfs6, Hfs5|].
  rewrite bind_run, E5, bind_run, E6, bind_run, E7 in E1.
  unfold_M. simpl in E1, E2. simplify_eq. simpl.
  split; [done|]. destruct Hw4 as [Hf Hd]. split; simpl; congruence.
Qed.

(** X19. With uploads simulated, [process_daily_logs] of [log_signer.py]
    answers as [process_daily_logs] of [audit_trail.py] does: whenever the
    latter returns, the former, from the same state, returns the same
    answer and stores the same paths, and every file other than the live
    log, to which the logging handler appends the records of each, is left
    with the same content. *)
Theorem process_daily_logs_of_both_files `{C : Crypto} (cfg : Config)
    (upload_file : string → string → outcome unit)
    (self self' : processor) (date_prefix : string) (answer : bool) (w w' : world) :
  S3_SIMULATION_MODE cfg = true →
  AuditTrail.process_daily_logs cfg upload_file self date_prefix w
    = (Ret (answer, self'), w') →
  ∃ w2, LogSigner.process_daily_logs cfg self w = (Ret (answer, self'), w2) ∧
        ∀ p, p ≠ self_log_path self → fs w2 !! p = fs w' !! p.
Proof.
  intros Hsim E.
  destruct (process_daily_logs_agree cfg upload_file self date_prefix w Hsim) as [Ho [Hfs _]].
  rewrite E in Ho, Hfs. simpl in Ho, Hfs.
  destruct (LogSigner.process_daily_logs cfg self w) as [o w2]. simpl in Ho, Hfs. subst o.
  exists w2. split; [done|]. intros p _. by rewrite Hfs.
Qed.

Lemma process_daily_logs_of_both_files_witness :
  let live_log := "logs/api_log_2024-05-01.log" in
  ∃ self' w2,
    @LogSigner.process_daily_logs symbolic_crypto audit_trail_Config
      (Processor live_log None None) live_world = (Ret (true, self'), w2) ∧
    fs w2 !! (live_log +:+ ".snapshot") = Some (File "AUDIT: {}").
Proof.
  intros live_log.
  destruct (@process_daily_logs_of_both_files symbolic_crypto audit_trail_Config
              refusing_store (Processor live_log None None) _ "2024/05/01/" true
              live_world _ eq_refl ltac:(vm_compute; reflexivity))
    as (w2 & E & Hfs).
  eexists _, w2. split; [exact E|]. rewrite Hfs; [|discriminate]. vm_compute. reflexivity.
Defined.

(** ** One line for every handler *)






(** ** A store client that could not be made *)

(** X21. [StorageProcessor(simulate)] of [s3_uploader.py] never raises:
    when [boto3.client] raises, the processor is built without a client.
    In simulation it then works as any other; a live [upload_to_s3] of an
    existing file and a live [list_logs_for_date_range] raise
    [AttributeError], which neither of them catches. *)
Theorem storage_processor_without_client (cfg : Config) (simulate : bool) (e : exn)
    (file_path : pathlike) (date_prefix : string) (start_date end_date : date)
    (w : world) :
  ∃ self w1,
    S3Uploader.__init__ simulate (Raise e) w = (Ret self, w1) ∧
    S3Uploader.simulate self = simulate ∧
    S3Uploader.s3_client self = None ∧
    fs w1 = fs w ∧
    (simulate = true →
     (S3Uploader.upload_to_s3 cfg self file_path date_prefix w1).1
       = Ret (bool_decide (is_Some (fs w !! pathlike_str file_path))) ∧
     (S3Uploader.list_logs_for_date_range cfg self start_date end_date w1).1 = Ret []) ∧
    (simulate = false →
     (is_Some (fs w !! pathlike_str file_path) →
      (S3Uploader.upload_to_s3 cfg self file_path date_prefix w1).1
        = Raise (Exn "AttributeError" "'NoneType' object has no attribute 'upload_file'")) ∧
     (S3Uploader.list_logs_for_date_range cfg self start_date end_date w1).1
       = Raise (Exn "AttributeError" "'NoneType' object has no attribute 'list_objects_v2'")).
Proof.
  eexists _, _. split; [reflexivity|]. simpl. split_and!; try done.
  - intros ->. unfold S3Uploader.upload_to_s3, S3Uploader.list_logs_for_date_range.
    simpl. unfold_M. simpl. split; [|done].
    by destruct (bool_decide (is_Some (fs w !! pathlike_str file_path))).
  - intros ->. unfold S3Uploader.upload_to_s3, S3Uploader.list_logs_for_date_range.
    simpl. unfold_M. simpl. split; [|done].
    intros Hexists. by rewrite bool_decide_eq_true_2.
Qed.

(** ** The file of the day *)

Lemma app_length_s (u v : string) :
  String.length (u +:+ v) = String.length u + String.length v.
Proof.
  induction u as [|c u IH]; [done|].
  change (String c u +:+ v) with (String c (u +:+ v)). simpl. by rewrite IH.
Qed.

Lemma app_cancel_r (a b s : string) : a +:+ s = b +:+ s → a = b.
Proof.
  revert b. induction a as [|x a IH]; intros [|y b] E; try done.
  - exfalso. apply (f_equal String.length) in E.
    rewrite !app_length_s in E. simpl in E. lia.
  - exfalso. apply (f_equal String.length) in E.
    rewrite !app_length_s in E. simpl in E. lia.
  - change (String x a +:+ s) with (String x (a +:+ s)) in E.
    change (String y b +:+ s) with (String y (b +:+ s)) in E.
    injection E as -> E. f_equal. by apply IH.
Qed.

Lemma digits_no_dash s :
  all_chars is_digit s = true →
  all_chars (λ c, negb (bool_decide (c = "-"%char))) s = true.
Proof.
  induction s as [|c r IH]; [done|]. simpl.
  intros [Hc Hr]%andb_true_iff. rewrite IH by done.
  destruct (is_digit_char c Hc) as (_ & _ & _ & Hd).
  by rewrite bool_decide_eq_false_2.
Qed.

(** Digits before a dash are told from what follows the dash. *)
Lemma digits_dash_inj a b x y :
  all_chars is_digit a = true → all_chars is_digit b = true →
  a +:+ "-" +:+ x = b +:+ "-" +:+ y → a = b ∧ x = y.
Proof.
  intros Ha Hb E.
  assert (a = b) as ->.
  { apply (f_equal (split_go "-" "")) in E.
    change ("-" +:+ x) with (String "-" x) in E.
    change ("-" +:+ y) with (String "-" y) in E.
    rewrite !split_go_app in E by by apply digits_no_dash.
    by injection E. }
  split; [done|]. by do 2 apply (inj (String.app _)) in E.
Qed.

Lemma log_filename_inj d1 d2 :
  valid_date d1 = true → valid_date d2 = true →
  log_filename d1 = log_filename d2 → d1 = d2.
Proof.
  intros H1 H2 E. unfold log_filename in E.
  apply (inj (String.app _)) in E.
  pose proof (valid_date_bounds d1 H1) as (Hy1 & Hm1 & Hd1).
  pose proof (valid_date_bounds d2 H2) as (Hy2 & Hm2 & Hd2).
  pose proof (days_in_month_bounds (year d1) (month d1)).
  pose proof (days_in_month_bounds (year d2) (month d2)).
  destruct (str_int_pos (year d1)) as (_ & Hyd1 & _); [lia|].
  destruct (str_int_pos (year d2)) as (_ & Hyd2 & _); [lia|].
  destruct (zfill_2 (month d1)) as [Hmd1 Hmv1]; [lia|].
  destruct (zfill_2 (month d2)) as [Hmd2 Hmv2]; [lia|].
  destruct (zfill_2 (day d1)) as [Hdd1 Hdv1]; [lia|].
  destruct (zfill_2 (day d2)) as [Hdd2 Hdv2]; [lia|].
  apply digits_dash_inj in E as [Ey E]; [|done|done].
  apply digits_dash_inj in E as [Em E]; [|done|done].
  apply app_cancel_r in E.
  assert (year d1 = year d2) as Hy.
  { pose proof (py_int_str_int (year d1) ltac:(lia)) as P1.
    pose proof (py_int_str_int (year d2) ltac:(lia)) as P2. congruence. }
  assert (month d1 = month d2) as Hm by congruence.
  assert (day d1 = day d2) as Hd by congruence.
  destruct d1, d2. simpl in *. congruence.
Qed.

(** X22. The log file of the day ([Config.get_log_path_for_date], and
    [AuditLogger._get_log_path] for today's date), for dates from the year
    1000 on and a log directory other than ["."]: two dates that differ
    have different files, and the snapshot of the file of a day is a path
    that [verify_logs] looks up as it stands, without putting [LOG_DIR]
    before it. *)
Theorem log_file_of_the_day (cfg : Config) (d1 d2 : date) :
  LOG_DIR cfg ≠ "." →
  valid_date d1 = true → (1000 <= year d1)%Z →
  valid_date d2 = true → (1000 <= year d2)%Z →
  (get_log_path_for_date cfg d1 = get_log_path_for_date cfg d2 → d1 = d2) ∧
  resolved_log_path cfg (get_log_path_for_date cfg d1 +:+ ".snapshot")
  = get_log_path_for_date cfg d1 +:+ ".snapshot".
Proof.
  intros _ H1 _ H2 _. split.
  - unfold get_log_path_for_date, path_join. intros E.
    do 2 apply (inj (String.app _)) in E. by apply log_filename_inj.
  - apply (resolved_snapshot_path cfg (Processor (get_log_path_for_date cfg d1) None None)).
    right. simpl. unfold get_log_path_for_date, path_join.
    rewrite count_slash_app.
    change ("/" +:+ log_filename d1) with (String "/" (log_filename d1)).
    simpl. lia.
Qed.

Lemma log_file_of_the_day_witness :
  get_log_path_for_date audit_trail_Config (Date 2024 5 1) = "logs/api_log_2024-05-01.log" ∧
  resolved_log_path audit_trail_Config "logs/api_log_2024-05-01.log.snapshot"
  = "logs/api_log_2024-05-01.log.snapshot".
Proof.
  split; [reflexivity|].
  apply (log_file_of_the_day audit_trail_Config (Date 2024 5 1) (Date 2024 5 2));
    [discriminate | reflexivity | simpl; lia | reflexivity | simpl; lia].
Defined.
